(** * Parallel Spreadsheet: the enrichment orchestration, embedded and verified

    The development follows the two source files of the repository:

    - [app/page.tsx]: the client.  Selection, the Job Descriptor Builder
      ([enrich]), the Event Reconciler ([handleEventData], [applyRowResult]),
      the pending set and the three termination paths; the operations that
      edit the grid ([addColumn], [deleteColumn], [addRow], [deleteRow], the
      keyboard handler) and the numbers of the toolbar badges.
    - [app/api/parallel/route.ts]: the server route.  [buildExplicitSchema],
      the construction of [run_map] and the SSE proxy ([GET]).

    JavaScript values are modelled by [Js.JSON] (with [option] for
    [undefined]), JavaScript objects used as dictionaries by [gmap string],
    the [Set<string>] of pending cells by [gset string].  Numbers are integers
    ([Z]); strings are ASCII text. *)

From Stdlib Require Import ZArith List String Ascii Bool Lia.
From stdpp Require Import base gmap sets list strings pretty.

Local Open Scope string_scope.
Local Open Scope list_scope.
Local Open Scope Z_scope.
Local Set Warnings "-register-all,-clear-no-such-hyp".

(* ===================================================================== *)
(** * JavaScript values and string primitives                             *)
(* ===================================================================== *)

Module Js.

(** A value produced by [JSON.parse].  [undefined] is not a JSON value: an
    expression that may be [undefined] has type [option JSON]. The field list
    of [JObj] is the object's own properties in enumeration order. *)
Inductive JSON :=
| JNull
| JBool (b : bool)
| JNum (n : Z)
| JStr (s : string)
| JArr (items : list JSON)
| JObj (fields : list (string * JSON)).

(** [ToBoolean]. *)
Definition truthy (v : JSON) : bool :=
  match v with
  | JNull => false
  | JBool b => b
  | JNum n => negb (n =? 0)
  | JStr s => negb (String.eqb s "")
  | JArr _ | JObj _ => true
  end.

Definition truthy_opt (v : option JSON) : bool :=
  match v with Some x => truthy x | None => false end.

(** Own property of the first field with that name. *)
Fixpoint assoc (k : string) (fields : list (string * JSON)) : option JSON :=
  match fields with
  | [] => None
  | (k', v) :: rest => if String.eqb k' k then Some v else assoc k rest
  end.

(** [v?.k] for the property names the program reads ([type], [run],
    [status], [run_id], [output], [content], [is_active]): none of them is
    a property of a primitive, an array or [Object.prototype]. *)
Definition get (v : option JSON) (k : string) : option JSON :=
  match v with
  | Some (JObj fields) => assoc k fields
  | _ => None
  end.

(** [v === "s"] against a string literal. *)
Definition is_str (v : option JSON) (s : string) : bool :=
  match v with Some (JStr t) => String.eqb t s | _ => false end.

(** [v === false]. *)
Definition is_false (v : option JSON) : bool :=
  match v with Some (JBool false) => true | _ => false end.

(** [content && typeof content === 'object' && !Array.isArray(content)]. *)
Definition is_plain_object (v : JSON) : bool :=
  match v with JObj _ => true | _ => false end.

(** [Object.entries] of the object the value stands for, [{}] otherwise. *)
Definition entries (v : JSON) : list (string * JSON) :=
  match v with JObj fields => fields | _ => [] end.

(** [{ ...obj, k: v }]: an existing property keeps its place. *)
Fixpoint set_field (k : string) (v : JSON) (fields : list (string * JSON))
  : list (string * JSON) :=
  match fields with
  | [] => [(k, v)]
  | (k', v') :: rest =>
      if String.eqb k' k then (k', v) :: rest
      else (k', v') :: set_field k v rest
  end.

(** ** Strings *)

Definition code (c : ascii) : nat := nat_of_ascii c.

(** [s.toLowerCase()] on ASCII text, character by character: the letters A
    to Z are the only characters below code 128 that it changes.  Outside
    ASCII [String.prototype.toLowerCase] follows the Unicode case mapping
    (U+212A becomes k, U+0130 becomes i and U+0307), which a definition on
    bytes does not: what is stated of [toLowerCase] and [norm] themselves is
    stated of ASCII strings. *)
Definition lower (c : ascii) : ascii :=
  if (65 <=? code c)%nat && (code c <=? 90)%nat
  then ascii_of_nat (code c + 32) else c.

Fixpoint toLowerCase (s : string) : string :=
  match s with
  | EmptyString => EmptyString
  | String c rest => String (lower c) (toLowerCase rest)
  end.

(** The character class [[a-z0-9]]. *)
Definition az09 (c : ascii) : bool :=
  ((97 <=? code c)%nat && (code c <=? 122)%nat)
  || ((48 <=? code c)%nat && (code c <=? 57)%nat).

(** [s.replace(/[^a-z0-9]+/g, '')]. *)
Fixpoint strip (s : string) : string :=
  match s with
  | EmptyString => EmptyString
  | String c rest => if az09 c then String c (strip rest) else strip rest
  end.

(** White space of [String.prototype.trim] below code 128. *)
Definition white (c : ascii) : bool :=
  ((9 <=? code c)%nat && (code c <=? 13)%nat) || (code c =? 32)%nat.

Fixpoint trimStart (s : string) : string :=
  match s with
  | EmptyString => EmptyString
  | String c rest => if white c then trimStart rest else s
  end.

Definition trim (s : string) : string :=
  String.rev (trimStart (String.rev (trimStart s))).

(** [s.startsWith(p)] and [s.slice(n)]. *)
Definition startsWith (s p : string) : bool := String.prefix p s.

Fixpoint slice (n : nat) (s : string) : string :=
  match n, s with
  | O, _ => s
  | S n', String _ rest => slice n' rest
  | S _, EmptyString => EmptyString
  end.

(** [s.split(sep)] for a non-empty separator: [skip] counts the characters
    of a separator just matched that are still to be passed over, [cur] is
    the current piece, reversed. *)
Fixpoint split_go (sep : string) (skip : nat) (cur : string) (s : string)
  : list string :=
  match s with
  | EmptyString => [String.rev cur]
  | String c rest =>
      match skip with
      | S k => split_go sep k cur rest
      | O =>
          if String.prefix sep s
          then String.rev cur :: split_go sep (String.length sep - 1) "" rest
          else split_go sep 0 (String c cur) rest
      end
  end.

Definition split (sep s : string) : list string := split_go sep 0 "" s.

Definition nl : string := String (ascii_of_nat 10) EmptyString.

(** [xs.join(sep)]. *)
Fixpoint join (sep : string) (xs : list string) : string :=
  match xs with
  | [] => ""
  | [x] => x
  | x :: rest => x +:+ sep +:+ join sep rest
  end.

(** [v.toString()] for a cell value; [null] inside an array prints as the
    empty string. *)
Fixpoint toString (v : JSON) : string :=
  match v with
  | JNull => "null"
  | JBool true => "true"
  | JBool false => "false"
  | JNum n => pretty n
  | JStr s => s
  | JArr items =>
      join "," (map (fun x => match x with JNull => "" | _ => toString x end) items)
  | JObj _ => "[object Object]"
  end.

End Js.

(* ===================================================================== *)
(** * The client: [app/page.tsx]                                          *)
(* ===================================================================== *)

Module Page.
Import Js.

(** The types of the page. [end] is a keyword, so the field is [end_]; the
    [row] of a [RunMapEntry] is [entry_row], [row] being the field of
    [Point]. *)
Record Point := { row : Z; column : Z }.
Record Range := { start : Point; end_ : Point }.
Record Cell := { value : JSON; readOnly : option bool; className : option string }.
Record RunMapEntry :=
  { entry_row : Z; targetCols : list Z; targetHeaders : list string }.

(** An element of [rowsPayload].  [headersRow[c]] is [undefined] for a column
    outside the header row, hence the [option]. *)
Record JobSpec := {
  job_row : Z;
  context : gmap string (option JSON);
  job_targetHeaders : list (option string);
  job_targetCols : list Z
}.

(** [Cell[][]].  [None] is an index that holds no element: the hole that
    [rowArr[col] = ...] leaves when it writes past the end of a row.  Row 0
    never has one (the only indexed write is guarded by
    [col < headerRow.length]); the model reads it as an empty header. *)
Abbreviation Grid := (list (list (option Cell))).

(** [xs[i]] for a JavaScript number [i]. *)
Definition at_ {A} (xs : list A) (i : Z) : option A :=
  if i <? 0 then None else xs !! Z.to_nat i.

(** [xs[i] = x]: a write past the end extends the array with holes. *)
Definition array_set {A} (xs : list (option A)) (i : nat) (x : A)
  : list (option A) :=
  if (i <? length xs)%nat then <[i := Some x]> xs
  else xs ++ replicate (i - length xs) None ++ [Some x].

(** [for (let i = lo; i <= hi; i++) body], threading the variables the body
    assigns. *)
Fixpoint for_go {T} (n : nat) (i : Z) (body : Z -> T -> T) (acc : T) : T :=
  match n with
  | O => acc
  | S n' => for_go n' (i + 1) body (body i acc)
  end.

Definition for_range {T} (lo hi : Z) (body : Z -> T -> T) (acc : T) : T :=
  for_go (Z.to_nat (hi - lo + 1)) lo body acc.

(** [Object.fromEntries]: a later entry replaces an earlier one of the same
    key. *)
Definition fromEntries {V} (kvs : list (string * V)) : gmap string V :=
  foldl (fun m kv => <[kv.1 := kv.2]> m) ∅ kvs.

(** [xs.findIndex(f)], [None] for [-1]. *)
Fixpoint findIndex {A} (f : A -> bool) (xs : list A) : option nat :=
  match xs with
  | [] => None
  | x :: rest => if f x then Some O else Nat.succ <$> findIndex f rest
  end.

(** [norm]; [s || ''] is [s] on a string. After [strip] no white space is
    left for [trim] to remove. *)
Definition norm (s : string) : string := trim (strip (toLowerCase s)).

(** [c?.value ?? '']. *)
Definition valueOrEmpty (c : option Cell) : JSON :=
  match c with
  | Some c => match value c with JNull => JStr "" | v => v end
  | None => JStr ""
  end.

(** [(data[0] || []).map((c) => (c?.value ?? '').toString())], which is both
    [headers] and [headersRow]. *)
Definition headers (data : Grid) : list string :=
  map (fun c => toString (valueOrEmpty c)) (default [] (data !! O)).

(** [headerIndex]: [headers.forEach((h, i) => (map[norm(h)] = i))]. Reading
    the one inherited property a normalised key can name, [constructor],
    yields a function, which every use rejects with [Number.isInteger] just
    as it rejects [undefined]. *)
Definition headerIndex (hs : list string) : gmap string Z :=
  fromEntries (imap (fun i h => (norm h, Z.of_nat i)) hs).

Definition cellKey (p : Point) : string :=
  pretty (row p) +:+ ":" +:+ pretty (column p).

Definition addPending (cells : list Point) (prev : gset string) : gset string :=
  foldl (fun next p => {[cellKey p]} ∪ next) prev cells.

(** [clearPending] at the level of keys; [clearPending] itself builds the
    keys with the same template as [cellKey]. *)
Definition deleteKeys (keys : list string) (prev : gset string) : gset string :=
  if decide (size prev = O) then prev
  else foldl (fun next k => next ∖ {[k]}) prev keys.

Definition clearPending (cells : list Point) (prev : gset string) : gset string :=
  deleteKeys (cellKey <$> cells) prev.

(** ** Selection *)

(** The clamping and normalisation of [onSelect]. *)
Definition onSelect (data : Grid) (r : Range) : Range :=
  let maxRow := Z.of_nat (length data) - 1 in
  let maxCol := Z.of_nat (length (default [] (data !! O))) - 1 in
  let clamp (p : Point) :=
    {| row := Z.max 0 (Z.min maxRow (row p));
       column := Z.max 0 (Z.min maxCol (column p)) |} in
  let s := clamp (start r) in
  let e := clamp (end_ r) in
  {| start := {| row := Z.min (row s) (row e);
                 column := Z.min (column s) (column e) |};
     end_ := {| row := Z.max (row s) (row e);
                column := Z.max (column s) (column e) |} |}.

Definition normalized (r : Range) : Prop :=
  0 <= row (start r) <= row (end_ r) /\ 0 <= column (start r) <= column (end_ r).

(** ** The Job Descriptor Builder: the first half of [enrich] *)

Definition startRowOf (r : Range) : Z := Z.max 1 (row (start r)).
Definition endRowOf (r : Range) : Z := Z.max (startRowOf r) (row (end_ r)).

Definition selectedCellsOf (r : Range) : list Point :=
  for_range (startRowOf r) (endRowOf r)
    (fun i cells =>
       for_range (column (start r)) (column (end_ r))
         (fun c cells => cells ++ [{| row := i; column := c |}]) cells)
    [].

(** [data[r]?.map(c => c?.value ?? '') || []]: [map] leaves a hole a hole. *)
Definition rowVals (data : Grid) (i : Z) : list (option JSON) :=
  match at_ data i with
  | Some cells => map (fun c => valueOrEmpty ∘ Some <$> c) cells
  | None => []
  end.

(** [Array.from({ length: endCol - startCol + 1 }, (_, i) => startCol + i)]. *)
Definition tColsOf (r : Range) : list Z :=
  map (fun i => column (start r) + Z.of_nat i)
      (seq 0 (Z.to_nat (column (end_ r) - column (start r) + 1))).

Definition jobSpecOf (data : Grid) (r : Range) (i : Z) : JobSpec :=
  let headersRow := headers data in
  let vals := rowVals data i in
  let tCols := tColsOf r in
  {| job_row := i;
     context := fromEntries (imap (fun j h => (h, mjoin (vals !! j))) headersRow);
     job_targetHeaders := map (fun c => at_ headersRow c) tCols;
     job_targetCols := tCols |}.

Definition rowsPayloadOf (data : Grid) (r : Range) : list JobSpec :=
  for_range (startRowOf r) (endRowOf r)
    (fun i payload => payload ++ [jobSpecOf data r i]) [].

(** ** Applying a result: [applyRowResult] *)

(** [targetCols && targetCols.length ? targetCols : (targetHeaders || [])
    .map((h) => headerIndex[norm(h)]).filter((x) => Number.isInteger(x))].
    An absent argument and an empty array take the same branches, so both
    are the empty list. *)
Definition tColsFor (hi : gmap string Z) (tHeaders : list string)
    (tCols : list Z) : list Z :=
  match tCols with
  | [] => omap (fun h => hi !! norm h) tHeaders
  | _ => tCols
  end.

(** The column an output key [k] is written to: the value of [col] when the
    loop body reaches its last [if]. *)
Definition resolve (hi : gmap string Z) (tHeaders : list string)
    (tCols : list Z) (k : string) : option Z :=
  match hi !! norm k with
  | Some col => Some col
  | None =>
      match tHeaders with
      | [] => None
      | _ =>
          match findIndex (fun th => String.eqb (norm th) (norm k)) tHeaders with
          | Some idx => tColsFor hi tHeaders tCols !! idx
          | None => None
          end
      end
  end.

(** [`${row}:${column}`] where [row] may be [undefined]. *)
Definition keyOf (r : option Z) (col : Z) : string :=
  match r with
  | Some i => cellKey {| row := i; column := col |}
  | None => "undefined:" +:+ pretty col
  end.

(** [{ ...(rowArr[col] || {}), value: v }]. *)
Definition withValue (old : option Cell) (v : JSON) : Cell :=
  match old with
  | Some c => {| value := v; readOnly := readOnly c; className := className c |}
  | None => {| value := v; readOnly := None; className := None |}
  end.

(** What one run of [applyRowResult] assigns: the row array being filled,
    the pending set and the success count. *)
Record Applied := {
  a_row : list (option Cell);
  a_pending : gset string;
  a_success : Z
}.

(** One iteration of [for (const [k, v] of Object.entries(obj))]. *)
Definition applyEntry (hi : gmap string Z) (headerLen : nat) (r : option Z)
    (tHeaders : list string) (tCols : list Z)
    (acc : Applied) (kv : string * JSON) : Applied :=
  match resolve hi tHeaders tCols kv.1 with
  | Some col =>
      if (0 <=? col) && (col <? Z.of_nat headerLen) then
        {| a_row := array_set (a_row acc) (Z.to_nat col)
                      (withValue (mjoin (a_row acc !! Z.to_nat col)) kv.2);
           a_pending := deleteKeys [keyOf r col] (a_pending acc);
           a_success := a_success acc + 1 |}
      else acc
  | None => acc
  end.

(** ** Run state *)

(** What one call of [enrich] closes over. The [EventSource] and the
    timeout it creates are named by the index of the call. *)
Record Run := {
  selectedCells : list Point;
  rowsPayload : list JobSpec;
  startTime : Z;
  run_headerIndex : gmap string Z
}.

(** The React state of the page ([data] to [currentTaskGroupId]), the ref
    [esRef], and what lives outside React: the closures of the calls of
    [enrich] made so far ([runs], oldest first), the calls suspended at their
    POST ([awaiting]), the [run_map] each answered call holds ([run_maps]),
    the [EventSource]s not yet closed ([openStreams]), the timeouts armed
    ([timers]) and the number of calls of [cancelEnrichment] suspended at
    their DELETE ([cancelling]). Presentation state (flash, hover, the live
    message) is left out. *)
Record State := {
  data : Grid;
  range : option Range;
  pending : gset string;
  busy : bool;
  successCount : Z;
  errorCount : Z;
  lastEnrichTime : option Z;
  initialPendingCount : Z;
  currentTaskGroupId : option string;
  esRef : option nat;
  runs : list Run;
  awaiting : gset nat;
  run_maps : gmap nat (gmap string RunMapEntry);
  openStreams : gset nat;
  timers : gset nat;
  cancelling : nat
}.

Definition setData (f : Grid -> Grid) (s : State) : State :=
  {| data := f (data s); range := range s; pending := pending s; busy := busy s;
     successCount := successCount s; errorCount := errorCount s;
     lastEnrichTime := lastEnrichTime s;
     initialPendingCount := initialPendingCount s;
     currentTaskGroupId := currentTaskGroupId s; esRef := esRef s;
     runs := runs s; awaiting := awaiting s; run_maps := run_maps s;
     openStreams := openStreams s; timers := timers s;
     cancelling := cancelling s |}.

Definition setRange (x : option Range) (s : State) : State :=
  {| data := data s; range := x; pending := pending s; busy := busy s;
     successCount := successCount s; errorCount := errorCount s;
     lastEnrichTime := lastEnrichTime s;
     initialPendingCount := initialPendingCount s;
     currentTaskGroupId := currentTaskGroupId s; esRef := esRef s;
     runs := runs s; awaiting := awaiting s; run_maps := run_maps s;
     openStreams := openStreams s; timers := timers s;
     cancelling := cancelling s |}.

Definition setPending (f : gset string -> gset string) (s : State) : State :=
  {| data := data s; range := range s; pending := f (pending s); busy := busy s;
     successCount := successCount s; errorCount := errorCount s;
     lastEnrichTime := lastEnrichTime s;
     initialPendingCount := initialPendingCount s;
     currentTaskGroupId := currentTaskGroupId s; esRef := esRef s;
     runs := runs s; awaiting := awaiting s; run_maps := run_maps s;
     openStreams := openStreams s; timers := timers s;
     cancelling := cancelling s |}.

Definition setBusy (x : bool) (s : State) : State :=
  {| data := data s; range := range s; pending := pending s; busy := x;
     successCount := successCount s; errorCount := errorCount s;
     lastEnrichTime := lastEnrichTime s;
     initialPendingCount := initialPendingCount s;
     currentTaskGroupId := currentTaskGroupId s; esRef := esRef s;
     runs := runs s; awaiting := awaiting s; run_maps := run_maps s;
     openStreams := openStreams s; timers := timers s;
     cancelling := cancelling s |}.

Definition setSuccessCount (f : Z -> Z) (s : State) : State :=
  {| data := data s; range := range s; pending := pending s; busy := busy s;
     successCount := f (successCount s); errorCount := errorCount s;
     lastEnrichTime := lastEnrichTime s;
     initialPendingCount := initialPendingCount s;
     currentTaskGroupId := currentTaskGroupId s; esRef := esRef s;
     runs := runs s; awaiting := awaiting s; run_maps := run_maps s;
     openStreams := openStreams s; timers := timers s;
     cancelling := cancelling s |}.

Definition setErrorCount (f : Z -> Z) (s : State) : State :=
  {| data := data s; range := range s; pending := pending s; busy := busy s;
     successCount := successCount s; errorCount := f (errorCount s);
     lastEnrichTime := lastEnrichTime s;
     initialPendingCount := initialPendingCount s;
     currentTaskGroupId := currentTaskGroupId s; esRef := esRef s;
     runs := runs s; awaiting := awaiting s; run_maps := run_maps s;
     openStreams := openStreams s; timers := timers s;
     cancelling := cancelling s |}.

Definition setLastEnrichTime (x : option Z) (s : State) : State :=
  {| data := data s; range := range s; pending := pending s; busy := busy s;
     successCount := successCount s; errorCount := errorCount s;
     lastEnrichTime := x;
     initialPendingCount := initialPendingCount s;
     currentTaskGroupId := currentTaskGroupId s; esRef := esRef s;
     runs := runs s; awaiting := awaiting s; run_maps := run_maps s;
     openStreams := openStreams s; timers := timers s;
     cancelling := cancelling s |}.

Definition setInitialPendingCount (x : Z) (s : State) : State :=
  {| data := data s; range := range s; pending := pending s; busy := busy s;
     successCount := successCount s; errorCount := errorCount s;
     lastEnrichTime := lastEnrichTime s;
     initialPendingCount := x;
     currentTaskGroupId := currentTaskGroupId s; esRef := esRef s;
     runs := runs s; awaiting := awaiting s; run_maps := run_maps s;
     openStreams := openStreams s; timers := timers s;
     cancelling := cancelling s |}.

Definition setCurrentTaskGroupId (x : option string) (s : State) : State :=
  {| data := data s; range := range s; pending := pending s; busy := busy s;
     successCount := successCount s; errorCount := errorCount s;
     lastEnrichTime := lastEnrichTime s;
     initialPendingCount := initialPendingCount s;
     currentTaskGroupId := x; esRef := esRef s;
     runs := runs s; awaiting := awaiting s; run_maps := run_maps s;
     openStreams := openStreams s; timers := timers s;
     cancelling := cancelling s |}.

Definition setEsRef (x : option nat) (s : State) : State :=
  {| data := data s; range := range s; pending := pending s; busy := busy s;
     successCount := successCount s; errorCount := errorCount s;
     lastEnrichTime := lastEnrichTime s;
     initialPendingCount := initialPendingCount s;
     currentTaskGroupId := currentTaskGroupId s; esRef := x;
     runs := runs s; awaiting := awaiting s; run_maps := run_maps s;
     openStreams := openStreams s; timers := timers s;
     cancelling := cancelling s |}.

(** The part of the state that is not React state: closures, suspended
    calls, live [EventSource]s and armed timers. *)
Definition setEnv (rs : list Run) (aw : gset nat)
    (rm : gmap nat (gmap string RunMapEntry)) (os ts : gset nat) (cn : nat)
    (s : State) : State :=
  {| data := data s; range := range s; pending := pending s; busy := busy s;
     successCount := successCount s; errorCount := errorCount s;
     lastEnrichTime := lastEnrichTime s;
     initialPendingCount := initialPendingCount s;
     currentTaskGroupId := currentTaskGroupId s; esRef := esRef s;
     runs := rs; awaiting := aw; run_maps := rm;
     openStreams := os; timers := ts; cancelling := cn |}.

Definition pushRun (r : Run) (s : State) : State :=
  setEnv (runs s ++ [r]) ({[length (runs s)]} ∪ awaiting s) (run_maps s)
         (openStreams s) (timers s) (cancelling s) s.

Definition resumeRun (rid : nat) (s : State) : State :=
  setEnv (runs s) (awaiting s ∖ {[rid]}) (run_maps s)
         (openStreams s) (timers s) (cancelling s) s.

(** [new EventSource(...)] with its listeners, and [setTimeout(..., 600000)]. *)
Definition openStream (rid : nat) (rm : gmap string RunMapEntry) (s : State)
  : State :=
  setEnv (runs s) (awaiting s) (<[rid := rm]> (run_maps s))
         ({[rid]} ∪ openStreams s) ({[rid]} ∪ timers s) (cancelling s) s.

(** [es.close()]. *)
Definition closeStream (rid : nat) (s : State) : State :=
  setEnv (runs s) (awaiting s) (run_maps s)
         (openStreams s ∖ {[rid]}) (timers s) (cancelling s) s.

(** [clearTimeout(timeout)], also what a timeout that fires does to itself. *)
Definition clearTimeout (rid : nat) (s : State) : State :=
  setEnv (runs s) (awaiting s) (run_maps s)
         (openStreams s) (timers s ∖ {[rid]}) (cancelling s) s.

Definition setCancelling (n : nat) (s : State) : State :=
  setEnv (runs s) (awaiting s) (run_maps s)
         (openStreams s) (timers s) n s.

(** The page as first rendered. *)
Definition initial (d : Grid) : State :=
  {| data := d; range := None; pending := ∅; busy := false;
     successCount := 0; errorCount := 0; lastEnrichTime := None;
     initialPendingCount := 0; currentTaskGroupId := None; esRef := None;
     runs := []; awaiting := ∅; run_maps := ∅; openStreams := ∅;
     timers := ∅; cancelling := O |}.

(** [applyRowResult(row, content, targetHeaders, targetCols)] with the
    [headerIndex] its closure holds.  [next[row] || []]: when the grid has no
    such row the loop fills an array that is not part of [next]. *)
Definition applyRowResult (hi : gmap string Z) (r : option Z) (content : JSON)
    (tHeaders : list string) (tCols : list Z) (s : State) : State :=
  let obj := if is_plain_object content then entries content else [] in
  let headerLen := length (default [] (data s !! O)) in
  let target := r ≫= at_ (data s) in
  let done :=
    foldl (applyEntry hi headerLen r tHeaders tCols)
      {| a_row := default [] target; a_pending := pending s;
         a_success := successCount s |} obj in
  let s1 :=
    match r, target with
    | Some i, Some _ => setData (fun d => <[Z.to_nat i := a_row done]> d) s
    | _, _ => s
    end in
  setSuccessCount (fun _ => a_success done)
    (setPending (fun _ => a_pending done) s1).

(** ** The Event Reconciler: [handleEventData] *)

(** The properties every object inherits from [Object.prototype]:
    [run_map[runId]] finds them when [run_map] has no own property of that
    name. *)
Definition objectPrototypeKeys : list string :=
  ["constructor"; "hasOwnProperty"; "isPrototypeOf"; "propertyIsEnumerable";
   "toLocaleString"; "toString"; "valueOf"; "__proto__";
   "__defineGetter__"; "__defineSetter__"; "__lookupGetter__";
   "__lookupSetter__"].

Inductive Hit :=
| Own (meta : RunMapEntry)
| Inherited
| Missing.

(** [runId && run_map[runId]]. *)
Definition lookupRun (run_map : gmap string RunMapEntry) (runId : option JSON)
  : Hit :=
  match runId with
  | Some v =>
      if truthy v then
        match run_map !! toString v with
        | Some meta => Own meta
        | None =>
            if bool_decide (toString v ∈ objectPrototypeKeys)
            then Inherited else Missing
        end
      else Missing
  | None => Missing
  end.

(** [output.content || data.output]. *)
Definition outOf (output : option JSON) : option JSON :=
  if truthy_opt (get output "content") then get output "content" else output.

Notation "s |> f" := (f s) (at level 45, left associativity, only parsing).

(** The branch of [handleEventData] for a group that is no longer active:
    natural completion. *)
Definition complete (cl : Run) (rid : nat) (now : Z) (s : State) : State :=
  s |> closeStream rid
    |> setEsRef None
    |> setPending (clearPending (selectedCells cl))
    |> clearTimeout rid
    |> setLastEnrichTime (Some (now - startTime cl))
    |> setBusy false
    |> setCurrentTaskGroupId None.

Definition handleEventData (cl : Run) (run_map : gmap string RunMapEntry)
    (rid : nat) (now : Z) (obj : JSON) (s : State) : State :=
  let data := Some obj in
  let eventType := get data "type" in
  if is_str eventType "task_run.state" || is_str eventType "task_run" then
    let run := get data "run" in
    let runStatus := get run "status" in
    let runId := get run "run_id" in
    if is_str runStatus "completed" && truthy_opt (get data "output") then
      match outOf (get data "output"), lookupRun run_map runId with
      | Some out, Own meta =>
          applyRowResult (run_headerIndex cl) (Some (entry_row meta)) out
            (targetHeaders meta) (targetCols meta) s
      | Some out, Inherited =>
          applyRowResult (run_headerIndex cl) None out [] [] s
      | _, _ => s
      end
    else if is_str runStatus "failed" then
      let s1 := s |> setErrorCount (fun prev => prev + 1) in
      match lookupRun run_map runId with
      | Own meta =>
          let cellsToClear :=
            foldl (fun cells col =>
                     cells ++ [{| row := entry_row meta; column := col |}])
                  [] (targetCols meta) in
          s1 |> setPending (clearPending cellsToClear)
      | Inherited => s1   (* [meta.targetCols] is not iterable: the listener
                             catches the TypeError *)
      | Missing => s1
      end
    else s
  else if is_str eventType "task_group_status" then
    if is_false (get (get data "status") "is_active")
    then complete cl rid now s
    else s
  else s.

(** ** The Lifecycle Controller *)

(** [enrich] up to [await fetch('/api/parallel', ...)]. *)
Definition enrich (now : Z) (s : State) : State :=
  match range s with
  | Some r =>
      if busy s then s
      else
        let cells := selectedCellsOf r in
        s |> setRange None
          |> setPending (addPending cells)
          |> setInitialPendingCount (Z.of_nat (length cells))
          |> setSuccessCount (fun _ => 0)
          |> setErrorCount (fun _ => 0)
          |> pushRun {| selectedCells := cells;
                        rowsPayload := rowsPayloadOf (data s) r;
                        startTime := now;
                        run_headerIndex := headerIndex (headers (data s)) |}
          |> setBusy true
  | None => s
  end.

(** [enrich] from the answer of the POST on: [None] is any failure that
    lands in the [catch], [Some] the [taskgroup_id] and [run_map] of a
    successful answer. *)
Definition enrichResume (rid : nat)
    (resp : option (string * gmap string RunMapEntry)) (s : State) : State :=
  match runs s !! rid with
  | Some cl =>
      if bool_decide (rid ∈ awaiting s) then
        match resp with
        | Some (taskgroup_id, run_map) =>
            s |> resumeRun rid
              |> setCurrentTaskGroupId (Some taskgroup_id)
              |> openStream rid run_map
              |> setEsRef (Some rid)
        | None =>
            s |> resumeRun rid
              |> setBusy false
              |> setCurrentTaskGroupId None
              |> setPending (clearPending (selectedCells cl))
        end
      else s
  | None => s
  end.

(** [es.onerror], the wrapper and the handler it wraps. *)
Definition onerror (cl : Run) (rid : nat) (s : State) : State :=
  s |> clearTimeout rid
    |> closeStream rid
    |> setEsRef None
    |> setBusy false
    |> setCurrentTaskGroupId None
    |> setPending (clearPending (selectedCells cl)).

(** The callback of [setTimeout(..., 600000)]. *)
Definition onTimeout (cl : Run) (rid : nat) (s : State) : State :=
  s |> clearTimeout rid
    |> closeStream rid
    |> setEsRef None
    |> setPending (clearPending (selectedCells cl))
    |> setBusy false
    |> setCurrentTaskGroupId None.

(** [!currentTaskGroupId || !busy] is false. *)
Definition cancellable (s : State) : bool :=
  match currentTaskGroupId s with
  | Some g => negb (String.eqb g "") && busy s
  | None => false
  end.

(** [cancelEnrichment] up to the [await] of the DELETE. *)
Definition cancelEnrichment (s : State) : State :=
  if cancellable s then s |> setCancelling (S (cancelling s)) else s.

(** [cancelEnrichment] after the DELETE has answered or failed. *)
Definition cancelResume (s : State) : State :=
  match cancelling s with
  | O => s
  | S n =>
      let s1 := s |> setCancelling n in
      let s2 :=
        match esRef s1 with
        | Some rid => s1 |> closeStream rid |> setEsRef None
        | None => s1
        end in
      s2 |> setPending (fun _ => ∅)
         |> setBusy false
         |> setCurrentTaskGroupId None
         |> setLastEnrichTime None
         |> setSuccessCount (fun _ => 0)
         |> setErrorCount (fun _ => 0)
  end.

(** What can happen once a run has been started. A closed [EventSource]
    dispatches nothing and a cleared timeout does not fire. *)
Inductive RunEvent :=
| Response (rid : nat) (resp : option (string * gmap string RunMapEntry))
| Message (rid : nat) (now : Z) (obj : JSON)
| StreamError (rid : nat)
| Timeout (rid : nat)
| Cancel
| CancelResume.

Inductive Event :=
| Select (r : Range)
| Enrich (now : Z)
| During (e : RunEvent).

Definition stepRun (s : State) (e : RunEvent) : State :=
  match e with
  | Response rid resp => enrichResume rid resp s
  | Message rid now obj =>
      match runs s !! rid with
      | Some cl =>
          if bool_decide (rid ∈ openStreams s)
          then handleEventData cl (default ∅ (run_maps s !! rid)) rid now obj s
          else s
      | None => s
      end
  | StreamError rid =>
      match runs s !! rid with
      | Some cl => if bool_decide (rid ∈ openStreams s) then onerror cl rid s else s
      | None => s
      end
  | Timeout rid =>
      match runs s !! rid with
      | Some cl => if bool_decide (rid ∈ timers s) then onTimeout cl rid s else s
      | None => s
      end
  | Cancel => cancelEnrichment s
  | CancelResume => cancelResume s
  end.

(** [onSelect] is not attached while [busy]. *)
Definition step (s : State) (e : Event) : State :=
  match e with
  | Select r => if busy s then s else s |> setRange (Some (onSelect (data s) r))
  | Enrich now => enrich now s
  | During e => stepRun s e
  end.

Definition exec (s : State) (es : list Event) : State := foldl step s es.

(** The three termination paths of the Lifecycle Controller. *)
Inductive Path := NaturalCompletion | Cancellation | TimeoutExpiry.

Definition groupInactive (obj : JSON) : bool :=
  is_str (get (Some obj) "type") "task_group_status"
  && is_false (get (get (Some obj) "status") "is_active").

(** The termination path an event sets off, with the run it belongs to: the
    guards of [stepRun] and of the handlers. The run a cancellation stops is
    the one started last. *)
Definition fires (s : State) (e : Event) : option (nat * Path) :=
  match e with
  | During (Message rid _ obj) =>
      if bool_decide (rid ∈ openStreams s) && groupInactive obj
      then Some (rid, NaturalCompletion) else None
  | During (Timeout rid) =>
      if bool_decide (rid ∈ timers s) then Some (rid, TimeoutExpiry) else None
  | During Cancel =>
      if cancellable s then Some (Nat.pred (length (runs s)), Cancellation)
      else None
  | _ => None
  end.

Fixpoint firings (s : State) (es : list Event) : list (nat * Path) :=
  match es with
  | [] => []
  | e :: rest =>
      match fires s e with
      | Some f => f :: firings (step s e) rest
      | None => firings (step s e) rest
      end
  end.

End Page.

(* ===================================================================== *)
(** * The server: [app/api/parallel/route.ts]                             *)
(* ===================================================================== *)

Module Route.
Import Js.

(** An element of [body.rows]. *)
Record Row := {
  row : Z;
  context : JSON;
  targetHeaders : list string;
  targetCols : list Z
}.

(** ** [POST]: the batch and the correlation table *)

Record PropertySchema := { prop_type : string; description : string }.

Record JsonSchema := {
  schema_type : string;
  properties : gmap string PropertySchema;
  required : list string;
  additionalProperties : bool
}.

Record OutputSchema := { type : string; json_schema : JsonSchema }.

Definition buildExplicitSchema (targetHeaders : list string) : OutputSchema :=
  {| type := "json";
     json_schema :=
       {| schema_type := "object";
          properties :=
            Page.fromEntries
              (map (fun h =>
                      (h, {| prop_type := "string";
                             description :=
                               "Value for " +:+ h
                               +:+ " column. Return null if not found." |}))
                   targetHeaders);
          required := targetHeaders;
          additionalProperties := false |} |}.

Record Metadata := { meta_row : Z; index : nat }.

Record Input := {
  input : string;
  output_schema : OutputSchema;
  processor : string;
  metadata : Metadata
}.

(** An element of [run_ids.map(...)]: the pair [[rid, {...}]] or the empty
    array [[]]. *)
Inductive EntryArray :=
| Pair (rid : string) (entry : Page.RunMapEntry)
| Empty.

(** [Boolean(entry)]: every array is an object, and every object is truthy. *)
Definition Boolean (e : EntryArray) : bool :=
  match e with
  | Pair _ _ => true
  | Empty => true
  end.

(** [rid && rows[i] ? [rid, {...}] : []]; [None] is a [null] among the
    returned ids. *)
Definition entryFor (rows : list Row) (i : nat) (rid : option string)
  : EntryArray :=
  match rid, rows !! i with
  | Some id, Some r =>
      if String.eqb id "" then Empty
      else Pair id {| Page.entry_row := row r;
                      Page.targetCols := targetCols r;
                      Page.targetHeaders := targetHeaders r |}
  | _, _ => Empty
  end.

(** What [Object.fromEntries] reads from an entry: [entry[0]] converted to a
    property key, and [entry[1]]. Both are [undefined] on the empty array,
    and [undefined] as a key is the string "undefined". *)
Definition keyValue (e : EntryArray) : string * option Page.RunMapEntry :=
  match e with
  | Pair rid entry => (rid, Some entry)
  | Empty => ("undefined", None)
  end.

(** [run_map]: a property whose value is [None] is present and holds
    [undefined]. *)
Definition run_map (run_ids : list (option string)) (rows : list Row)
  : gmap string (option Page.RunMapEntry) :=
  Page.fromEntries
    (map keyValue (filter (fun e => Is_true (Boolean e))
                          (imap (fun i rid => entryFor rows i rid) run_ids))).

(** The [run_map] the client reads back from the response body:
    [JSON.stringify] leaves out a property that holds [undefined]. *)
Definition run_map_sent (run_ids : list (option string)) (rows : list Row)
  : gmap string Page.RunMapEntry :=
  omap id (run_map run_ids rows).

(** ** [GET]: the streaming transport *)

Section Transport.

(** [JSON.parse] ([None] when it throws), [JSON.stringify] with and without
    indentation. *)
Variable JSON_parse : string -> option JSON.
Variable JSON_stringify : JSON -> string.
Variable JSON_stringify2 : JSON -> string.

(** What the [n]-th call of [fetchRunResult] resolves to for a run id:
    the body of the answer, or [null] after any failure (the function
    catches it). *)
Variable fetchRunResult : nat -> string -> JSON.

(** Whether [controller.enqueue] succeeds when [n] chunks have been enqueued
    before: it throws once the consumer has gone. *)
Variable alive : nat -> bool.

Definition buildPrompt (rowCtx : JSON) (targetHeaders : list string) : string :=
  join nl
    ["You are completing unknown cells in a spreadsheet row using live web research.";
     "Return only a single flat JSON object whose keys are exactly the target column names. No markdown, no code fences, no extra keys.";
     "Rules:";
     "- Use the latest authoritative sources (official sites/filings/docs/news; LinkedIn for headcount as needed).";
     "- Provide a single concise value per target; if truly unavailable, set the value to null.";
     "- Prefer integers for counts, ISO dates for dates, and short strings otherwise; no units in numeric values.";
     "";
     "Row context (JSON):";
     JSON_stringify2 rowCtx;
     "";
     "Target columns to fill (exact key names):";
     join nl (map (fun h => "- " +:+ h) targetHeaders);
     "";
     "Output: ONLY the JSON object for these keys."].

Definition inputs (rows : list Row) (proc : string) : list Input :=
  imap (fun i r =>
          {| input := buildPrompt (context r) (targetHeaders r);
             output_schema := buildExplicitSchema (targetHeaders r);
             processor := proc;
             metadata := {| meta_row := row r; index := i |} |}) rows.

(** The three variables the line loop assigns. [eventData] starts as [null]. *)
Record Frame := { eventType : string; eventId : string; eventData : JSON }.

Definition parseLine (f : Frame) (line : string) : Frame :=
  if startsWith line "event: " then
    {| eventType := slice 7 line; eventId := eventId f; eventData := eventData f |}
  else if startsWith line "id: " then
    {| eventType := eventType f; eventId := slice 4 line; eventData := eventData f |}
  else if startsWith line "data: " then
    {| eventType := eventType f; eventId := eventId f;
       eventData := match JSON_parse (slice 6 line) with
                    | Some v => v
                    | None => JStr (slice 6 line)
                    end |}
  else f.

Definition parseFrame (eventStr : string) : Frame :=
  foldl parseLine {| eventType := ""; eventId := ""; eventData := JNull |}
        (split nl eventStr).

(** The test of the first branch: a completed run that carries no output. *)
Definition needsResult (f : Frame) : bool :=
  let data := Some (eventData f) in
  String.eqb (eventType f) "task_run.state"
  && is_str (get data "type") "task_run.state"
  && is_str (get (get data "run") "status") "completed"
  && truthy_opt (get (get data "run") "run_id")
  && negb (truthy_opt (get data "output")).

(** The test of the second branch: the group is no longer active. *)
Definition groupDone (f : Frame) : bool :=
  String.eqb (eventType f) "task_group_status"
  && is_false (get (get (Some (eventData f)) "status") "is_active").

(** [{ ...data, output: result.output }]; [data] is an object whenever
    [needsResult] holds. *)
Definition withOutput (data output : JSON) : JSON :=
  JObj (set_field "output" output (entries data)).

Definition enrichedEvent (f : Frame) (output : JSON) : string :=
  "event: " +:+ eventType f +:+ nl
  +:+ (if String.eqb (eventId f) "" then "" else "id: " +:+ eventId f +:+ nl)
  +:+ "data: " +:+ JSON_stringify (withOutput (eventData f) output)
  +:+ nl +:+ nl.

(** What the transport has done so far: the chunks enqueued, oldest first,
    and the run ids [fetchRunResult] was called with. *)
Record Trace := { emitted : list string; fetched : list string }.

(** [safeEnqueue]: [None] when it returns [false]. The flag
    [isControllerClosed] is not part of the state: each assignment of [true]
    inside the loop is followed by [return], so the loop only ever reads it
    as [false]. *)
Definition safeEnqueue (chunk : string) (t : Trace) : option Trace :=
  if alive (length (emitted t))
  then Some {| emitted := emitted t ++ [chunk]; fetched := fetched t |}
  else None.

Definition recordFetch (runId : string) (t : Trace) : Trace :=
  {| emitted := emitted t; fetched := fetched t ++ [runId] |}.

(** How one iteration of [for (const eventStr of events)] ends: with the
    next value of [shouldExit], or in a [return]. *)
Inductive Step :=
| Next (t : Trace) (shouldExit : bool)
| Return (t : Trace).

(** [if (!safeEnqueue(chunk)) return;] *)
Definition enqueueOrReturn (chunk : string) (t : Trace) (shouldExit : bool)
  : Step :=
  match safeEnqueue chunk t with
  | Some t' => Next t' shouldExit
  | None => Return t
  end.

Definition processEvent (eventStr : string) (t : Trace) (shouldExit : bool)
  : Step :=
  if String.eqb (trim eventStr) "" then Next t shouldExit
  else
    let f := parseFrame eventStr in
    if needsResult f then
      let runId :=
        match get (get (Some (eventData f)) "run") "run_id" with
        | Some v => toString v
        | None => ""
        end in
      let result := fetchRunResult (length (fetched t)) runId in
      let t1 := recordFetch runId t in
      match get (Some result) "output" with
      | Some output =>
          if truthy output
          then enqueueOrReturn (enrichedEvent f output) t1 shouldExit
          else enqueueOrReturn (eventStr +:+ nl +:+ nl) t1 shouldExit
      | None => enqueueOrReturn (eventStr +:+ nl +:+ nl) t1 shouldExit
      end
    else if groupDone f then
      enqueueOrReturn (eventStr +:+ nl +:+ nl) t true
    else
      enqueueOrReturn (eventStr +:+ nl +:+ nl) t shouldExit.

Fixpoint processEvents (events : list string) (t : Trace) (shouldExit : bool)
  : Step :=
  match events with
  | [] => Next t shouldExit
  | eventStr :: rest =>
      match processEvent eventStr t shouldExit with
      | Next t' shouldExit' => processEvents rest t' shouldExit'
      | Return t' => Return t'
      end
  end.

(** What [reader.read()] settles with; the end of the list is [done]. *)
Inductive Read :=
| Chunk (text : string)
| ReadError.

(** How [start] leaves the controller: [controller.close()],
    [controller.error(...)], or a [return] after an enqueue that failed. *)
Inductive Ending := Closed | Errored | Abandoned.

(** The [while (true)] loop. [shouldExit] is [false] at the top of every
    iteration: the loop is left as soon as it is [true]. *)
Fixpoint pump (reads : list Read) (buffer : string) (t : Trace)
  : Trace * Ending :=
  match reads with
  | [] => (t, Closed)
  | ReadError :: _ => (t, Errored)
  | Chunk text :: rest =>
      let events := split (nl +:+ nl) (buffer +:+ text) in
      match processEvents (removelast events) t false with
      | Return t' => (t', Abandoned)
      | Next t' shouldExit =>
          if shouldExit then (t', Closed)
          else pump rest (List.last events "") t'
      end
  end.

Inductive Response :=
| Status (code : Z)
| EventStream (t : Trace) (e : Ending).

(** [GET]. [upstream] is the body of the events request, [None] when the
    request fails, answers with an error status or has no body. *)
Definition GET (apiKey : bool) (taskgroup_id : option string)
    (upstream : option (list Read)) : Response :=
  if negb apiKey then Status 500
  else
    match taskgroup_id with
    | None => Status 400
    | Some "" => Status 400
    | Some _ =>
        let t0 := {| emitted := [": keep-alive" +:+ nl +:+ nl]; fetched := [] |} in
        match upstream with
        | None => EventStream t0 Errored
        | Some reads => let '(t, e) := pump reads "" t0 in EventStream t e
        end
    end.

End Transport.

End Route.

Import Js Page.

(* ===================================================================== *)
(** * Editing the grid: the rest of [app/page.tsx]                        *)
(* ===================================================================== *)

Module Edit.

(** [{ value: '' }]. *)
Definition emptyCell : Cell :=
  {| value := JStr ""; readOnly := None; className := None |}.

(** [xs.filter((x, idx) => keep(idx, x))]. *)
Fixpoint filterIndexed {A} (keep : nat -> A -> bool) (i : nat) (xs : list A)
  : list A :=
  match xs with
  | [] => []
  | x :: rest =>
      if keep i x then x :: filterIndexed keep (S i) rest
      else filterIndexed keep (S i) rest
  end.

(** [addColumn]. [prev[0]?.length || 0] is the width of the header row. On a
    row without holes, which is every row of a grid these operations build,
    the spread [[...row, x]] is [row ++ [x]]. *)
Definition addColumn (s : State) : State :=
  let newCol := Z.of_nat (length (default [] (data s !! O))) in
  s |> setData (map (fun cells => cells ++ [Some emptyCell]))
    |> setRange (Some {| start := {| row := 0; column := newCol |};
                         end_ := {| row := 0; column := newCol |} |}).

(** [deleteColumn]. With no header row [data[0].length] throws and nothing
    changes. [filter] passes over holes. *)
Definition deleteColumn (s : State) : State :=
  match range s, data s !! O with
  | Some r, Some header =>
      if (length header <=? 1)%nat then s
      else
        let colToDelete := column (start r) in
        s |> setData
               (map (filterIndexed
                       (fun idx c => match c with
                                     | Some _ => negb (Z.of_nat idx =? colToDelete)
                                     | None => false
                                     end) O))
          |> setRange None
  | _, _ => s
  end.

(** [addRow]: [Array(prev[0]?.length || 5).fill({ value: '' })]. No cell is
    ever changed in place, so that the cells of the new row are one object
    makes no difference. *)
Definition addRow (s : State) : State :=
  let width := length (default [] (data s !! O)) in
  s |> setData (fun prev =>
                  prev ++ [replicate (if (width =? 0)%nat then 5%nat else width)
                                     (Some emptyCell)]).

(** [deleteRow]. *)
Definition deleteRow (s : State) : State :=
  match range s with
  | Some r =>
      if (row (start r) =? 0) || (length (data s) <=? 2)%nat then s
      else
        s |> setData (filterIndexed
                        (fun idx _ => negb (Z.of_nat idx =? row (start r))) O)
          |> setRange None
  | None => s
  end.

Definition clearSelection (s : State) : State := s |> setRange None.

(** The [keydown] handler, with [mod] for [e.metaKey || e.ctrlKey]; [now] is
    the time [enrich] reads. [data[0].length] throws when there is no header
    row, after which nothing has changed. *)
Definition keydown (mod_ : bool) (eKey : string) (now : Z) (s : State) : State :=
  let key := toLowerCase eKey in
  if busy s then
    if String.eqb key "escape" then clearSelection s else s
  else if mod_ && String.eqb key "k" then addColumn s
  else if mod_ && String.eqb key "j" then addRow s
  else if mod_ && String.eqb key "enter" then
    match range s with
    | Some _ => enrich now s
    | None => s
    end
  else if mod_ && String.eqb key "backspace" then
    match range s, data s !! O with
    | Some r, Some header =>
        let isFullColumn :=
          (row (start r) =? 0)
          && (row (end_ r) =? Z.of_nat (length (data s)) - 1)
          && (column (start r) =? column (end_ r)) in
        let isFullRow :=
          (column (start r) =? 0)
          && (column (end_ r) =? Z.of_nat (length header) - 1)
          && (row (start r) =? row (end_ r))
          && (0 <? row (start r)) in
        if isFullColumn then deleteColumn s
        else if isFullRow then deleteRow s
        else s
    | _, _ => s
    end
  else if String.eqb key "escape" then clearSelection s
  else s.

(** What the user can do to the grid besides selecting and running: a key,
    or one of the two buttons, which are disabled while [busy]. *)
Inductive UiEvent :=
| KeyDown (mod_ : bool) (eKey : string) (now : Z)
| ClickAddColumn
| ClickAddRow.

Definition ui (s : State) (e : UiEvent) : State :=
  match e with
  | KeyDown mod_ eKey now => keydown mod_ eKey now s
  | ClickAddColumn => if busy s then s else addColumn s
  | ClickAddRow => if busy s then s else addRow s
  end.

(** Everything that happens to the page. *)
Inductive Action :=
| Page (e : Event)
| Ui (e : UiEvent).

Definition act (s : State) (a : Action) : State :=
  match a with
  | Page e => step s e
  | Ui e => ui s e
  end.

End Edit.

(* ===================================================================== *)
(** * What the toolbar shows                                              *)
(* ===================================================================== *)

Module View.

(** [selectionStats]: the numbers behind the badge "cells selected". *)
Record Stats := { rows : Z; cols : Z; cells : Z }.

Definition selectionStats (range : option Range) : option Stats :=
  match range with
  | Some r =>
      Some {| rows := row (end_ r) - row (start r) + 1;
              cols := column (end_ r) - column (start r) + 1;
              cells := (row (end_ r) - row (start r) + 1)
                       * (column (end_ r) - column (start r) + 1) |}
  | None => None
  end.

(** The numerator of the badge of a run in progress,
    [{initialPendingCount - pending.size} of {initialPendingCount} cells]. *)
Definition progress (s : State) : Z :=
  initialPendingCount s - Z.of_nat (size (pending s)).

End View.

(* ===================================================================== *)
(** * Concrete inputs                                                     *)
(* ===================================================================== *)

Module Sample.

Definition cell (v : string) : option Cell :=
  Some {| value := JStr v; readOnly := None; className := None |}.

(** The first rows of the grid the page starts with. *)
Definition grid : Grid :=
  [[cell "Company"; cell "Stage"; cell "Employee Count"];
   [cell "Mintlify"; cell ""; cell ""];
   [cell "Etched"; cell ""; cell ""];
   [cell "LangChain"; cell ""; cell ""]].

Definition point (r c : Z) : Point := {| row := r; column := c |}.

(** Rows 1 to 3, columns 1 and 2. *)
Definition block : Range := {| start := point 1 1; end_ := point 3 2 |}.

(** One header cell, as a click on it or [addColumn] selects. *)
Definition headerCell : Range := {| start := point 0 1; end_ := point 0 1 |}.

Definition entry (r : Z) : RunMapEntry :=
  {| entry_row := r; targetCols := [1; 2];
     targetHeaders := ["Stage"; "Employee Count"] |}.

Definition table : gmap string RunMapEntry :=
  fromEntries [("trun_a", entry 1); ("trun_b", entry 2); ("trun_c", entry 3)].

Definition closure : Run :=
  {| selectedCells := selectedCellsOf block;
     rowsPayload := rowsPayloadOf grid block;
     startTime := 0;
     run_headerIndex := headerIndex (headers grid) |}.

(** The run in flight: [block] submitted, the stream open. *)
Definition running : State :=
  exec (initial grid)
       [Select block; Enrich 0; During (Response 0 (Some ("tgrp_1", table)))].

Definition runEvent (status runId : string) (output : list (string * JSON))
  : JSON :=
  JObj ([("type", JStr "task_run.state");
         ("run", JObj [("run_id", JStr runId); ("status", JStr status)])]
        ++ output).

Definition groupStatus (active : bool) : JSON :=
  JObj [("type", JStr "task_group_status");
        ("status", JObj [("is_active", JBool active)])].

(** Rows 1 to 3, all three columns. *)
Definition wide : Range := {| start := point 1 0; end_ := point 3 2 |}.

(** A run that the user cancels: the click and the return of the DELETE. *)
Definition cancelledRun : list Event :=
  [Select block; Enrich 0; During (Response 0 (Some ("tgrp_1", table)));
   During Cancel; During CancelResume].

(** A second run, started after the first was cancelled. *)
Definition secondRun : list Event :=
  [Select wide; Enrich 60000; During (Response 1 (Some ("tgrp_2", table)))].

(** The texts of three event payloads, and [JSON.parse] on them. A double
    quote is character 34. *)
Definition quote : string := String (ascii_of_nat 34) EmptyString.

Definition str (s : string) : string := quote +:+ s +:+ quote.

Definition groupText (active : string) : string :=
  "{" +:+ str "type" +:+ ":" +:+ str "task_group_status" +:+ ","
  +:+ str "status" +:+ ":{" +:+ str "is_active" +:+ ":" +:+ active +:+ "}}".

Definition runText (status runId : string) : string :=
  "{" +:+ str "type" +:+ ":" +:+ str "task_run.state" +:+ ","
  +:+ str "run" +:+ ":{" +:+ str "run_id" +:+ ":" +:+ str runId +:+ ","
  +:+ str "status" +:+ ":" +:+ str status +:+ "}}".

Definition parse (text : string) : option JSON :=
  if String.eqb text (groupText "false") then Some (groupStatus false)
  else if String.eqb text (runText "failed" "trun_c")
  then Some (runEvent "failed" "trun_c" [])
  else if String.eqb text (runText "completed" "trun_a")
  then Some (runEvent "completed" "trun_a" [])
  else None.

(** The result of the run [trun_a], as [fetchRunResult] returns it; every
    other fetch fails. *)
Definition result : JSON :=
  JObj [("output", JObj [("content", JObj [("Stage", JStr "Series B")])])].

Definition fetch (n : nat) (runId : string) : JSON :=
  if String.eqb runId "trun_a" then result else JNull.

(** A fetch that always fails. *)
Definition noFetch (n : nat) (runId : string) : JSON := JNull.

(** The text of the completed event of [trun_a] with the fetched output,
    and [JSON.stringify] on the one object the sample serialises, which is
    that event. *)
Definition enrichedText : string :=
  "{" +:+ str "type" +:+ ":" +:+ str "task_run.state" +:+ ","
  +:+ str "run" +:+ ":{" +:+ str "run_id" +:+ ":" +:+ str "trun_a" +:+ ","
  +:+ str "status" +:+ ":" +:+ str "completed" +:+ "},"
  +:+ str "output" +:+ ":{" +:+ str "content" +:+ ":{" +:+ str "Stage"
  +:+ ":" +:+ str "Series B" +:+ "}}}".

Definition stringify (v : JSON) : string := enrichedText.

Definition frame (event payload : string) : string :=
  "event: " +:+ event +:+ nl +:+ "data: " +:+ payload.

Definition inactiveFrame : string := frame "task_group_status" (groupText "false").
Definition failedFrame : string := frame "task_run.state" (runText "failed" "trun_c").
Definition completedFrame : string :=
  frame "task_run.state" (runText "completed" "trun_a").

(** One read that holds the group-inactive frame and, behind it, the frame
    of a failed run. *)
Definition lastRead : string :=
  inactiveFrame +:+ nl +:+ nl +:+ failedFrame +:+ nl +:+ nl.

Definition connected (n : nat) : bool := true.

(** Two completed events of [trun_a] without output that the page's
    handler accepts and the transport's test does not: one in a frame
    without an event line, one whose payload type is [task_run]. *)
Definition unnamedFrame : string := "data: " +:+ runText "completed" "trun_a".

Definition legacyText : string :=
  "{" +:+ str "type" +:+ ":" +:+ str "task_run" +:+ ","
  +:+ str "run" +:+ ":{" +:+ str "run_id" +:+ ":" +:+ str "trun_a" +:+ ","
  +:+ str "status" +:+ ":" +:+ str "completed" +:+ "}}".

Definition legacyEvent : JSON :=
  JObj [("type", JStr "task_run");
        ("run", JObj [("run_id", JStr "trun_a"); ("status", JStr "completed")])].

Definition parseLegacy (text : string) : option JSON :=
  if String.eqb text legacyText then Some legacyEvent else parse text.

Definition legacyFrame : string := frame "task_run.state" legacyText.

(** A consumer that leaves after the keep-alive comment. *)
Definition gone (n : nat) : bool := (n <? 1)%nat.

(** The output of [result], and a [JSON.parse] that also reads the
    augmented event back. *)
Definition output : JSON := JObj [("content", JObj [("Stage", JStr "Series B")])].

Definition parseBack (text : string) : option JSON :=
  if String.eqb text enrichedText
  then Some (runEvent "completed" "trun_a" [("output", output)])
  else parse text.

(** Two reads that cut a frame in two: the first completes the frame of a
    failed run and begins the frame of a completed one. *)
Definition firstRead : string :=
  failedFrame +:+ nl +:+ nl +:+ "event: task_run.state".

Definition secondRead : string :=
  nl +:+ "data: " +:+ runText "completed" "trun_a" +:+ nl +:+ nl.

(** The rows of the request body as the server reads them: the numbers as
    they are, a header that is [undefined] as the empty string. *)
Definition wire (j : JobSpec) : Route.Row :=
  {| Route.row := job_row j; Route.context := JNull;
     Route.targetHeaders := default "" <$> job_targetHeaders j;
     Route.targetCols := job_targetCols j |}.

(** The frame of the failed run, delivered in two reads. *)
Definition cutFrame : list string :=
  ["event: task_run.state";
   nl +:+ "data: " +:+ runText "failed" "trun_c" +:+ nl +:+ nl].

Definition serverRow (r : Z) : Route.Row :=
  {| Route.row := r; Route.context := JObj [("Company", JStr "Mintlify")];
     Route.targetHeaders := ["Stage"; "Employee Count"];
     Route.targetCols := [1; 2] |}.

End Sample.

(* ===================================================================== *)
(** * Vocabulary of the statements                                        *)
(* ===================================================================== *)

(** The keys of the cells a job is to fill. *)
Definition targetKeys (meta : RunMapEntry) : list string :=
  (fun col => cellKey {| row := entry_row meta; column := col |})
    <$> targetCols meta.

(** No run in flight: what [initial] is, and what every run leaves behind
    when nothing of an earlier run is still armed. *)
Definition quiescent (s : State) : Prop :=
  busy s = false /\ pending s = ∅ /\ awaiting s = ∅
  /\ openStreams s = ∅ /\ timers s = ∅.

(** The fields a job event leaves alone. *)
Definition sameRun (s s' : State) : Prop :=
  busy s' = busy s /\ runs s' = runs s /\ awaiting s' = awaiting s
  /\ openStreams s' = openStreams s /\ timers s' = timers s.

(** What holds of the state throughout the run [rid] whose closure is [cl],
    when no other run has anything armed. *)
Definition inRun (rid : nat) (cl : Run) (s : State) : Prop :=
  runs s !! rid = Some cl
  /\ awaiting s ⊆ {[rid]} /\ openStreams s ⊆ {[rid]} /\ timers s ⊆ {[rid]}
  /\ pending s ⊆ list_to_set (cellKey <$> selectedCells cl)
  /\ (busy s = false -> pending s = ∅).

(** Every character of [s] passes the test [p]. *)
Fixpoint allChars (p : ascii -> bool) (s : string) : bool :=
  match s with
  | EmptyString => true
  | String c rest => p c && allChars p rest
  end.

(** The element at an index of a row, [undefined] for a hole and past the
    end. *)
Definition cellAt (cells : list (option Cell)) (col : nat) : option Cell :=
  mjoin (cells !! col).

(** The column an output entry is written to: what [resolve] gives when it
    is a column of the header row, the test of the last [if] of the loop. *)
Definition hitOf (hi : gmap string Z) (headerLen : nat)
    (tHeaders : list string) (tCols : list Z) (kv : string * JSON)
  : option Z :=
  match resolve hi tHeaders tCols kv.1 with
  | Some col =>
      if (0 <=? col) && (col <? Z.of_nat headerLen) then Some col else None
  | None => None
  end.


(** Every event but the click on the cancel button. *)
Definition cancelFree (e : Event) : bool :=
  match e with
  | During Cancel => false
  | _ => true
  end.

(** The run [rid] is in flight and nothing else is: either its POST is
    awaited and it has neither stream nor timeout yet, or its stream is open
    and its timeout armed. *)
Definition inFlight (rid : nat) (cl : Run) (s : State) : Prop :=
  runs s !! rid = Some cl
  /\ pending s ⊆ list_to_set (cellKey <$> selectedCells cl)
  /\ ((awaiting s = {[rid]} /\ openStreams s = ∅ /\ timers s = ∅)
      \/ (awaiting s = ∅ /\ openStreams s = {[rid]} /\ timers s = {[rid]})).

(** What holds between the events of a session in which nobody cancels. *)
Definition orderly (s : State) : Prop :=
  cancelling s = O
  /\ ((busy s = false /\ quiescent s)
      \/ (busy s = true /\ exists rid cl, inFlight rid cl s)).

(** A grid as the page builds it: at least a header row and a data row,
    the header row not empty, every row as wide as the header row, and no
    holes. *)
Definition wellShaped (d : Grid) : Prop :=
  (2 <= length d)%nat
  /\ exists header,
       d !! O = Some header /\ header <> []
       /\ Forall (fun cells => length cells = length header
                               /\ Forall is_Some cells) d.

(** The five paths that return [busy] to [false], each with the guard
    under which it takes effect: a submission that fails, a message on the
    open stream that says the group is no longer active, a stream error, the
    timeout, and the return of the DELETE of a cancellation. *)
Definition endsRun (s : State) (e : RunEvent) : bool :=
  match e with
  | Response rid None => bool_decide (rid ∈ awaiting s)
  | Response _ (Some _) => false
  | Message rid _ obj => bool_decide (rid ∈ openStreams s) && groupInactive obj
  | StreamError rid => bool_decide (rid ∈ openStreams s)
  | Timeout rid => bool_decide (rid ∈ timers s)
  | Cancel => false
  | CancelResume => negb (cancelling s =? 0)%nat
  end.


(** A character of ASCII text. *)
Definition isAscii (c : ascii) : bool := (code c <? 128)%nat.

(** Any character but the colon of a cell key. *)
Definition notColon (c : ascii) : bool := negb (Ascii.eqb c ":").

(** [eventStr.trim()] is not empty. *)
Definition nonblank (eventStr : string) : bool :=
  negb (String.eqb (trim eventStr) "").

(** The frames a text completes: its pieces before the last blank line.
    What follows the last blank line stays in the buffer. *)
Definition completeFrames (text : string) : list string :=
  removelast (split (nl +:+ nl) text).

(** The text a sequence of reads delivers. *)
Definition textOf (texts : list string) : string :=
  foldr String.append "" texts.

(** Any character but the line break. *)
Definition notNl (c : ascii) : bool := negb (Ascii.eqb c (ascii_of_nat 10)).

(** The payload of the event of a failed run. *)
Definition failedEvent (runId : string) : JSON :=
  JObj [("type", JStr "task_run.state");
        ("run", JObj [("run_id", JStr runId); ("status", JStr "failed")])].



(** What a stream message of the run [rid] finds: the closure of the run,
    its stream open, and the table its listeners hold. *)
Definition streaming (rid : nat) (cl : Run) (table : gmap string RunMapEntry)
    (s : State) : Prop :=
  runs s !! rid = Some cl /\ rid ∈ openStreams s
  /\ run_maps s !! rid = Some table.

(* ===================================================================== *)
(** * Pending set and state: basic facts                                  *)
(* ===================================================================== *)

Section PendingFacts.

Implicit Types (prev : gset string) (keys : list string) (cells : list Point).

Lemma foldl_delete keys : forall prev,
  foldl (fun next k => next ∖ {[k]}) prev keys = prev ∖ list_to_set keys.
Proof.
  induction keys as [|k keys IH]; intros prev; simpl.
  - set_solver.
  - rewrite IH. set_solver.
Qed.

Lemma deleteKeys_difference keys prev :
  deleteKeys keys prev = prev ∖ list_to_set keys.
Proof.
  unfold deleteKeys. destruct (decide (size prev = O)) as [Hz|_].
  - apply size_empty_inv in Hz. set_solver.
  - apply foldl_delete.
Qed.

Lemma clearPending_difference cells prev :
  clearPending cells prev = prev ∖ list_to_set (cellKey <$> cells).
Proof. apply deleteKeys_difference. Qed.

Lemma addPending_union cells : forall prev,
  addPending cells prev = list_to_set (cellKey <$> cells) ∪ prev.
Proof.
  unfold addPending.
  induction cells as [|p cells IH]; intros prev; simpl.
  - set_solver.
  - rewrite IH. set_solver.
Qed.

Lemma deleteKeys_subseteq keys prev : deleteKeys keys prev ⊆ prev.
Proof. rewrite deleteKeys_difference. set_solver. Qed.

Lemma clearPending_subseteq cells prev : clearPending cells prev ⊆ prev.
Proof. apply deleteKeys_subseteq. Qed.

End PendingFacts.

(** A state is determined by its fields. *)
Lemma State_eta (s : State) :
  {| data := data s; range := range s; pending := pending s; busy := busy s;
     successCount := successCount s; errorCount := errorCount s;
     lastEnrichTime := lastEnrichTime s;
     initialPendingCount := initialPendingCount s;
     currentTaskGroupId := currentTaskGroupId s; esRef := esRef s;
     runs := runs s; awaiting := awaiting s; run_maps := run_maps s;
     openStreams := openStreams s; timers := timers s;
     cancelling := cancelling s |} = s.
Proof. destruct s; reflexivity. Qed.

(** [x === "a"] excludes [x === "b"] for distinct literals. *)
Lemma is_str_excl (v : option JSON) (a b : string) :
  is_str v a = true -> a <> b -> is_str v b = false.
Proof.
  destruct v as [[]|]; simpl; try discriminate.
  intros Ha Hne. apply String.eqb_eq in Ha. subst.
  apply String.eqb_neq. exact Hne.
Qed.

(* ===================================================================== *)
(** * [Object.fromEntries]                                                *)
(* ===================================================================== *)

Section FromEntries.

Context {V : Type}.
Implicit Types (kvs : list (string * V)) (m : gmap string V).

Lemma fromEntries_snoc kvs k v :
  fromEntries (kvs ++ [(k, v)]) = <[k := v]> (fromEntries kvs).
Proof. unfold fromEntries. by rewrite foldl_app. Qed.

Lemma fromEntries_dom kvs :
  dom (fromEntries kvs) = list_to_set (fst <$> kvs).
Proof.
  induction kvs as [|[k v] kvs IH] using rev_ind.
  - unfold fromEntries; simpl. by rewrite dom_empty_L.
  - rewrite fromEntries_snoc, dom_insert_L, IH, fmap_app, list_to_set_app_L.
    simpl. set_solver.
Qed.

End FromEntries.

(* ===================================================================== *)
(** * Loops and indexed dictionaries                                      *)
(* ===================================================================== *)

Lemma for_go_push {A} (f : Z -> A) (n : nat) : forall (i : Z) (acc : list A),
  for_go n i (fun j xs => xs ++ [f j]) acc = acc ++ (f <$> seqZ i (Z.of_nat n)).
Proof.
  induction n as [|n IH]; intros i acc.
  - simpl. by rewrite app_nil_r.
  - cbn [for_go]. rewrite IH.
    rewrite (seqZ_cons i (Z.of_nat (S n))) by lia.
    replace (Z.pred (Z.of_nat (S n))) with (Z.of_nat n) by lia.
    rewrite fmap_cons, <- app_assoc. reflexivity.
Qed.

Lemma for_range_push {A} (f : Z -> A) (lo hi : Z) (acc : list A) :
  for_range lo hi (fun j xs => xs ++ [f j]) acc
  = acc ++ (f <$> seqZ lo (hi - lo + 1)).
Proof.
  unfold for_range. rewrite for_go_push.
  destruct (Z_le_gt_dec 0 (hi - lo + 1)) as [Hle|Hgt].
  - by rewrite Z2Nat.id.
  - replace (Z.to_nat (hi - lo + 1)) with O by lia.
    rewrite (seqZ_nil lo (hi - lo + 1)) by lia. reflexivity.
Qed.

Section IndexedEntries.

Context {A V : Type} (key : nat -> A -> string) (val : nat -> A -> V).

(** The entries [xs.map((x, j) => [key(j, x), val(j, x)])], one element
    more. *)
Lemma fromEntries_imap_snoc (xs : list A) (x : A) :
  fromEntries (imap (fun j y => (key j y, val j y)) (xs ++ [x]))
  = <[key (length xs) x := val (length xs) x]>
      (fromEntries (imap (fun j y => (key j y, val j y)) xs)).
Proof.
  rewrite imap_app. simpl. rewrite Nat.add_0_r. apply fromEntries_snoc.
Qed.

(** The last element with a key decides what the dictionary holds for it. *)
Lemma fromEntries_imap_last (xs : list A) (i : nat) (x : A) :
  xs !! i = Some x ->
  (forall j y, (i < j)%nat -> xs !! j = Some y -> key j y <> key i x) ->
  fromEntries (imap (fun j y => (key j y, val j y)) xs) !! key i x
  = Some (val i x).
Proof.
  revert i x. induction xs as [|z xs IH] using rev_ind; intros i x Hi Hlast.
  - discriminate.
  - rewrite fromEntries_imap_snoc.
    destruct (decide (i = length xs)) as [->|Hne].
    + rewrite lookup_app_r, Nat.sub_diag in Hi by lia.
      injection Hi as ->. apply lookup_insert_eq.
    + assert (i < length xs)%nat as Hlt.
      { apply lookup_lt_Some in Hi. rewrite length_app in Hi. simpl in Hi. lia. }
      rewrite lookup_app_l in Hi by exact Hlt.
      rewrite lookup_insert_ne.
      * apply IH; [exact Hi|]. intros j y Hj Hy.
        apply (Hlast j y Hj). rewrite lookup_app_l; [exact Hy|].
        by eapply lookup_lt_Some.
      * apply (Hlast (length xs) z Hlt).
        by rewrite lookup_app_r, Nat.sub_diag by lia.
Qed.



End IndexedEntries.

(* ===================================================================== *)
(** * [applyRowResult] on a payload that is not an object (C10)           *)
(* ===================================================================== *)

Lemma applyRowResult_not_object hi r content tHeaders tCols s :
  is_plain_object content = false ->
  applyRowResult hi r content tHeaders tCols s = s.
Proof.
  intros Hobj. unfold applyRowResult. rewrite Hobj. simpl.
  destruct r as [i|]; simpl.
  - destruct (at_ (data s) i) as [cells|] eqn:Hrow; simpl;
      unfold setSuccessCount, setPending, setData; simpl.
    + unfold at_ in Hrow. destruct (i <? 0); [discriminate|].
      rewrite (list_insert_id _ _ _ Hrow). apply State_eta.
    + apply State_eta.
  - unfold setSuccessCount, setPending; simpl. apply State_eta.
Qed.

(** C10. A completed-job event whose payload ([output.content || data.output],
    the value handed to [applyRowResult]) is not a plain object (null, a
    string, a number, a boolean or an array) changes nothing: the handler
    returns the state it was given, so no cell value is written, no cell
    leaves the pending set and [successCount] keeps its value. The same
    holds of [applyRowResult] called directly with such a payload. *)
Theorem C10_non_object_payload_is_empty :
  forall (cl : Run) (run_map : gmap string RunMapEntry) (rid : nat) (now : Z)
         (obj : JSON) (s : State),
    is_str (get (Some obj) "type") "task_run.state"
    || is_str (get (Some obj) "type") "task_run" = true ->
    is_str (get (get (Some obj) "run") "status") "completed" = true ->
    (forall out, outOf (get (Some obj) "output") = Some out ->
                 is_plain_object out = false) ->
    handleEventData cl run_map rid now obj s = s
    /\ (forall hi r out tHeaders tCols,
          is_plain_object out = false ->
          applyRowResult hi r out tHeaders tCols s = s).
Proof.
  intros cl run_map rid now obj s Hty Hdone Hout. split.
  - unfold handleEventData. cbv zeta. rewrite Hty, Hdone.
    destruct (truthy_opt (get (Some obj) "output")) eqn:Htr; cbn [andb].
    + destruct (outOf (get (Some obj) "output")) as [out|] eqn:Ho;
        [|reflexivity].
      specialize (Hout out eq_refl).
      destruct (lookupRun run_map _); try reflexivity;
        apply applyRowResult_not_object; exact Hout.
    + rewrite (is_str_excl _ "completed" "failed" Hdone); [reflexivity|].
      discriminate.
  - intros. apply applyRowResult_not_object. assumption.
Qed.

(** The payloads C10 names, on the run in flight: a string, a number, an
    array, and [output.content] holding a string. *)
Lemma C10_witness :
  let ev := Sample.runEvent "completed" "trun_a" [("output", JStr "n/a")] in
  handleEventData Sample.closure Sample.table 0 5 ev Sample.running
  = Sample.running
  /\ (forall hi r out tHeaders tCols,
        is_plain_object out = false ->
        applyRowResult hi r out tHeaders tCols Sample.running = Sample.running).
Proof.
  intros ev.
  apply (C10_non_object_payload_is_empty Sample.closure Sample.table 0 5 ev
           Sample.running).
  - reflexivity.
  - reflexivity.
  - intros out Hout. vm_compute in Hout. injection Hout as <-. reflexivity.
Defined.

(* ===================================================================== *)
(** * Failed jobs (C1)                                                    *)
(* ===================================================================== *)

Lemma foldl_snoc_map {A B} (f : A -> B) (xs : list A) : forall acc,
  foldl (fun ys x => ys ++ [f x]) acc xs = acc ++ (f <$> xs).
Proof.
  induction xs as [|x xs IH]; intros acc; simpl.
  - by rewrite app_nil_r.
  - rewrite IH. by rewrite <- app_assoc.
Qed.




(* ===================================================================== *)
(** * The output schema (C9)                                              *)
(* ===================================================================== *)

(** C9. The output schema of every job is the closed object schema of its
    own target headers: the schema of the i-th input is built from the
    i-th row's [targetHeaders]; its type is [object]; the keys of
    [properties] are exactly the target headers; [required] is the list of
    target headers; and [additionalProperties] is [false]. *)
Theorem C9_schema_is_closed_over_targetHeaders :
  forall (stringify2 : JSON -> string) (rows : list Route.Row) (proc : string),
    Route.output_schema <$> Route.inputs stringify2 rows proc
    = (fun r => Route.buildExplicitSchema (Route.targetHeaders r)) <$> rows
    /\ forall ths : list string,
         let schema := Route.json_schema (Route.buildExplicitSchema ths) in
         Route.schema_type schema = "object"
         /\ dom (Route.properties schema) = list_to_set ths
         /\ Route.required schema = ths
         /\ Route.additionalProperties schema = false.
Proof.
  intros stringify2 rows proc. split.
  - unfold Route.inputs. rewrite fmap_imap. apply imap_const.
  - intros ths schema. subst schema. simpl. repeat split.
    rewrite fromEntries_dom. f_equal.
    change (map ?f ths) with (f <$> ths).
    rewrite <- list_fmap_compose. apply list_fmap_id.
Qed.

(* ===================================================================== *)
(** * The correlation table built by [POST] (C2)                          *)
(* ===================================================================== *)

(** [filter(Boolean)] removes nothing, so [run_map] has one property per
    returned id, usable or not. *)
Lemma run_map_entries (run_ids : list (option string)) (rows : list Route.Row) :
  Route.run_map run_ids rows
  = fromEntries
      (imap (fun i rid => ((Route.keyValue (Route.entryFor rows i rid)).1,
                           (Route.keyValue (Route.entryFor rows i rid)).2))
            run_ids).
Proof.
  unfold Route.run_map. f_equal.
  assert (Hkeep : forall es : list Route.EntryArray,
             filter (fun e => Is_true (Route.Boolean e)) es = es).
  { induction es as [|e es IH]; [reflexivity|].
    rewrite filter_cons_True by (by destruct e). by rewrite IH. }
  rewrite Hkeep. change (map ?f ?l) with (f <$> l). rewrite fmap_imap.
  apply imap_ext. intros i rid _. cbn.
  by destruct (Route.keyValue (Route.entryFor rows i rid)).
Qed.

(** What does hold of the table the client receives: an id that is not
    empty, has a row at its position, is not returned again later and is not
    the string "undefined" is a key, and it holds the coordinates of that
    row. *)
Lemma run_map_sent_usable (run_ids : list (option string))
    (rows : list Route.Row) (i : nat) (id : string) (r : Route.Row) :
  run_ids !! i = Some (Some id) ->
  id <> "" ->
  rows !! i = Some r ->
  (forall j, (i < j)%nat -> run_ids !! j <> Some (Some id)) ->
  id <> "undefined" ->
  Route.run_map_sent run_ids rows !! id
  = Some {| entry_row := Route.row r;
            targetCols := Route.targetCols r;
            targetHeaders := Route.targetHeaders r |}.
Proof.
  intros Hid Hne Hrow Hlater Hundef.
  assert (Hentry : Route.entryFor rows i (Some id)
                   = Route.Pair id {| entry_row := Route.row r;
                                      targetCols := Route.targetCols r;
                                      targetHeaders := Route.targetHeaders r |}).
  { unfold Route.entryFor. rewrite Hrow.
    by rewrite (proj2 (String.eqb_neq id "") Hne). }
  unfold Route.run_map_sent. rewrite lookup_omap, run_map_entries.
  pose proof (fromEntries_imap_last
                (fun j rid => (Route.keyValue (Route.entryFor rows j rid)).1)
                (fun j rid => (Route.keyValue (Route.entryFor rows j rid)).2)
                run_ids i (Some id) Hid) as Hlast.
  cbn beta in Hlast. rewrite Hentry in Hlast. cbn [Route.keyValue fst snd] in Hlast.
  rewrite Hlast; [reflexivity|].
  intros j rid Hj Hrid. unfold Route.entryFor.
  destruct rid as [id'|]; [|by cbn].
  destruct (rows !! j); [|by cbn].
  destruct (String.eqb id' "") eqn:Hempty; [by cbn|]. cbn.
  intros ->. exact (Hlater j Hj Hrid).
Qed.

(** C2, on the code. An id that is empty, [null], or has no row at its
    position is not dropped from [run_map]: the empty array that stands for
    it passes [filter(Boolean)] and [Object.fromEntries] turns it into the key
    "undefined" holding [undefined]. Serialisation hides that key, but not
    what it overwrote: an entry under the id "undefined" that precedes a
    dropped id is lost. *)
Theorem C2_dropped_id_inserts_undefined_key :
  Route.run_map [Some ""] [Sample.serverRow 1] !! "undefined" = Some None
  /\ Route.run_map [None] [Sample.serverRow 1] !! "undefined" = Some None
  /\ Route.run_map [Some "trun_a"; Some "trun_b"] [Sample.serverRow 1]
       !! "undefined" = Some None
  /\ Route.run_map_sent [Some "undefined"; Some ""]
       [Sample.serverRow 1; Sample.serverRow 2] = ∅.
Proof. repeat split; vm_compute; reflexivity. Qed.

(* ===================================================================== *)
(** * Termination paths (C6)                                              *)
(* ===================================================================== *)

(** The paths that do exclude the others: after natural completion and
    after a stream error the run has neither an open stream nor an armed
    timeout, so nothing of it can fire again. *)
Lemma complete_disarms (cl : Run) (rid : nat) (now : Z) (s : State) :
  (rid ∉ openStreams (complete cl rid now s))
  /\ (rid ∉ timers (complete cl rid now s)).
Proof. unfold complete. cbn. set_solver. Qed.

Lemma onerror_disarms (cl : Run) (rid : nat) (s : State) :
  (rid ∉ openStreams (onerror cl rid s)) /\ (rid ∉ timers (onerror cl rid s)).
Proof. unfold onerror. cbn. set_solver. Qed.

(** A cancellation closes the stream the ref holds and leaves every timeout
    as it was. *)
Lemma cancelResume_keeps_timers (s : State) :
  timers (cancelResume s) = timers s.
Proof.
  unfold cancelResume. destruct (cancelling s) as [|n]; [reflexivity|].
  cbv zeta. change (esRef (setCancelling n s)) with (esRef s).
  destruct (esRef s); reflexivity.
Qed.

(** C6, on the code. [cancelEnrichment] does not clear the timeout that
    [enrich] armed. After a cancellation the timeout of the cancelled run is
    still armed and fires: two termination paths for one run. When it fires
    during a second run it clears [busy] while that run's stream is open and
    cells of it are pending. A group-inactive event that arrives while the
    DELETE of a cancellation is awaited is a second way to two paths. *)
Theorem C6_timeout_survives_cancellation :
  elements (timers (exec (initial Sample.grid) Sample.cancelledRun)) = [O]
  /\ firings (initial Sample.grid) (Sample.cancelledRun ++ [During (Timeout 0)])
     = [(O, Cancellation); (O, TimeoutExpiry)]
  /\ (let s := exec (initial Sample.grid)
                 (Sample.cancelledRun ++ Sample.secondRun
                  ++ [During (Timeout 0)]) in
      busy s = false
      /\ elements (openStreams s) = [1%nat]
      /\ size (pending s) = 3%nat)
  /\ firings (initial Sample.grid)
       [Select Sample.block; Enrich 0;
        During (Response 0 (Some ("tgrp_1", Sample.table)));
        During Cancel;
        During (Message 0 9 (Sample.groupStatus false));
        During CancelResume]
     = [(O, Cancellation); (O, NaturalCompletion)].
Proof. repeat split; vm_compute; reflexivity. Qed.

(* ===================================================================== *)
(** * The Job Descriptor Builder (C3)                                     *)
(* ===================================================================== *)

Lemma rowsPayloadOf_rows (data : Grid) (r : Range) :
  rowsPayloadOf data r
  = jobSpecOf data r <$> seqZ (startRowOf r) (endRowOf r - startRowOf r + 1).
Proof. unfold rowsPayloadOf. by rewrite for_range_push. Qed.

Lemma tColsOf_seqZ (r : Range) :
  tColsOf r
  = seqZ (column (start r)) (column (end_ r) - column (start r) + 1).
Proof.
  unfold tColsOf, seqZ. apply list_fmap_ext. intros _ i _. lia.
Qed.




(* ===================================================================== *)
(** * Resolving an output key to a column (C4)                            *)
(* ===================================================================== *)

Lemma headerIndex_last (hs : list string) (i : nat) (h : string) :
  hs !! i = Some h ->
  (forall j h', (i < j)%nat -> hs !! j = Some h' -> norm h' <> norm h) ->
  headerIndex hs !! norm h = Some (Z.of_nat i).
Proof.
  intros Hi Hlast.
  exact (fromEntries_imap_last (fun _ => norm) (fun j _ => Z.of_nat j)
           hs i h Hi Hlast).
Qed.





(* ===================================================================== *)
(** * The pending set within a run (C5)                                   *)
(* ===================================================================== *)

Lemma selectedCellsOf_rows (r : Range) :
  selectedCellsOf r
  = mjoin ((fun i =>
              (fun c => {| row := i; column := c |})
                <$> seqZ (column (start r))
                         (column (end_ r) - column (start r) + 1))
             <$> seqZ (startRowOf r) (endRowOf r - startRowOf r + 1)).
Proof.
  unfold selectedCellsOf, for_range at 1.
  set (g := fun i : Z =>
              (fun c => {| row := i; column := c |})
                <$> seqZ (column (start r))
                         (column (end_ r) - column (start r) + 1)).
  assert (Hgo : forall n i acc,
             for_go n i
               (fun i cells =>
                  for_range (column (start r)) (column (end_ r))
                    (fun c cells => cells ++ [{| row := i; column := c |}])
                    cells) acc
             = acc ++ mjoin (g <$> seqZ i (Z.of_nat n))).
  { induction n as [|n IH]; intros i acc.
    - simpl. by rewrite app_nil_r.
    - cbn [for_go]. rewrite IH, for_range_push.
      rewrite (seqZ_cons i (Z.of_nat (S n))) by lia.
      replace (Z.pred (Z.of_nat (S n))) with (Z.of_nat n) by lia.
      rewrite fmap_cons. cbn [mjoin list_join]. by rewrite <- app_assoc. }
  rewrite Hgo. simpl.
  destruct (Z_le_gt_dec 0 (endRowOf r - startRowOf r + 1)) as [Hle|Hgt].
  - by rewrite Z2Nat.id.
  - replace (Z.to_nat (endRowOf r - startRowOf r + 1)) with O by lia.
    by rewrite (seqZ_nil _ (endRowOf r - startRowOf r + 1)) by lia.
Qed.

Lemma selectedCellsOf_elem (r : Range) (i c : Z) :
  startRowOf r <= i <= endRowOf r ->
  column (start r) <= c <= column (end_ r) ->
  {| row := i; column := c |} ∈ selectedCellsOf r.
Proof.
  intros Hi Hc. rewrite selectedCellsOf_rows.
  apply list_elem_of_join. eexists. split.
  2:{ apply list_elem_of_fmap. exists i. split; [reflexivity|].
      apply elem_of_seqZ. lia. }
  apply list_elem_of_fmap. exists c. split; [reflexivity|].
  apply elem_of_seqZ. lia.
Qed.

Lemma applyEntry_pending hi headerLen r tHeaders tCols acc kv :
  a_pending (applyEntry hi headerLen r tHeaders tCols acc kv) ⊆ a_pending acc.
Proof.
  unfold applyEntry. destruct (resolve hi tHeaders tCols kv.1) as [col|];
    [|reflexivity].
  destruct ((0 <=? col) && (col <? Z.of_nat headerLen)); [|reflexivity].
  cbn. apply deleteKeys_subseteq.
Qed.

Lemma foldl_applyEntry_pending hi headerLen r tHeaders tCols obj : forall acc,
  a_pending (foldl (applyEntry hi headerLen r tHeaders tCols) acc obj)
  ⊆ a_pending acc.
Proof.
  induction obj as [|kv obj IH]; intros acc; simpl; [reflexivity|].
  etrans; [apply IH|]. apply applyEntry_pending.
Qed.

Lemma applyRowResult_run hi r content tHeaders tCols s :
  sameRun s (applyRowResult hi r content tHeaders tCols s)
  /\ pending (applyRowResult hi r content tHeaders tCols s) ⊆ pending s.
Proof.
  unfold applyRowResult, sameRun. cbv zeta.
  set (done := foldl _ _ _).
  assert (Hp : a_pending done ⊆ pending s).
  { subst done. etrans; [apply foldl_applyEntry_pending|]. reflexivity. }
  destruct r as [i|]; [destruct (Some i ≫= at_ (data s))|]; cbn;
    repeat split; exact Hp.
Qed.

Lemma handleEventData_job cl run_map rid now obj s :
  groupInactive obj = false ->
  sameRun s (handleEventData cl run_map rid now obj s)
  /\ pending (handleEventData cl run_map rid now obj s) ⊆ pending s.
Proof.
  intros Hgroup. unfold handleEventData. cbv zeta.
  assert (Hsame : sameRun s s /\ pending s ⊆ pending s)
    by (unfold sameRun; repeat split; reflexivity).
  destruct (is_str (get (Some obj) "type") "task_run.state"
            || is_str (get (Some obj) "type") "task_run").
  - destruct (is_str _ "completed" && _).
    + destruct (outOf _) as [out|]; [|exact Hsame].
      destruct (lookupRun run_map _); try exact Hsame;
        apply applyRowResult_run.
    + destruct (is_str _ "failed"); [|exact Hsame].
      destruct (lookupRun run_map _); unfold sameRun; cbn;
        repeat split; try reflexivity.
      apply clearPending_subseteq.
  - unfold groupInactive in Hgroup.
    destruct (is_str (get (Some obj) "type") "task_group_status");
      [|exact Hsame].
    cbn [andb] in Hgroup. rewrite Hgroup. exact Hsame.
Qed.

Lemma handleEventData_group cl run_map rid now obj s :
  groupInactive obj = true ->
  handleEventData cl run_map rid now obj s = complete cl rid now s.
Proof.
  unfold groupInactive, handleEventData. cbv zeta. intros Hgroup.
  apply andb_true_iff in Hgroup as [Hty Hfalse].
  rewrite (is_str_excl _ "task_group_status" "task_run.state" Hty)
    by discriminate.
  rewrite (is_str_excl _ "task_group_status" "task_run" Hty) by discriminate.
  cbn [orb]. by rewrite Hty, Hfalse.
Qed.

(** Every handler of a run removes from the pending set and never adds. *)
Lemma stepRun_pending_subseteq (s : State) (e : RunEvent) :
  pending (stepRun s e) ⊆ pending s.
Proof.
  destruct e as [rid resp|rid now obj|rid|rid| |]; cbn [stepRun].
  - unfold enrichResume. destruct (runs s !! rid) as [cl|]; [|reflexivity].
    destruct (bool_decide _); [|reflexivity].
    destruct resp as [[g rm]|]; cbn; [reflexivity|].
    apply clearPending_subseteq.
  - destruct (runs s !! rid) as [cl|]; [|reflexivity].
    destruct (bool_decide _); [|reflexivity].
    destruct (groupInactive obj) eqn:Hg.
    + rewrite handleEventData_group by exact Hg. cbn.
      apply clearPending_subseteq.
    + apply handleEventData_job. exact Hg.
  - destruct (runs s !! rid) as [cl|]; [|reflexivity].
    destruct (bool_decide _); [|reflexivity]. cbn.
    apply clearPending_subseteq.
  - destruct (runs s !! rid) as [cl|]; [|reflexivity].
    destruct (bool_decide _); [|reflexivity]. cbn.
    apply clearPending_subseteq.
  - unfold cancelEnrichment. destruct (cancellable s); reflexivity.
  - unfold cancelResume. destruct (cancelling s); [reflexivity|].
    cbn. destruct (esRef s); cbn; set_solver.
Qed.

Lemma clearPending_all cells prev :
  prev ⊆ list_to_set (cellKey <$> cells) -> clearPending cells prev = ∅.
Proof. rewrite clearPending_difference. set_solver. Qed.

(** The conjuncts of [inRun] after a handler that ends the run. *)
Ltac ends_run :=
  unfold inRun; cbn;
  repeat match goal with |- _ /\ _ => split end;
  first
    [ assumption
    | intros _; apply clearPending_all; assumption
    | intros _; reflexivity
    | rewrite clearPending_difference; set_solver
    | set_solver ].

Lemma stepRun_inRun (rid : nat) (cl : Run) (s : State) (e : RunEvent) :
  inRun rid cl s -> inRun rid cl (stepRun s e).
Proof.
  intros Hin. pose proof Hin as (Hcl & Haw & Hos & Hts & Hsub & Hidle).
  assert (Hrid : forall (X : gset nat) (i : nat),
             X ⊆ {[rid]} -> bool_decide (i ∈ X) = true -> i = rid).
  { intros X i HX Hi. apply bool_decide_eq_true in Hi. set_solver. }
  destruct e as [i resp|i now obj|i|i| |]; cbn [stepRun].
  - unfold enrichResume. destruct (runs s !! i) as [cl'|] eqn:Hcl';
      [|exact Hin].
    destruct (bool_decide (i ∈ awaiting s)) eqn:Hi; [|exact Hin].
    apply (Hrid _ _ Haw) in Hi. subst i. rewrite Hcl in Hcl'.
    injection Hcl' as <-. clear Hin Hrid.
    destruct resp as [[g rm]|].
    + ends_run.
    + ends_run.
  - destruct (runs s !! i) as [cl'|] eqn:Hcl'; [|exact Hin].
    destruct (bool_decide (i ∈ openStreams s)) eqn:Hi; [|exact Hin].
    apply (Hrid _ _ Hos) in Hi. subst i. rewrite Hcl in Hcl'.
    injection Hcl' as <-. clear Hin Hrid.
    destruct (groupInactive obj) eqn:Hg.
    + rewrite handleEventData_group by exact Hg. ends_run.
    + destruct (handleEventData_job cl (default ∅ (run_maps s !! rid)) rid
                  now obj s Hg) as ((Hb & Hr & Ha & Ho & Ht) & Hp).
      unfold inRun. rewrite Hb, Hr, Ha, Ho, Ht.
      repeat match goal with |- _ /\ _ => split end; try assumption.
      * etrans; [exact Hp | exact Hsub].
      * intros Hbusy. specialize (Hidle Hbusy). rewrite Hidle in Hp.
        apply set_eq. intros x. split; [apply Hp | set_solver].
  - destruct (runs s !! i) as [cl'|] eqn:Hcl'; [|exact Hin].
    destruct (bool_decide (i ∈ openStreams s)) eqn:Hi; [|exact Hin].
    apply (Hrid _ _ Hos) in Hi. subst i. rewrite Hcl in Hcl'.
    injection Hcl' as <-. clear Hin Hrid. ends_run.
  - destruct (runs s !! i) as [cl'|] eqn:Hcl'; [|exact Hin].
    destruct (bool_decide (i ∈ timers s)) eqn:Hi; [|exact Hin].
    apply (Hrid _ _ Hts) in Hi. subst i. rewrite Hcl in Hcl'.
    injection Hcl' as <-. clear Hin Hrid. ends_run.
  - unfold cancelEnrichment. destruct (cancellable s); exact Hin.
  - unfold cancelResume. destruct (cancelling s) as [|n]; [exact Hin|].
    clear Hin Hrid. cbv zeta.
    change (esRef (setCancelling n s)) with (esRef s). destruct (esRef s).
    + ends_run.
    + ends_run.
Qed.

Lemma foldl_stepRun_inRun rid cl (evs : list RunEvent) : forall s,
  inRun rid cl s -> inRun rid cl (foldl stepRun s evs).
Proof.
  induction evs as [|e evs IH]; intros s Hs; simpl; [exact Hs|].
  apply IH. by apply stepRun_inRun.
Qed.

Lemma enrich_inRun (s0 : State) (r : Range) (now : Z) :
  quiescent s0 -> range s0 = Some r ->
  exists cl,
    selectedCells cl = selectedCellsOf r
    /\ inRun (length (runs s0)) cl (enrich now s0)
    /\ pending (enrich now s0) = list_to_set (cellKey <$> selectedCellsOf r)
    /\ busy (enrich now s0) = true.
Proof.
  intros (Hbusy & Hpend & Haw & Hos & Hts) Hrange.
  unfold enrich. rewrite Hrange, Hbusy.
  exists {| selectedCells := selectedCellsOf r;
            rowsPayload := rowsPayloadOf (data s0) r;
            startTime := now;
            run_headerIndex := headerIndex (headers (data s0)) |}.
  split; [reflexivity|]. unfold inRun. cbn.
  rewrite Hpend, Haw, Hos, Hts, addPending_union.
  repeat match goal with |- _ /\ _ => split end.
  - by rewrite lookup_app_r, Nat.sub_diag by lia.
  - set_solver.
  - set_solver.
  - set_solver.
  - set_solver.
  - discriminate.
  - set_solver.
  - reflexivity.
Qed.

(** The cells [enrich] marks pending, as a set of points: rows
    [max(1, start.row)] to [max(that, end.row)], the selected columns. *)
Lemma selectedCellsOf_spec (r : Range) (p : Point) :
  p ∈ selectedCellsOf r
  <-> startRowOf r <= row p <= endRowOf r
      /\ column (start r) <= column p <= column (end_ r).
Proof.
  split.
  - rewrite selectedCellsOf_rows. intros Hp.
    apply list_elem_of_join in Hp as (cells & Hp & Hrow).
    apply list_elem_of_fmap in Hrow as (i & -> & Hi).
    apply list_elem_of_fmap in Hp as (c & -> & Hc).
    apply elem_of_seqZ in Hi. apply elem_of_seqZ in Hc. cbn. lia.
  - destruct p as [i c]. cbn. intros [Hi Hc]. by apply selectedCellsOf_elem.
Qed.

(** Each of the five paths, taken in a run, returns [busy] to [false]. *)
Lemma stepRun_ends (rid : nat) (cl : Run) (s : State) (e : RunEvent) :
  inRun rid cl s -> endsRun s e = true -> busy (stepRun s e) = false.
Proof.
  intros (Hcl & Haw & Hos & Hts & _ & _) He.
  destruct e as [i [resp|]|i now obj|i|i| |]; cbn [endsRun] in He;
    try discriminate He; cbn [stepRun].
  - apply bool_decide_eq_true in He as Hi.
    assert (i = rid) as -> by set_solver.
    unfold enrichResume. by rewrite Hcl, He.
  - apply andb_true_iff in He as [He Hg]. apply bool_decide_eq_true in He as Hi.
    assert (i = rid) as -> by set_solver.
    rewrite Hcl, He. by rewrite handleEventData_group.
  - apply bool_decide_eq_true in He as Hi.
    assert (i = rid) as -> by set_solver. by rewrite Hcl, He.
  - apply bool_decide_eq_true in He as Hi.
    assert (i = rid) as -> by set_solver. by rewrite Hcl, He.
  - unfold cancelResume. destruct (cancelling s) as [|n]; [discriminate He|].
    cbv zeta. change (esRef (setCancelling n s)) with (esRef s).
    by destruct (esRef s).
Qed.

(** C5, as the claim has it, fails twice.  By design: a selection in the
    header row is not what is seeded; the run marks the cell below the
    selected header cell and not that cell.  And through the timeout that a
    cancellation leaves armed (C6): fired during the next run, it returns
    [busy] to [false] with three cells of that run pending. *)
Lemma C5_header_row_and_stale_timeout :
  (let s1 := enrich 0 (step (initial Sample.grid) (Select Sample.headerCell)) in
   range (step (initial Sample.grid) (Select Sample.headerCell))
   = Some Sample.headerCell
   /\ elements (pending s1) = [cellKey (Sample.point 1 1)]
   /\ cellKey (Sample.point 0 1) ∉ pending s1)
  /\ (let s := exec (initial Sample.grid)
                 (Sample.cancelledRun ++ Sample.secondRun
                  ++ [During (Timeout 0)]) in
      busy (exec (initial Sample.grid)
              (Sample.cancelledRun ++ Sample.secondRun)) = true
      /\ busy s = false
      /\ size (pending s) = 3%nat
      /\ pending s <> ∅).
Proof.
  split.
  - split; [vm_compute; reflexivity|]. split; [vm_compute; reflexivity|].
    intros Hin. apply elem_of_elements in Hin. vm_compute in Hin.
    apply list_elem_of_singleton in Hin. discriminate Hin.
  - split; [vm_compute; reflexivity|]. split; [vm_compute; reflexivity|].
    split; [vm_compute; reflexivity|].
    intros Hempty. apply (f_equal size) in Hempty. vm_compute in Hempty.
    discriminate Hempty.
Qed.

(** C5, amended.  A run that starts with nothing of an earlier run
    outstanding (not busy, nothing pending, no submission awaited, no stream
    open, no timeout armed) seeds the pending set once, at submission, with
    the keys of exactly the cells of rows [max(1, start.row)] to
    [max(that, end.row)] in the selected columns; for a normalized selection
    below the header row these are the selected cells.  From then on every
    handler leaves the pending set a subset of what it was, so its size never
    grows and no cell is added again; [busy] is never [false] with a pending
    set that is not empty; and each of the five paths (failed submission,
    group-inactive message, stream error, timeout, return of the
    cancellation's DELETE), when its guard holds, returns [busy] to [false]
    with the pending set empty. *)
Theorem C5_pending_set_only_shrinks :
  forall (s0 : State) (r : Range) (now : Z) (evs : list RunEvent),
    quiescent s0 -> range s0 = Some r ->
    let s1 := enrich now s0 in
    busy s1 = true
    /\ pending s1 = list_to_set (cellKey <$> selectedCellsOf r)
    /\ (forall p : Point,
          p ∈ selectedCellsOf r
          <-> startRowOf r <= row p <= endRowOf r
              /\ column (start r) <= column p <= column (end_ r))
    /\ (forall i c,
          startRowOf r <= i <= endRowOf r ->
          column (start r) <= c <= column (end_ r) ->
          cellKey {| row := i; column := c |} ∈ pending s1)
    /\ (normalized r -> 1 <= row (start r) ->
        startRowOf r = row (start r) /\ endRowOf r = row (end_ r))
    /\ forall k : nat,
         let before := foldl stepRun s1 (take k evs) in
         let after := foldl stepRun s1 (take (S k) evs) in
         pending after ⊆ pending before
         /\ (size (pending after) <= size (pending before))%nat
         /\ (busy after = false -> pending after = ∅)
         /\ (forall e, evs !! k = Some e -> endsRun before e = true ->
               busy after = false /\ pending after = ∅).
Proof.
  intros s0 r now evs Hq Hrange s1.
  destruct (enrich_inRun s0 r now Hq Hrange) as (cl & Hcells & Hin & Hp & Hb).
  fold s1 in Hin, Hp, Hb.
  split; [exact Hb|]. split; [exact Hp|].
  split; [apply selectedCellsOf_spec|]. split.
  { intros i c Hi Hc. rewrite Hp. apply elem_of_list_to_set.
    apply list_elem_of_fmap. eexists. split; [reflexivity|].
    by apply selectedCellsOf_elem. }
  split.
  { intros ((Hr0 & Hr1) & _) Hrow. unfold endRowOf, startRowOf. lia. }
  intros k before after. subst before after.
  assert (Hsub : pending (foldl stepRun s1 (take (S k) evs))
                 ⊆ pending (foldl stepRun s1 (take k evs))).
  { destruct (evs !! k) as [e|] eqn:He.
    - rewrite (take_S_r _ _ _ He), foldl_app. simpl.
      apply stepRun_pending_subseteq.
    - apply lookup_ge_None in He.
      rewrite !take_ge by lia. reflexivity. }
  split; [exact Hsub|]. split; [by apply subseteq_size|].
  destruct (foldl_stepRun_inRun _ cl (take (S k) evs) s1 Hin)
    as (_ & _ & _ & _ & _ & Hidle).
  split; [exact Hidle|].
  intros e He Hends.
  assert (Hbusy : busy (foldl stepRun s1 (take (S k) evs)) = false).
  { rewrite (take_S_r _ _ _ He), foldl_app. cbn [foldl].
    apply (stepRun_ends (length (runs s0)) cl); [|exact Hends].
    by apply foldl_stepRun_inRun. }
  split; [exact Hbusy|by apply Hidle].
Qed.

(** The scenario of the specification: rows 1 to 3, columns 1 and 2; one job
    completes with two keys, one fails, the group goes inactive. *)
Lemma C5_witness :
  let s1 := enrich 0 (step (initial Sample.grid) (Select Sample.block)) in
  let evs :=
    [Response 0 (Some ("tgrp_1", Sample.table));
     Message 0 5 (Sample.runEvent "completed" "trun_a"
                    [("output", JObj [("content",
                        JObj [("Stage", JStr "Series B");
                              ("Employee Count", JNum 50)])])]);
     Message 0 6 (Sample.runEvent "failed" "trun_b" []);
     Message 0 9 (Sample.groupStatus false)] in
  size (pending s1) = 6%nat
  /\ (size (pending (foldl stepRun s1 (take 2 evs))) <= size (pending s1))%nat
  /\ size (pending (foldl stepRun s1 (take 3 evs))) = 2%nat
  /\ busy (foldl stepRun s1 (take 3 evs)) = true
  /\ busy (foldl stepRun s1 evs) = false
  /\ pending (foldl stepRun s1 evs) = ∅.
Proof.
  intros s1 evs.
  assert (Hq : quiescent (step (initial Sample.grid) (Select Sample.block)))
    by (repeat split; vm_compute; reflexivity).
  pose proof (C5_pending_set_only_shrinks _ Sample.block 0 evs Hq eq_refl)
    as (_ & Hseed & _ & _ & _ & Hsteps).
  split; [vm_compute; reflexivity|].
  split.
  { etrans; [exact (proj1 (proj2 (Hsteps 1%nat)))|].
    exact (proj1 (proj2 (Hsteps 0%nat))). }
  split; [vm_compute; reflexivity|].
  split; [vm_compute; reflexivity|].
  apply (proj2 (proj2 (proj2 (Hsteps 3%nat)))
           (Message 0 9 (Sample.groupStatus false)));
    vm_compute; reflexivity.
Defined.

(* ===================================================================== *)
(** * The streaming transport (C7, C8)                                    *)
(* ===================================================================== *)

Lemma assoc_set_field (k : string) (v : JSON) (fields : list (string * JSON)) :
  assoc k (set_field k v fields) = Some v.
Proof.
  induction fields as [|[k' v'] fields IH]; simpl.
  - by rewrite String.eqb_refl.
  - destruct (String.eqb k' k) eqn:Hk; simpl; rewrite Hk; [reflexivity|exact IH].
Qed.

Lemma assoc_set_field_ne (k k0 : string) (v : JSON)
    (fields : list (string * JSON)) :
  k <> k0 -> assoc k (set_field k0 v fields) = assoc k fields.
Proof.
  intros Hk. induction fields as [|[k' v'] fields IH]; simpl.
  - by rewrite (proj2 (String.eqb_neq k0 k)) by congruence.
  - destruct (String.eqb k' k0) eqn:Hk0; simpl.
    + apply String.eqb_eq in Hk0. subst k'.
      by rewrite (proj2 (String.eqb_neq k0 k)) by congruence.
    + by rewrite IH.
Qed.

Section TransportFacts.

Variable JSON_parse : string -> option JSON.
Variable JSON_stringify : JSON -> string.
Variable fetchRunResult : nat -> string -> JSON.
Variable alive : nat -> bool.

Local Abbreviation parseFrame := (Route.parseFrame JSON_parse).
Local Abbreviation processEvent :=
  (Route.processEvent JSON_parse JSON_stringify fetchRunResult alive).
Local Abbreviation processEvents :=
  (Route.processEvents JSON_parse JSON_stringify fetchRunResult alive).

Lemma groupDone_excludes_needsResult (f : Route.Frame) :
  Route.groupDone f = true -> Route.needsResult f = false.
Proof.
  unfold Route.groupDone, Route.needsResult. intros H.
  apply andb_true_iff in H as [Hty _]. apply String.eqb_eq in Hty.
  rewrite Hty. reflexivity.
Qed.

Lemma enqueue_alive (chunk : string) (t : Route.Trace) (b : bool) :
  alive (length (Route.emitted t)) = true ->
  Route.enqueueOrReturn alive chunk t b
  = Route.Next {| Route.emitted := Route.emitted t ++ [chunk];
                  Route.fetched := Route.fetched t |} b.
Proof.
  intros Halive. unfold Route.enqueueOrReturn, Route.safeEnqueue.
  by rewrite Halive.
Qed.

(** With the consumer connected, a frame that is not blank is answered by
    exactly one chunk, and [shouldExit] is raised by a group-inactive frame
    and by nothing else. *)
Lemma processEvent_connected (eventStr : string) (t : Route.Trace) (b : bool) :
  (forall n, alive n = true) ->
  exists t',
    processEvent eventStr t b
    = Route.Next t' (b || nonblank eventStr
                          && Route.groupDone (parseFrame eventStr))
    /\ length (Route.emitted t')
       = (length (Route.emitted t) + if nonblank eventStr then 1 else 0)%nat.
Proof.
  intros Halive. unfold Route.processEvent, nonblank.
  destruct (String.eqb (trim eventStr) "").
  - exists t. cbn. rewrite orb_false_r. split; [reflexivity|lia].
  - cbn [negb andb]. cbv zeta.
    destruct (Route.needsResult (parseFrame eventStr)) eqn:Hneeds.
    + assert (Hgd : Route.groupDone (parseFrame eventStr) = false).
      { destruct (Route.groupDone (parseFrame eventStr)) eqn:Hgd;
          [|reflexivity].
        apply groupDone_excludes_needsResult in Hgd. congruence. }
      rewrite Hgd, orb_false_r.
      destruct (get (Some (fetchRunResult _ _)) "output") as [output|];
        [destruct (truthy output)|];
        rewrite enqueue_alive by apply Halive;
        eexists; (split; [reflexivity|]); cbn; rewrite length_app; reflexivity.
    + destruct (Route.groupDone (parseFrame eventStr));
        rewrite enqueue_alive by apply Halive;
        eexists; (split; [by rewrite ?orb_true_r, ?orb_false_r|]); cbn;
        rewrite length_app; reflexivity.
Qed.

Lemma processEvents_connected (events : list string) :
  (forall n, alive n = true) ->
  forall (t : Route.Trace) (b : bool),
  exists t',
    processEvents events t b
    = Route.Next t'
        (b || existsb (fun e => nonblank e && Route.groupDone (parseFrame e))
                      events)
    /\ length (Route.emitted t')
       = (length (Route.emitted t) + length (filter nonblank events))%nat.
Proof.
  intros Halive. induction events as [|e events IH]; intros t b.
  - exists t. cbn. rewrite orb_false_r. split; [reflexivity|lia].
  - destruct (processEvent_connected e t b Halive) as (t1 & Hstep & Hlen1).
    destruct (IH t1 (b || nonblank e && Route.groupDone (parseFrame e)))
      as (t2 & Hrest & Hlen2).
    exists t2. cbn [Route.processEvents existsb]. rewrite Hstep, Hrest.
    split; [by rewrite orb_assoc|].
    rewrite Hlen2, Hlen1, filter_cons.
    destruct (nonblank e); cbn.
    + rewrite decide_True by exact I. cbn. lia.
    + rewrite decide_False by (intros []). lia.
Qed.



End TransportFacts.




(** C8, as the claim has it, fails on completed-job frames that the
    transport's test does not recognise.  The page's handler takes an event
    for a completed job whatever the name of its frame and with payload type
    [task_run] as well; the transport asks for event name and payload type
    [task_run.state].  A completed event without output in a frame without an
    event line, or with payload type [task_run], goes out as it came and no
    result is fetched, though the fetch would have brought the output.  And
    where the transport does fetch, the fetch holds up more than its frame:
    the frame behind a completed one is processed only from the trace that
    already holds the fetch. *)
Lemma C8_unrecognised_completed_frames_are_not_backfilled :
  (let data := Some (Route.eventData
                       (Route.parseFrame Sample.parse Sample.unnamedFrame)) in
   is_str (get data "type") "task_run.state" = true
   /\ is_str (get (get data "run") "status") "completed" = true
   /\ get (get data "run") "run_id" = Some (JStr "trun_a")
   /\ get data "output" = None
   /\ get (Some (Sample.fetch 0 "trun_a")) "output" = Some Sample.output
   /\ Route.GET Sample.parse Sample.stringify Sample.fetch Sample.connected
        true (Some "tgrp_1")
        (Some [Route.Chunk (Sample.unnamedFrame +:+ nl +:+ nl)])
      = Route.EventStream
          {| Route.emitted := [": keep-alive" +:+ nl +:+ nl;
                               Sample.unnamedFrame +:+ nl +:+ nl];
             Route.fetched := [] |}
          Route.Closed)
  /\ (let data := Some (Route.eventData
                          (Route.parseFrame Sample.parseLegacy
                             Sample.legacyFrame)) in
      is_str (get data "type") "task_run" = true
      /\ is_str (get (get data "run") "status") "completed" = true
      /\ get (get data "run") "run_id" = Some (JStr "trun_a")
      /\ get data "output" = None
      /\ Route.GET Sample.parseLegacy Sample.stringify Sample.fetch
           Sample.connected true (Some "tgrp_1")
           (Some [Route.Chunk (Sample.legacyFrame +:+ nl +:+ nl)])
         = Route.EventStream
             {| Route.emitted := [": keep-alive" +:+ nl +:+ nl;
                                  Sample.legacyFrame +:+ nl +:+ nl];
                Route.fetched := [] |}
             Route.Closed)
  /\ Route.processEvents Sample.parse Sample.stringify Sample.fetch
       Sample.connected [Sample.completedFrame; Sample.failedFrame]
       {| Route.emitted := []; Route.fetched := [] |} false
     = Route.processEvents Sample.parse Sample.stringify Sample.fetch
         Sample.connected [Sample.failedFrame]
         {| Route.emitted :=
              [Sample.frame "task_run.state" Sample.enrichedText
               +:+ nl +:+ nl];
            Route.fetched := ["trun_a"] |} false.
Proof. repeat split; vm_compute; reflexivity. Qed.

(** C8, amended. A frame that the transport recognises as a completed run
    without output (event name and payload type [task_run.state], status
    [completed], a truthy run id, no truthy [output]) costs exactly one call
    of [fetchRunResult], for that run id, and is answered by exactly one
    chunk in its place in the stream.  When the fetch brings a truthy output
    the chunk is the augmented frame: the event line, the id line when the
    frame has an id, and as data the serialised payload in which [output] is
    the fetched output and every other property is as it was.  When the fetch
    failed or brought no output the chunk is the original frame text and a
    blank line.  The fetch is awaited inside the frame loop: the frames
    behind this one are processed after it, from the trace it leaves, with
    [shouldExit] as it was. *)
Theorem C8_completed_frame_is_backfilled_once :
  forall (JSON_parse : string -> option JSON) (JSON_stringify : JSON -> string)
         (fetchRunResult : nat -> string -> JSON) (alive : nat -> bool)
         (eventStr : string) (runId : JSON) (t : Route.Trace)
         (shouldExit : bool),
    let f := Route.parseFrame JSON_parse eventStr in
    let data := Some (Route.eventData f) in
    nonblank eventStr = true ->
    Route.eventType f = "task_run.state" ->
    is_str (get data "type") "task_run.state" = true ->
    is_str (get (get data "run") "status") "completed" = true ->
    get (get data "run") "run_id" = Some runId ->
    truthy runId = true ->
    truthy_opt (get data "output") = false ->
    alive (length (Route.emitted t)) = true ->
    let result := fetchRunResult (length (Route.fetched t)) (toString runId) in
    exists chunk : string,
      Route.processEvent JSON_parse JSON_stringify fetchRunResult alive
        eventStr t shouldExit
      = Route.Next {| Route.emitted := Route.emitted t ++ [chunk];
                      Route.fetched := Route.fetched t ++ [toString runId] |}
                   shouldExit
      /\ (forall rest : list string,
            Route.processEvents JSON_parse JSON_stringify fetchRunResult alive
              (eventStr :: rest) t shouldExit
            = Route.processEvents JSON_parse JSON_stringify fetchRunResult
                alive rest
                {| Route.emitted := Route.emitted t ++ [chunk];
                   Route.fetched := Route.fetched t ++ [toString runId] |}
                shouldExit)
      /\ match get (Some result) "output" with
         | Some output =>
             if truthy output then
               exists fields' : list (string * JSON),
                 chunk = "event: task_run.state" +:+ nl
                         +:+ (if String.eqb (Route.eventId f) "" then ""
                              else "id: " +:+ Route.eventId f +:+ nl)
                         +:+ "data: " +:+ JSON_stringify (JObj fields')
                         +:+ nl +:+ nl
                 /\ assoc "output" fields' = Some output
                 /\ forall k : string,
                      k <> "output" ->
                      assoc k fields' = assoc k (entries (Route.eventData f))
             else chunk = eventStr +:+ nl +:+ nl
         | None => chunk = eventStr +:+ nl +:+ nl
         end.
Proof.
  intros JSON_parse JSON_stringify fetchRunResult alive eventStr runId t
         shouldExit f data Hnb Hev Hty Hst Hid Htruthy Hout Halive result.
  assert (Hneeds : Route.needsResult f = true).
  { unfold Route.needsResult. fold data.
    rewrite Hev, Hty, Hst, Hid, Hout. cbn. by rewrite Htruthy. }
  assert (Hstep : forall chunk,
            chunk = match get (Some result) "output" with
                    | Some output =>
                        if truthy output
                        then Route.enrichedEvent JSON_stringify f output
                        else eventStr +:+ nl +:+ nl
                    | None => eventStr +:+ nl +:+ nl
                    end ->
            Route.processEvent JSON_parse JSON_stringify fetchRunResult alive
              eventStr t shouldExit
            = Route.Next {| Route.emitted := Route.emitted t ++ [chunk];
                            Route.fetched := Route.fetched t ++ [toString runId] |}
                         shouldExit).
  { intros chunk ->. unfold Route.processEvent. unfold nonblank in Hnb.
    apply negb_true_iff in Hnb. rewrite Hnb. cbv zeta. fold f.
    rewrite Hneeds. fold data. rewrite Hid. fold result.
    destruct (get (Some result) "output") as [output|];
      [destruct (truthy output)|];
      by rewrite enqueue_alive by exact Halive. }
  eexists. split; [apply Hstep; reflexivity|]. split.
  - intros rest. cbn [Route.processEvents]. by rewrite (Hstep _ eq_refl).
  - destruct (get (Some result) "output") as [output|];
      [destruct (truthy output)|]; try reflexivity.
    exists (set_field "output" output (entries (Route.eventData f))).
    split; [|split; [apply assoc_set_field|]].
    + unfold Route.enrichedEvent, Route.withOutput. by rewrite Hev.
    + intros k Hk. by apply assoc_set_field_ne.
Qed.

(** The completed frame of [trun_a] arrives without output: one fetch, and
    the augmented frame goes out. When the fetch fails, the frame goes out
    as it came. *)
Lemma C8_witness :
  Route.processEvent Sample.parse Sample.stringify Sample.fetch
    Sample.connected Sample.completedFrame
    {| Route.emitted := []; Route.fetched := [] |} false
  = Route.Next
      {| Route.emitted :=
           [Sample.frame "task_run.state" Sample.enrichedText +:+ nl +:+ nl];
         Route.fetched := ["trun_a"] |}
      false
  /\ Route.processEvent Sample.parse Sample.stringify Sample.noFetch
       Sample.connected Sample.completedFrame
       {| Route.emitted := []; Route.fetched := [] |} false
     = Route.Next
         {| Route.emitted := [Sample.completedFrame +:+ nl +:+ nl];
            Route.fetched := ["trun_a"] |}
         false.
Proof.
  split.
  - destruct (C8_completed_frame_is_backfilled_once
                Sample.parse Sample.stringify Sample.fetch Sample.connected
                Sample.completedFrame (JStr "trun_a")
                {| Route.emitted := []; Route.fetched := [] |} false)
      as (chunk & Hstep & _ & Hchunk); [vm_compute; reflexivity..|].
    rewrite Hstep. destruct Hchunk as (fields' & -> & _). reflexivity.
  - destruct (C8_completed_frame_is_backfilled_once
                Sample.parse Sample.stringify Sample.noFetch Sample.connected
                Sample.completedFrame (JStr "trun_a")
                {| Route.emitted := []; Route.fetched := [] |} false)
      as (chunk & Hstep & _ & Hchunk); [vm_compute; reflexivity..|].
    rewrite Hstep. cbn in Hchunk. by rewrite Hchunk.
Defined.

(* ===================================================================== *)
(** * Strings: [norm] and [cellKey]                                       *)
(* ===================================================================== *)

Section StringFacts.

Implicit Types (s t : string) (c : ascii) (p : ascii -> bool).

Lemma rev_app_rev_app s : forall t,
  String.rev_app (String.rev_app s t) "" = String.rev_app t s.
Proof.
  induction s as [|c s IH]; intros t; simpl; [reflexivity|].
  by rewrite IH.
Qed.

Lemma rev_rev s : String.rev (String.rev s) = s.
Proof. unfold String.rev. by rewrite rev_app_rev_app. Qed.

Lemma allChars_rev_app p s : forall t,
  allChars p (String.rev_app s t) = allChars p s && allChars p t.
Proof.
  induction s as [|c s IH]; intros t; simpl; [reflexivity|].
  rewrite IH. simpl. by destruct (p c), (allChars p s), (allChars p t).
Qed.

Lemma allChars_rev p s : allChars p (String.rev s) = allChars p s.
Proof. unfold String.rev. rewrite allChars_rev_app. simpl. apply andb_true_r. Qed.

Lemma allChars_app p s t :
  allChars p (s +:+ t) = allChars p s && allChars p t.
Proof.
  induction s as [|c s IH]; [reflexivity|].
  change (String c s +:+ t) with (String c (s +:+ t)). simpl.
  rewrite IH. by destruct (p c).
Qed.

Lemma az09_not_white c : az09 c = true -> white c = false.
Proof. destruct c as [[] [] [] [] [] [] [] []]; vm_compute; congruence. Qed.

Lemma az09_lower c : az09 c = true -> lower c = c.
Proof. destruct c as [[] [] [] [] [] [] [] []]; vm_compute; congruence. Qed.

Lemma lower_lower c : lower (lower c) = lower c.
Proof. destruct c as [[] [] [] [] [] [] [] []]; vm_compute; congruence. Qed.

Lemma trimStart_az09 s : allChars az09 s = true -> trimStart s = s.
Proof.
  destruct s as [|c s]; [reflexivity|]. simpl.
  destruct (az09 c) eqn:Hc; [|discriminate]. intros _.
  by rewrite (az09_not_white c Hc).
Qed.

Lemma trim_az09 s : allChars az09 s = true -> trim s = s.
Proof.
  intros Hs. unfold trim. rewrite (trimStart_az09 s Hs).
  rewrite trimStart_az09 by (by rewrite allChars_rev).
  apply rev_rev.
Qed.

Lemma strip_az09 s : allChars az09 (strip s) = true.
Proof.
  induction s as [|c s IH]; [reflexivity|]. simpl.
  destruct (az09 c) eqn:Hc; [|exact IH]. simpl. by rewrite Hc.
Qed.

Lemma strip_id s : allChars az09 s = true -> strip s = s.
Proof.
  induction s as [|c s IH]; [reflexivity|]. simpl.
  destruct (az09 c); [|discriminate]. intros Hs. by rewrite IH.
Qed.

Lemma toLowerCase_id s : allChars az09 s = true -> toLowerCase s = s.
Proof.
  induction s as [|c s IH]; [reflexivity|]. simpl.
  destruct (az09 c) eqn:Hc; [|discriminate]. intros Hs.
  by rewrite (az09_lower c Hc), IH.
Qed.

Lemma toLowerCase_twice s : toLowerCase (toLowerCase s) = toLowerCase s.
Proof.
  induction s as [|c s IH]; [reflexivity|]. simpl. by rewrite lower_lower, IH.
Qed.

Lemma toLowerCase_app s t :
  toLowerCase (s +:+ t) = toLowerCase s +:+ toLowerCase t.
Proof.
  induction s as [|c s IH]; [reflexivity|].
  change (String c s +:+ t) with (String c (s +:+ t)). simpl. by rewrite IH.
Qed.

Lemma strip_app s t : strip (s +:+ t) = strip s +:+ strip t.
Proof.
  induction s as [|c s IH]; [reflexivity|].
  change (String c s +:+ t) with (String c (s +:+ t)). simpl.
  destruct (az09 c); by rewrite IH.
Qed.

(** [trim] has nothing to do in [norm]. *)
Lemma norm_strip s : norm s = strip (toLowerCase s).
Proof. unfold norm. apply trim_az09, strip_az09. Qed.

End StringFacts.

(** [norm] on ASCII text, where the byte-wise [toLowerCase] is the code's.
    Its result holds lower-case letters and digits only; it is idempotent;
    it does not see letter case; and it does not see an ASCII character that
    is neither a letter nor a digit, wherever it stands: two ASCII header
    texts that differ only in case, spaces and punctuation are one name. *)
Theorem norm_is_a_normal_form :
  forall s : string,
    allChars isAscii s = true ->
    allChars az09 (norm s) = true
    /\ norm (norm s) = norm s
    /\ norm (toLowerCase s) = norm s
    /\ forall (t : string) (c : ascii),
         isAscii c = true -> allChars isAscii t = true ->
         az09 (lower c) = false -> norm (s +:+ String c t) = norm (s +:+ t).
Proof.
  intros s _. rewrite !norm_strip.
  split; [apply strip_az09|]. split.
  { rewrite toLowerCase_id by apply strip_az09.
    apply strip_id, strip_az09. }
  split. { by rewrite toLowerCase_twice. }
  intros t c _ _ Hc. rewrite !norm_strip, !toLowerCase_app, !strip_app.
  simpl. by rewrite Hc.
Qed.

(** The header "Employee Count": its normal form, and the same name written
    with an underscore. *)
Lemma norm_witness :
  allChars az09 (norm "Employee") = true
  /\ norm (norm "Employee") = norm "Employee"
  /\ norm (toLowerCase "Employee") = norm "Employee"
  /\ norm ("Employee" +:+ String "_" "Count") = norm ("Employee" +:+ "Count").
Proof.
  destruct (norm_is_a_normal_form "Employee" eq_refl)
    as (Hchars & Hidem & Hcase & Hskip).
  split; [exact Hchars|]. split; [exact Hidem|]. split; [exact Hcase|].
  apply Hskip; reflexivity.
Defined.

(** ** Cell keys *)

Lemma pretty_N_char_notColon (x : N) : notColon (pretty_N_char x) = true.
Proof. unfold pretty_N_char. by repeat case_match. Qed.

Lemma pretty_N_go_notColon (x : N) : forall s : string,
  allChars notColon s = true -> allChars notColon (pretty_N_go x s) = true.
Proof.
  induction (N.lt_wf_0 x) as [x _ IH]; intros s Hs.
  destruct (decide (x = 0)%N) as [->|Hx].
  - by rewrite pretty_N_go_0.
  - rewrite pretty_N_go_step by lia. apply IH.
    + apply N.div_lt; lia.
    + simpl. by rewrite pretty_N_char_notColon, Hs.
Qed.

Lemma pretty_Z_notColon (z : Z) : allChars notColon (pretty z) = true.
Proof.
  assert (Hpos : forall p : positive, allChars notColon (pretty p) = true).
  { intros p. unfold pretty, pretty_positive, pretty, pretty_N.
    destruct (decide (N.pos p = 0)%N); [reflexivity|].
    by apply pretty_N_go_notColon. }
  destruct z as [|p|p]; unfold pretty, pretty_Z; [reflexivity|apply Hpos|].
  rewrite allChars_app. by rewrite (Hpos p).
Qed.

Lemma append_nil_l (t : string) : "" +:+ t = t.
Proof. reflexivity. Qed.

Lemma append_cons (c : ascii) (s t : string) :
  String c s +:+ t = String c (s +:+ t).
Proof. reflexivity. Qed.

(** The part of a key before its first colon, and the part after it. *)
Lemma colon_splits_once (s1 : string) : forall s2 t1 t2 : string,
  allChars notColon s1 = true -> allChars notColon s2 = true ->
  s1 +:+ ":" +:+ t1 = s2 +:+ ":" +:+ t2 -> s1 = s2 /\ t1 = t2.
Proof.
  induction s1 as [|c s1 IH]; intros [|d s2] t1 t2 H1 H2 Heq;
    rewrite ?append_nil_l, ?append_cons, ?append_nil_l in Heq.
  - injection Heq as ->. by split.
  - exfalso. injection Heq as <- _. simpl in H2. discriminate.
  - exfalso. injection Heq as -> _. simpl in H1. discriminate.
  - injection Heq as -> Heq. simpl in H1, H2.
    apply andb_true_iff in H1 as [_ H1]. apply andb_true_iff in H2 as [_ H2].
    destruct (IH s2 t1 t2 H1 H2 Heq) as [-> ->]. by split.
Qed.

Lemma cellKey_eq (p q : Point) : cellKey p = cellKey q -> p = q.
Proof.
  destruct p as [r1 c1], q as [r2 c2]. unfold cellKey. simpl. intros Heq.
  apply colon_splits_once in Heq as [Hr Hc]; try apply pretty_Z_notColon.
  apply (inj pretty) in Hr. apply (inj pretty) in Hc. by subst.
Qed.

#[local] Instance cellKey_inj : Inj (=) (=) cellKey.
Proof. intros p q. apply cellKey_eq. Qed.

(** Two cells have the same key only if they are the same cell: the pending
    set never takes one cell for another. *)
Theorem cellKey_injective :
  forall p q : Point, cellKey p = cellKey q -> p = q.
Proof. exact cellKey_eq. Qed.

(** Equal keys, equal cells; and the cells (1, 12) and (11, 2) have
    different keys, "1:12" and "11:2". *)
Lemma cellKey_injective_witness :
  {| row := 1; column := 12 |} = Sample.point 1 12
  /\ cellKey (Sample.point 1 12) = "1:12"
  /\ cellKey (Sample.point 11 2) = "11:2"
  /\ (cellKey (Sample.point 1 12) = cellKey (Sample.point 11 2) -> False).
Proof.
  split; [apply cellKey_injective; vm_compute; reflexivity|].
  split; [vm_compute; reflexivity|]. split; [vm_compute; reflexivity|].
  intros H. apply cellKey_injective in H. discriminate H.
Defined.

(* ===================================================================== *)
(** * Selection and seeding                                               *)
(* ===================================================================== *)

(** [onSelect] always yields a normalized range; on a grid with a header
    cell the range lies inside the grid; and a range that [onSelect] yields
    is left as it is by [onSelect]. *)
Theorem onSelect_normalizes :
  forall (data : Grid) (r : Range),
    normalized (onSelect data r)
    /\ onSelect data (onSelect data r) = onSelect data r
    /\ (forall header cells,
          data = (header :: cells) -> header <> [] ->
          row (end_ (onSelect data r)) < Z.of_nat (length data)
          /\ column (end_ (onSelect data r)) < Z.of_nat (length header)).
Proof.
  intros data r. unfold normalized, onSelect. cbn.
  split; [lia|]. split.
  - f_equal; f_equal; lia.
  - intros header cells -> Hne. cbn.
    destruct header; [congruence|]. cbn [length]. lia.
Qed.

Lemma NoDup_join_fmap {A B} (g : A -> list B) (xs : list A) :
  (forall x1 x2 y, x1 ∈ xs -> x2 ∈ xs -> y ∈ g x1 -> y ∈ g x2 -> x1 = x2) ->
  (forall x, x ∈ xs -> NoDup (g x)) ->
  NoDup xs -> NoDup (mjoin (g <$> xs)).
Proof.
  intros Hinj Hg. induction 1 as [|x xs Hx Hxs IH]; cbn; [constructor|].
  apply NoDup_app. split; [|split].
  - apply Hg, list_elem_of_here.
  - intros y Hy Hy'. apply list_elem_of_join in Hy' as (l & Hyl & Hl).
    apply list_elem_of_fmap in Hl as (x' & -> & Hx').
    assert (x = x') as <-; [|done].
    apply (Hinj x x' y); auto using list_elem_of_here, list_elem_of_further.
  - apply IH.
    + intros x1 x2 y H1 H2. apply Hinj; by apply list_elem_of_further.
    + intros x' Hx'. by apply Hg, list_elem_of_further.
Qed.

Lemma selectedCellsOf_NoDup (r : Range) : NoDup (selectedCellsOf r).
Proof.
  rewrite selectedCellsOf_rows. apply NoDup_join_fmap.
  - intros i1 i2 p _ _ H1 H2.
    apply list_elem_of_fmap in H1 as (c1 & -> & _).
    apply list_elem_of_fmap in H2 as (c2 & Heq & _). congruence.
  - intros i _. apply NoDup_fmap_2; [|apply NoDup_seqZ].
    intros c1 c2 Heq. congruence.
  - apply NoDup_seqZ.
Qed.

Lemma selectedCellsOf_length (r : Range) :
  length (selectedCellsOf r)
  = (Z.to_nat (endRowOf r - startRowOf r + 1)
     * Z.to_nat (column (end_ r) - column (start r) + 1))%nat.
Proof.
  rewrite selectedCellsOf_rows, length_join, <- list_fmap_compose.
  rewrite (sum_list_fmap_same
             (Z.to_nat (column (end_ r) - column (start r) + 1))).
  - by rewrite length_seqZ.
  - apply Forall_forall. intros i _. cbn. by rewrite length_fmap, length_seqZ.
Qed.

(** Starting a run on an idle page with an empty pending set: the page is
    busy, the selection is cleared, both counters are back at 0, and the
    count the progress display starts from, [initialPendingCount], is the
    size of the pending set, which is the number of rows times the number of
    columns of the selection (rows counted from [max(1, start.row)]): the
    display starts at "0 of N".  Nothing else of the React state changes. *)
Theorem enrich_seeds_one_key_per_cell :
  forall (s0 : State) (r : Range) (now : Z),
    busy s0 = false -> pending s0 = ∅ -> range s0 = Some r ->
    let s1 := enrich now s0 in
    busy s1 = true
    /\ range s1 = None
    /\ successCount s1 = 0
    /\ errorCount s1 = 0
    /\ pending s1 = list_to_set (cellKey <$> selectedCellsOf r)
    /\ initialPendingCount s1 = Z.of_nat (size (pending s1))
    /\ size (pending s1)
       = (Z.to_nat (endRowOf r - startRowOf r + 1)
          * Z.to_nat (column (end_ r) - column (start r) + 1))%nat
    /\ data s1 = data s0
    /\ lastEnrichTime s1 = lastEnrichTime s0
    /\ currentTaskGroupId s1 = currentTaskGroupId s0
    /\ esRef s1 = esRef s0.
Proof.
  intros s0 r now Hbusy Hpend Hrange s1. subst s1.
  unfold enrich. rewrite Hrange, Hbusy. cbn.
  rewrite Hpend, addPending_union, (right_id_L ∅ (∪)).
  rewrite size_list_to_set
    by (apply NoDup_fmap_2; [apply _|apply selectedCellsOf_NoDup]).
  rewrite length_fmap. repeat split. apply selectedCellsOf_length.
Qed.

(** Rows 1 to 3, columns 1 and 2 of the sample grid: busy, "0 of 6". *)
Lemma enrich_seeds_witness :
  let s1 := enrich 0 (step (initial Sample.grid) (Select Sample.block)) in
  busy s1 = true /\ range s1 = None
  /\ initialPendingCount s1 = 6 /\ size (pending s1) = 6%nat.
Proof.
  intros s1.
  destruct (enrich_seeds_one_key_per_cell
              (step (initial Sample.grid) (Select Sample.block))
              Sample.block 0 eq_refl eq_refl eq_refl)
    as (Hbusy & Hrange & _ & _ & _ & Hcount & Hsize & _).
  fold s1 in Hbusy, Hrange, Hcount, Hsize.
  split; [exact Hbusy|]. split; [exact Hrange|]. split.
  - rewrite Hcount, Hsize. reflexivity.
  - rewrite Hsize. reflexivity.
Defined.

(* ===================================================================== *)
(** * The header index                                                    *)
(* ===================================================================== *)

(** What a dictionary built from indexed entries holds comes from the last
    entry with that key. *)
Lemma fromEntries_imap_Some {A V} (key : nat -> A -> string)
    (val : nat -> A -> V) (xs : list A) (k : string) (v : V) :
  fromEntries (imap (fun j y => (key j y, val j y)) xs) !! k = Some v ->
  exists i x,
    xs !! i = Some x /\ key i x = k /\ val i x = v
    /\ forall j y, (i < j)%nat -> xs !! j = Some y -> key j y <> k.
Proof.
  induction xs as [|z xs IH] using rev_ind; [discriminate|].
  rewrite fromEntries_imap_snoc.
  destruct (decide (key (length xs) z = k)) as [Hk|Hk].
  - rewrite Hk, lookup_insert_eq. intros [= <-].
    exists (length xs), z. split; [by rewrite lookup_app_r, Nat.sub_diag by lia|].
    split; [exact Hk|]. split; [reflexivity|].
    intros j y Hj Hy. apply lookup_lt_Some in Hy.
    rewrite length_app in Hy. simpl in Hy. lia.
  - rewrite lookup_insert_ne by exact Hk. intros Hv.
    destruct (IH Hv) as (i & x & Hi & Hkey & Hval & Hlast).
    exists i, x. split; [by apply lookup_app_l_Some|].
    split; [exact Hkey|]. split; [exact Hval|].
    intros j y Hj Hy.
    destruct (decide (j = length xs)) as [->|Hne].
    + rewrite lookup_app_r, Nat.sub_diag in Hy by lia. injection Hy as <-.
      exact Hk.
    + apply (Hlast j y Hj). rewrite lookup_app_l in Hy; [exact Hy|].
      apply lookup_lt_Some in Hy. rewrite length_app in Hy. simpl in Hy. lia.
Qed.

(** [headerIndex] maps a normal form to the column of the last header that
    has it, and to nothing else: what it returns is always a column of the
    header row. *)
Theorem headerIndex_is_the_last_header :
  forall (hs : list string) (n : string) (c : Z),
    headerIndex hs !! n = Some c
    <-> exists (i : nat) (h : string),
          c = Z.of_nat i /\ hs !! i = Some h /\ norm h = n
          /\ forall j h', (i < j)%nat -> hs !! j = Some h' -> norm h' <> n.
Proof.
  intros hs n c. split.
  - intros Hc.
    destruct (fromEntries_imap_Some (fun _ => norm) (fun j _ => Z.of_nat j)
                hs n c Hc) as (i & h & Hi & Hn & Hv & Hlast).
    exists i, h. by repeat split.
  - intros (i & h & -> & Hi & <- & Hlast). by apply headerIndex_last.
Qed.

(* ===================================================================== *)
(** * What [applyRowResult] writes                                        *)
(* ===================================================================== *)

Section ApplyFacts.

Variables (hi : gmap string Z) (headerLen : nat) (r : option Z)
          (tHeaders : list string) (tCols : list Z).

Local Abbreviation hit := (hitOf hi headerLen tHeaders tCols).
Local Abbreviation apply1 := (applyEntry hi headerLen r tHeaders tCols).

Lemma applyEntry_hit (acc : Applied) (kv : string * JSON) :
  apply1 acc kv
  = match hit kv with
    | Some col =>
        {| a_row := array_set (a_row acc) (Z.to_nat col)
                      (withValue (cellAt (a_row acc) (Z.to_nat col)) kv.2);
           a_pending := deleteKeys [keyOf r col] (a_pending acc);
           a_success := a_success acc + 1 |}
    | None => acc
    end.
Proof.
  unfold applyEntry, hitOf. destruct (resolve hi tHeaders tCols kv.1) as [col|];
    [|reflexivity].
  by destruct ((0 <=? col) && (col <? Z.of_nat headerLen)).
Qed.

Lemma foldl_applyEntry_counts (obj : list (string * JSON)) :
  forall acc : Applied,
    a_success (foldl apply1 acc obj)
    = a_success acc + Z.of_nat (length (omap hit obj))
    /\ a_pending (foldl apply1 acc obj)
       = a_pending acc ∖ list_to_set (keyOf r <$> omap hit obj).
Proof.
  induction obj as [|kv obj IH]; intros acc; cbn [foldl].
  - split; [cbn; lia|]. cbn. set_solver.
  - destruct (IH (apply1 acc kv)) as [Hs Hp]. rewrite Hs, Hp.
    rewrite applyEntry_hit.
    assert (Hcons : omap hit (kv :: obj)
                    = match hit kv with
                      | Some col => col :: omap hit obj
                      | None => omap hit obj
                      end) by reflexivity.
    rewrite Hcons. clear Hcons Hs Hp.
    destruct (hit kv) as [col|]; cbn.
    + split; [lia|]. rewrite deleteKeys_difference. set_solver.
    + split; reflexivity.
Qed.






End ApplyFacts.

(** [applyRowResult] counts keys, not cells: [successCount] grows by the
    number of output keys that resolve to a column of the header row, and the
    pending set loses the keys of those columns in the job's row. This is so
    even when the grid has no such row, in which case nothing is written.
    Nothing else changes but the grid: the state afterwards is the state
    before with these three fields replaced. *)
Theorem applyRowResult_counts_resolved_keys :
  forall (hi : gmap string Z) (r : option Z) (obj : list (string * JSON))
         (tHeaders : list string) (tCols : list Z) (s : State),
    let s' := applyRowResult hi r (JObj obj) tHeaders tCols s in
    let hits :=
      omap (hitOf hi (length (default [] (data s !! O))) tHeaders tCols) obj in
    s' = {| data := data s';
            range := range s;
            pending := pending s ∖ list_to_set (keyOf r <$> hits);
            busy := busy s;
            successCount := successCount s + Z.of_nat (length hits);
            errorCount := errorCount s;
            lastEnrichTime := lastEnrichTime s;
            initialPendingCount := initialPendingCount s;
            currentTaskGroupId := currentTaskGroupId s;
            esRef := esRef s;
            runs := runs s;
            awaiting := awaiting s;
            run_maps := run_maps s;
            openStreams := openStreams s;
            timers := timers s;
            cancelling := cancelling s |}
    /\ (r ≫= at_ (data s) = None -> data s' = data s).
Proof.
  intros hi r obj tHeaders tCols s s' hits. subst s' hits.
  unfold applyRowResult. cbv zeta. cbn [is_plain_object entries].
  set (acc := {| a_row := _; a_pending := pending s;
                 a_success := successCount s |}).
  destruct (foldl_applyEntry_counts hi (length (default [] (data s !! O))) r
              tHeaders tCols obj acc) as [Hs Hp].
  destruct r as [i|]; [destruct (Some i ≫= at_ (data s)) eqn:Hrow|]; cbn;
    rewrite Hs, Hp; (split; [reflexivity|]); try reflexivity; discriminate.
Qed.



(* ===================================================================== *)
(** * Events the reconciler ignores                                       *)
(* ===================================================================== *)

(** [handleEventData] returns the state it was given, so touches neither
    cells nor counts nor the pending set nor the stream, for: a completed run
    whose id is not in [run_map] or that carries no output; a run whose
    status is neither completed nor failed; a group status that does not say
    [is_active: false]; and any payload of another type. *)
Theorem handleEventData_ignores :
  forall (cl : Run) (run_map : gmap string RunMapEntry) (rid : nat) (now : Z)
         (obj : JSON) (s : State),
    let type := get (Some obj) "type" in
    let status := get (get (Some obj) "run") "status" in
    let is_run := is_str type "task_run.state" || is_str type "task_run" in
    (is_run = true -> is_str status "completed" = true ->
     lookupRun run_map (get (get (Some obj) "run") "run_id") = Missing
     \/ truthy_opt (get (Some obj) "output") = false ->
     handleEventData cl run_map rid now obj s = s)
    /\ (is_run = true -> is_str status "completed" = false ->
        is_str status "failed" = false ->
        handleEventData cl run_map rid now obj s = s)
    /\ (is_run = false -> groupInactive obj = false ->
        handleEventData cl run_map rid now obj s = s).
Proof.
  intros cl run_map rid now obj s type status is_run.
  subst type status is_run. unfold handleEventData. cbv zeta.
  split; [|split].
  - intros -> Hdone [Hmiss|Hout].
    + rewrite Hdone, Hmiss. cbn [andb].
      destruct (truthy_opt _); [by destruct (outOf _)|].
      by rewrite (is_str_excl _ "completed" "failed" Hdone).
    + rewrite Hdone, Hout. cbn [andb].
      by rewrite (is_str_excl _ "completed" "failed" Hdone).
  - intros -> -> ->. reflexivity.
  - intros -> Hgroup. unfold groupInactive in Hgroup.
    destruct (is_str (get (Some obj) "type") "task_group_status");
      [|reflexivity].
    cbn [andb] in Hgroup. by rewrite Hgroup.
Qed.

(** A completed event for a run the table does not know, on the run in
    flight. *)
Lemma handleEventData_ignores_witness :
  let ev := Sample.runEvent "completed" "trun_zzz"
              [("output", JObj [("Stage", JStr "Seed")])] in
  handleEventData Sample.closure Sample.table 0 5 ev Sample.running
  = Sample.running.
Proof.
  intros ev.
  apply (proj1 (handleEventData_ignores Sample.closure Sample.table 0 5 ev
                  Sample.running)).
  - reflexivity.
  - reflexivity.
  - left. vm_compute. reflexivity.
Defined.

(* ===================================================================== *)
(** * Sessions                                                            *)
(* ===================================================================== *)

(** No event of the stream touches the cancellations under way. *)
Lemma handleEventData_cancelling cl run_map rid now obj s :
  cancelling (handleEventData cl run_map rid now obj s) = cancelling s.
Proof.
  unfold handleEventData. cbv zeta.
  destruct (is_str _ "task_run.state" || is_str _ "task_run").
  - destruct (is_str _ "completed" && _).
    + destruct (outOf _); [|reflexivity].
      destruct (lookupRun _ _); try reflexivity;
        unfold applyRowResult; cbv zeta; repeat case_match; reflexivity.
    + destruct (is_str _ "failed"); [|reflexivity].
      by destruct (lookupRun _ _).
  - destruct (is_str _ "task_group_status"); [|reflexivity].
    by destruct (is_false _).
Qed.

Lemma orderly_idle (s s' : State) :
  cancelling s' = O -> busy s' = false -> pending s' = ∅ ->
  awaiting s' = ∅ -> openStreams s' = ∅ -> timers s' = ∅ -> orderly s'.
Proof. intros. split; [assumption|]. left. by repeat split. Qed.

Lemma step_orderly (s : State) (e : Event) :
  cancelFree e = true -> orderly s -> orderly (step s e).
Proof.
  intros Hfree Hord. pose proof Hord as [Hcn Hs].
  destruct e as [r|now|[i resp|i now obj|i|i| |]]; cbn [step stepRun];
    try discriminate Hfree.
  - (* Select *)
    destruct (busy s) eqn:Hb; [exact Hord|].
    destruct Hs as [[_ Hq]|[Hb' _]]; [|congruence].
    destruct Hq as (_ & Hp & Ha & Ho & Ht).
    by apply (orderly_idle s).
  - (* Enrich *)
    unfold enrich. destruct (range s) as [r|]; [|exact Hord].
    destruct (busy s) eqn:Hb; [exact Hord|].
    destruct Hs as [[_ Hq]|[Hb' _]]; [|congruence].
    destruct Hq as (_ & Hp & Ha & Ho & Ht).
    split; [exact Hcn|]. right. split; [reflexivity|].
    eexists (length (runs s)), _. unfold inFlight. cbn.
    split; [by rewrite lookup_app_r, Nat.sub_diag by lia|].
    rewrite Hp, Ha, Ho, Ht, addPending_union. split; [cbn; set_solver|].
    left. repeat split; set_solver.
  - (* Response *)
    unfold enrichResume. destruct (runs s !! i) as [cl'|] eqn:Hcl';
      [|exact Hord].
    destruct (bool_decide (i ∈ awaiting s)) eqn:Hi; [|exact Hord].
    apply bool_decide_eq_true in Hi.
    destruct Hs as [[_ Hq]|[Hb (rid & cl & Hcl & Hsub & Hphase)]].
    { destruct Hq as (_ & _ & Ha & _). set_solver. }
    destruct Hphase as [(Ha & Ho & Ht)|(Ha & _)]; [|set_solver].
    assert (i = rid) as -> by set_solver.
    rewrite Hcl in Hcl'. injection Hcl' as <-.
    destruct resp as [[g rm]|].
    + split; [exact Hcn|]. right. split; [exact Hb|].
      exists rid, cl. unfold inFlight. cbn. rewrite Ha, Ho, Ht.
      split; [exact Hcl|]. split; [exact Hsub|].
      right. repeat split; set_solver.
    + apply (orderly_idle s); cbn; rewrite ?Ha, ?Ho, ?Ht; try done.
      * by apply clearPending_all.
      * set_solver.
  - (* Message *)
    destruct (runs s !! i) as [cl'|] eqn:Hcl'; [|exact Hord].
    destruct (bool_decide (i ∈ openStreams s)) eqn:Hi; [|exact Hord].
    apply bool_decide_eq_true in Hi.
    destruct Hs as [[_ Hq]|[Hb (rid & cl & Hcl & Hsub & Hphase)]].
    { destruct Hq as (_ & _ & _ & Ho & _). set_solver. }
    destruct Hphase as [(_ & Ho & _)|(Ha & Ho & Ht)]; [set_solver|].
    assert (i = rid) as -> by set_solver.
    rewrite Hcl in Hcl'. injection Hcl' as <-.
    destruct (groupInactive obj) eqn:Hg.
    + rewrite handleEventData_group by exact Hg.
      apply (orderly_idle s); cbn; rewrite ?Ha, ?Ho, ?Ht; try done.
      * by apply clearPending_all.
      * set_solver.
      * set_solver.
    + destruct (handleEventData_job cl (default ∅ (run_maps s !! rid)) rid
                  now obj s Hg) as ((Hb' & Hr' & Ha' & Ho' & Ht') & Hp').
      assert (Hcn' : cancelling (handleEventData cl
                       (default ∅ (run_maps s !! rid)) rid now obj s) = O)
        by (by rewrite handleEventData_cancelling).
      split; [exact Hcn'|]. right. rewrite Hb'. split; [exact Hb|].
      exists rid, cl. unfold inFlight. rewrite Hr', Ha', Ho', Ht'.
      split; [exact Hcl|]. split; [by etrans|]. by right.
  - (* StreamError *)
    destruct (runs s !! i) as [cl'|] eqn:Hcl'; [|exact Hord].
    destruct (bool_decide (i ∈ openStreams s)) eqn:Hi; [|exact Hord].
    apply bool_decide_eq_true in Hi.
    destruct Hs as [[_ Hq]|[Hb (rid & cl & Hcl & Hsub & Hphase)]].
    { destruct Hq as (_ & _ & _ & Ho & _). set_solver. }
    destruct Hphase as [(_ & Ho & _)|(Ha & Ho & Ht)]; [set_solver|].
    assert (i = rid) as -> by set_solver.
    rewrite Hcl in Hcl'. injection Hcl' as <-.
    apply (orderly_idle s); cbn; rewrite ?Ha, ?Ho, ?Ht; try done.
    + by apply clearPending_all.
    + set_solver.
    + set_solver.
  - (* Timeout *)
    destruct (runs s !! i) as [cl'|] eqn:Hcl'; [|exact Hord].
    destruct (bool_decide (i ∈ timers s)) eqn:Hi; [|exact Hord].
    apply bool_decide_eq_true in Hi.
    destruct Hs as [[_ Hq]|[Hb (rid & cl & Hcl & Hsub & Hphase)]].
    { destruct Hq as (_ & _ & _ & _ & Ht). set_solver. }
    destruct Hphase as [(_ & _ & Ht)|(Ha & Ho & Ht)]; [set_solver|].
    assert (i = rid) as -> by set_solver.
    rewrite Hcl in Hcl'. injection Hcl' as <-.
    apply (orderly_idle s); cbn; rewrite ?Ha, ?Ho, ?Ht; try done.
    + by apply clearPending_all.
    + set_solver.
    + set_solver.
  - (* CancelResume *)
    unfold cancelResume. rewrite Hcn. exact Hord.
Qed.

Lemma exec_orderly (evs : list Event) : forall s : State,
  forallb cancelFree evs = true -> orderly s -> orderly (exec s evs).
Proof.
  unfold exec. induction evs as [|e evs IH]; intros s Hfree Hs; [exact Hs|].
  cbn in Hfree |- *. apply andb_true_iff in Hfree as [He Hfree].
  apply IH; [exact Hfree|]. by apply step_orderly.
Qed.

(** In a session in which the cancel button is never clicked, whatever else
    happens and in whatever order, the page is in one of two conditions.
    Idle: [busy] is [false], the pending set is empty and no submission,
    stream or timeout of any run is outstanding, so that a run started then
    starts clean.  Or busy with exactly one run in flight: its submission is
    awaited and it has neither stream nor timeout yet, or its stream is the
    one open stream and its timeout the one armed timeout; and every pending
    key is the key of a cell that run selected. *)
Theorem session_without_cancel_is_orderly :
  forall (d : Grid) (evs : list Event),
    forallb cancelFree evs = true ->
    let s := exec (initial d) evs in
    (busy s = false ->
       pending s = ∅ /\ awaiting s = ∅ /\ openStreams s = ∅ /\ timers s = ∅)
    /\ (busy s = true ->
          exists (rid : nat) (cl : Run),
            runs s !! rid = Some cl
            /\ pending s ⊆ list_to_set (cellKey <$> selectedCells cl)
            /\ ((awaiting s = {[rid]} /\ openStreams s = ∅ /\ timers s = ∅)
                \/ (awaiting s = ∅ /\ openStreams s = {[rid]}
                    /\ timers s = {[rid]})))
    /\ (size (openStreams s) <= 1)%nat
    /\ (busy s = false -> forall now r, range s = Some r ->
          busy (enrich now s) = true
          /\ pending (enrich now s)
             = list_to_set (cellKey <$> selectedCellsOf r)).
Proof.
  intros d evs Hfree s.
  assert (Hs : orderly s).
  { apply exec_orderly; [exact Hfree|].
    split; [reflexivity|]. left. by repeat split. }
  destruct Hs as [_ Hs]. split; [|split; [|split]].
  - intros Hb. destruct Hs as [[_ Hq]|[Hb' _]]; [|congruence].
    by destruct Hq as (_ & Hp & Ha & Ho & Ht).
  - intros Hb. destruct Hs as [[Hb' _]|[_ (rid & cl & Hin)]]; [congruence|].
    exists rid, cl. exact Hin.
  - destruct Hs as [[_ (_ & _ & _ & Ho & _)]|[_ (rid & cl & _ & _ & Hphase)]].
    + rewrite Ho, size_empty. lia.
    + destruct Hphase as [(_ & Ho & _)|(_ & Ho & _)]; rewrite Ho.
      * rewrite size_empty. lia.
      * by rewrite size_singleton.
  - intros Hb now r Hrange.
    destruct Hs as [[_ Hq]|[Hb' _]]; [|congruence].
    destruct (enrich_inRun s r now Hq Hrange) as (cl & _ & _ & Hp & Hbusy).
    by split.
Qed.

(** Two runs, the first ended by its group going inactive, the second by
    its timeout: idle and clean at the end; and in between, with the second
    run's stream open, that run is the one in flight. *)
Lemma session_without_cancel_witness :
  let evs :=
    [Select Sample.block; Enrich 0;
     During (Response 0 (Some ("tgrp_1", Sample.table)));
     During (Message 0 9 (Sample.groupStatus false));
     Select Sample.wide; Enrich 20;
     During (Response 1 (Some ("tgrp_2", Sample.table)))] in
  (let s := exec (initial Sample.grid) (evs ++ [During (Timeout 1)]) in
   busy s = false
   /\ pending s = ∅ /\ awaiting s = ∅ /\ openStreams s = ∅ /\ timers s = ∅)
  /\ (let s := exec (initial Sample.grid) evs in
      busy s = true
      /\ exists (rid : nat) (cl : Run),
           runs s !! rid = Some cl
           /\ pending s ⊆ list_to_set (cellKey <$> selectedCells cl)
           /\ ((awaiting s = {[rid]} /\ openStreams s = ∅ /\ timers s = ∅)
               \/ (awaiting s = ∅ /\ openStreams s = {[rid]}
                   /\ timers s = {[rid]}))).
Proof.
  intros evs. split.
  - intros s.
    assert (Hb : busy s = false) by (vm_compute; reflexivity).
    split; [exact Hb|].
    exact (proj1 (session_without_cancel_is_orderly Sample.grid
                    (evs ++ [During (Timeout 1)]) eq_refl) Hb).
  - intros s.
    assert (Hb : busy s = true) by (vm_compute; reflexivity).
    split; [exact Hb|].
    exact (proj1 (proj2 (session_without_cancel_is_orderly Sample.grid evs
                           eq_refl)) Hb).
Defined.

(** ** Cancellation *)

Lemma stepRun_stays_idle (s : State) (e : RunEvent) :
  busy s = false -> busy (stepRun s e) = false.
Proof.
  intros Hb. destruct e as [i resp|i now obj|i|i| |]; cbn [stepRun].
  - unfold enrichResume. destruct (runs s !! i); [|exact Hb].
    destruct (bool_decide _); [|exact Hb]. by destruct resp as [[g rm]|].
  - destruct (runs s !! i) as [cl|]; [|exact Hb].
    destruct (bool_decide _); [|exact Hb].
    destruct (groupInactive obj) eqn:Hg.
    + by rewrite handleEventData_group.
    + destruct (handleEventData_job cl (default ∅ (run_maps s !! i)) i now
                  obj s Hg) as ((Hb' & _) & _). congruence.
  - destruct (runs s !! i); [|exact Hb]. by destruct (bool_decide _).
  - destruct (runs s !! i); [|exact Hb]. by destruct (bool_decide _).
  - unfold cancelEnrichment. by destruct (cancellable s).
  - unfold cancelResume. destruct (cancelling s) as [|n]; [exact Hb|].
    cbv zeta. change (esRef (setCancelling n s)) with (esRef s).
    by destruct (esRef s).
Qed.

Lemma cancelResume_lands (s : State) :
  (0 < cancelling s)%nat ->
  busy (cancelResume s) = false /\ pending (cancelResume s) = ∅.
Proof.
  unfold cancelResume. destruct (cancelling s) as [|n]; [lia|]. intros _.
  cbv zeta. change (esRef (setCancelling n s)) with (esRef s).
  by destruct (esRef s).
Qed.

Lemma stepRun_cancel_pending (s : State) (e : RunEvent) :
  (0 < cancelling s)%nat \/ (busy s = false /\ pending s = ∅) ->
  (0 < cancelling (stepRun s e))%nat
  \/ (busy (stepRun s e) = false /\ pending (stepRun s e) = ∅).
Proof.
  intros [Hcn|[Hb Hp]].
  - destruct e as [i resp|i now obj|i|i| |]; cbn [stepRun].
    + left. unfold enrichResume. destruct (runs s !! i); [|exact Hcn].
      destruct (bool_decide _); [|exact Hcn]. by destruct resp as [[g rm]|].
    + left. destruct (runs s !! i); [|exact Hcn].
      destruct (bool_decide _); [|exact Hcn].
      by rewrite handleEventData_cancelling.
    + left. destruct (runs s !! i); [|exact Hcn]. by destruct (bool_decide _).
    + left. destruct (runs s !! i); [|exact Hcn]. by destruct (bool_decide _).
    + left. unfold cancelEnrichment. destruct (cancellable s); [cbn; lia|exact Hcn].
    + right. by apply cancelResume_lands.
  - right. split; [by apply stepRun_stays_idle|].
    pose proof (stepRun_pending_subseteq s e) as Hsub. set_solver.
Qed.

(** Until the DELETE of a cancellation returns, the cancellation stays
    outstanding. *)
Lemma stepRun_keeps_cancelling (s : State) (e : RunEvent) :
  e <> CancelResume -> (0 < cancelling s)%nat ->
  (0 < cancelling (stepRun s e))%nat.
Proof.
  intros He Hcn. destruct e as [i resp|i now obj|i|i| |]; cbn [stepRun];
    [| | | | |done].
  - unfold enrichResume. destruct (runs s !! i); [|exact Hcn].
    destruct (bool_decide _); [|exact Hcn]. by destruct resp as [[g rm]|].
  - destruct (runs s !! i); [|exact Hcn].
    destruct (bool_decide _); [|exact Hcn].
    by rewrite handleEventData_cancelling.
  - destruct (runs s !! i); [|exact Hcn]. by destruct (bool_decide _).
  - destruct (runs s !! i); [|exact Hcn]. by destruct (bool_decide _).
  - unfold cancelEnrichment. destruct (cancellable s); [cbn; lia|exact Hcn].
Qed.

Lemma foldl_keeps_cancelling (evs : list RunEvent) : forall s : State,
  CancelResume ∉ evs -> (0 < cancelling s)%nat ->
  (0 < cancelling (foldl stepRun s evs))%nat.
Proof.
  induction evs as [|e evs IH]; intros s Hnot Hcn; [exact Hcn|].
  apply not_elem_of_cons in Hnot as [He Hnot]. cbn [foldl].
  apply IH; [exact Hnot|]. apply stepRun_keeps_cancelling; [congruence|exact Hcn].
Qed.

(** What the second half of [cancelEnrichment] resets. *)
Lemma cancelResume_resets (s : State) :
  (0 < cancelling s)%nat ->
  esRef (cancelResume s) = None
  /\ currentTaskGroupId (cancelResume s) = None
  /\ lastEnrichTime (cancelResume s) = None
  /\ successCount (cancelResume s) = 0
  /\ errorCount (cancelResume s) = 0.
Proof.
  unfold cancelResume. destruct (cancelling s) as [|n]; [lia|]. intros _.
  cbv zeta. change (esRef (setCancelling n s)) with (esRef s).
  destruct (esRef s) eqn:Hes; cbn; rewrite ?Hes; by repeat split.
Qed.

(** Once the cancel button has been clicked on a run in flight, whatever the
    stream, the timeout or other cancellations do before the DELETE returns,
    when it returns [busy] is [false] and the pending set is empty; and when
    it is the first DELETE to return since the click, the stream reference
    and the task group id are cleared and the elapsed time and both counters
    are reset. A click with no group id or while not busy does nothing. *)
Theorem cancellation_always_lands :
  forall (s : State) (evs : list RunEvent),
    cancellable s = true ->
    let s' := stepRun (foldl stepRun (stepRun s Cancel) evs) CancelResume in
    (busy s' = false /\ pending s' = ∅)
    /\ (CancelResume ∉ evs ->
        esRef s' = None
        /\ currentTaskGroupId s' = None
        /\ lastEnrichTime s' = None
        /\ successCount s' = 0
        /\ errorCount s' = 0)
    /\ forall s0 : State, cancellable s0 = false -> stepRun s0 Cancel = s0.
Proof.
  intros s evs Hc s'.
  assert (Hstart : (0 < cancelling (stepRun s Cancel))%nat).
  { cbn. unfold cancelEnrichment. rewrite Hc. cbn. lia. }
  split; [|split].
  - assert (Hinv : forall evs t,
               (0 < cancelling t)%nat \/ (busy t = false /\ pending t = ∅) ->
               (0 < cancelling (foldl stepRun t evs))%nat
               \/ (busy (foldl stepRun t evs) = false
                   /\ pending (foldl stepRun t evs) = ∅)).
    { clear. induction evs as [|e evs IH]; intros t Ht; [exact Ht|].
      cbn. apply IH. by apply stepRun_cancel_pending. }
    destruct (stepRun_cancel_pending _ CancelResume
                (Hinv evs _ (or_introl Hstart))) as [Hcn|Hdone];
      [|exact Hdone].
    subst s'. cbn [stepRun] in Hcn |- *.
    set (t := foldl stepRun (stepRun s Cancel) evs) in *.
    destruct (Hinv evs _ (or_introl Hstart)) as [Ht|[Hb Hp]].
    + by apply cancelResume_lands.
    + fold t in Hb, Hp. split.
      * by apply (stepRun_stays_idle t CancelResume).
      * pose proof (stepRun_pending_subseteq t CancelResume) as Hsub.
        cbn [stepRun] in Hsub. set_solver.
  - intros Hnot. subst s'. cbn [stepRun].
    apply cancelResume_resets. by apply foldl_keeps_cancelling.
  - intros s0 Hc0. cbn. unfold cancelEnrichment. by rewrite Hc0.
Qed.

(** The run in flight is cancelled while a job result arrives: the failure
    is counted, and the cancellation resets the count. *)
Lemma cancellation_witness :
  let evs :=
    [Message 0 5 (Sample.runEvent "failed" "trun_b" [])] in
  let s' := stepRun (foldl stepRun (stepRun Sample.running Cancel) evs)
              CancelResume in
  (busy s' = false /\ pending s' = ∅)
  /\ esRef s' = None
  /\ currentTaskGroupId s' = None
  /\ lastEnrichTime s' = None
  /\ successCount s' = 0
  /\ errorCount s' = 0.
Proof.
  intros evs.
  destruct (cancellation_always_lands Sample.running evs eq_refl)
    as (Hidle & Hreset & _).
  split; [exact Hidle|]. apply Hreset.
  intros Hin. apply list_elem_of_singleton in Hin. discriminate Hin.
Defined.

(* ===================================================================== *)
(** * The shape of the grid                                               *)
(* ===================================================================== *)

Section Shape.

Implicit Types (d : Grid) (cells header : list (option Cell)).

Lemma filterIndexed_Forall {A} (P : A -> Prop) (keep : nat -> A -> bool)
    (xs : list A) : forall i,
  Forall P xs -> Forall P (Edit.filterIndexed keep i xs).
Proof.
  induction xs as [|x xs IH]; intros i Hxs; [constructor|].
  apply Forall_cons in Hxs as [Hx Hxs]. cbn.
  destruct (keep i x); [constructor|]; auto.
Qed.

(** Removing one index from a list without holes: one element less when the
    index is in range, the same list when it is not. *)
Lemma filterIndexed_column_length (col : Z) cells : forall i : nat,
  Forall is_Some cells ->
  length (Edit.filterIndexed
            (fun idx c => match c with
                          | Some _ => negb (Z.of_nat idx =? col)
                          | None => false
                          end) i cells)
  = (length cells
     - if ((Z.of_nat i <=? col) && (col <? Z.of_nat (i + length cells)))%Z
       then 1 else 0)%nat.
Proof.
  induction cells as [|c cells IH]; intros i Hsome.
  - cbn. by destruct ((Z.of_nat i <=? col) && _).
  - apply Forall_cons in Hsome as [[x ->] Hsome]. cbn [Edit.filterIndexed].
    destruct (Z.eqb_spec (Z.of_nat i) col) as [Hi|Hi]; cbn [negb length];
      rewrite (IH (S i) Hsome);
      destruct (Z.leb_spec (Z.of_nat (S i)) col),
               (Z.ltb_spec col (Z.of_nat (S i + length cells))),
               (Z.leb_spec (Z.of_nat i) col),
               (Z.ltb_spec col (Z.of_nat (i + S (length cells))));
      cbn [andb]; lia.
Qed.

Lemma filterIndexed_row_length {A} (r : Z) (xs : list A) : forall i : nat,
  (length xs - 1 <= length (Edit.filterIndexed
                              (fun idx _ => negb (Z.of_nat idx =? r)%Z) i xs))%nat.
Proof.
  induction xs as [|x xs IH]; intros i; [cbn; lia|].
  cbn [Edit.filterIndexed].
  destruct (Z.eqb_spec (Z.of_nat i) r) as [Hi|Hi]; cbn [negb length].
  - assert (Hrest : forall j (ys : list A), (i < j)%nat ->
              Edit.filterIndexed (fun idx _ => negb (Z.of_nat idx =? r)) j ys
              = ys).
    { intros j ys. revert j. induction ys as [|y ys IHy]; intros j Hj;
        [reflexivity|].
      cbn. destruct (Z.eqb_spec (Z.of_nat j) r); [lia|]. cbn.
      by rewrite IHy by lia. }
    rewrite Hrest by lia. lia.
  - specialize (IH (S i)). lia.
Qed.

(** Every row goes through the same change of width. *)
Lemma wellShaped_map (f : list (option Cell) -> list (option Cell)) d
    (width : nat) :
  wellShaped d ->
  (0 < width)%nat ->
  (forall header cells,
      d !! O = Some header -> length cells = length header ->
      Forall is_Some cells ->
      length (f cells) = width /\ Forall is_Some (f cells)) ->
  wellShaped (map f d).
Proof.
  intros (Hlen & header & Hh & Hne & Hrows) Hwidth Hf.
  assert (Hhead : length header = length header /\ Forall is_Some header).
  { rewrite Forall_forall in Hrows. apply Hrows.
    by eapply list_elem_of_lookup_2. }
  destruct (Hf header header Hh eq_refl (proj2 Hhead)) as [Hw _].
  split; [by rewrite length_map|].
  exists (f header). split; [|split].
  - change (map f d) with (f <$> d). by rewrite list_lookup_fmap, Hh.
  - intros Hnil. rewrite Hnil in Hw. cbn in Hw. lia.
  - change (map f d) with (f <$> d). apply Forall_fmap.
    eapply Forall_impl; [exact Hrows|]. intros cells [Hc Hs]. cbn.
    destruct (Hf header cells Hh Hc Hs) as [Hw' Hs']. split; [lia|exact Hs'].
Qed.

(** One row is replaced by a row of the same width. *)
Lemma wellShaped_insert d (i : nat) cells cells' :
  wellShaped d -> d !! i = Some cells ->
  length cells' = length cells -> Forall is_Some cells' ->
  wellShaped (<[i := cells']> d).
Proof.
  intros (Hlen & header & Hh & Hne & Hrows) Hi Hsame Hsome.
  assert (Hwidth : length cells = length header).
  { rewrite Forall_forall in Hrows.
    apply (Hrows cells). by eapply list_elem_of_lookup_2. }
  split; [by rewrite length_insert|].
  destruct i as [|i].
  - rewrite Hh in Hi. injection Hi as <-.
    exists cells'. split; [|split].
    + apply list_lookup_insert_eq. lia.
    + intros ->. destruct header; [congruence|discriminate].
    + apply Forall_insert; [|by split].
      eapply Forall_impl; [exact Hrows|]. intros c [Hc Hs].
      split; [congruence|exact Hs].
  - exists header. split; [|split].
    + by rewrite list_lookup_insert_ne.
    + exact Hne.
    + apply Forall_insert; [exact Hrows|]. split; [congruence|exact Hsome].
Qed.

Lemma foldl_applyEntry_shape hi headerLen r tHeaders tCols
    (obj : list (string * JSON)) : forall acc : Applied,
  (headerLen <= length (a_row acc))%nat -> Forall is_Some (a_row acc) ->
  length (a_row (foldl (applyEntry hi headerLen r tHeaders tCols) acc obj))
  = length (a_row acc)
  /\ Forall is_Some
       (a_row (foldl (applyEntry hi headerLen r tHeaders tCols) acc obj)).
Proof.
  induction obj as [|kv obj IH]; intros acc Hlen Hsome; [by split|].
  cbn [foldl]. rewrite applyEntry_hit.
  destruct (hitOf hi headerLen tHeaders tCols kv) as [col|] eqn:Hhit;
    [|by apply IH].
  assert (Hcol : (Z.to_nat col < length (a_row acc))%nat).
  { unfold hitOf in Hhit. destruct (resolve _ _ _ _) as [c|]; [|discriminate].
    destruct ((0 <=? c) && (c <? Z.of_nat headerLen)) eqn:Hin; [|discriminate].
    injection Hhit as <-. lia. }
  set (acc' := {| a_row := _; a_pending := _; a_success := _ |}).
  assert (Hrow' : a_row acc'
                  = <[Z.to_nat col := Some (withValue
                        (cellAt (a_row acc) (Z.to_nat col)) kv.2)]> (a_row acc)).
  { subst acc'. cbn. unfold array_set.
    by rewrite (proj2 (Nat.ltb_lt _ _) Hcol). }
  destruct (IH acc') as [Hl Hs].
  - rewrite Hrow', length_insert. exact Hlen.
  - rewrite Hrow'. by apply Forall_insert.
  - split; [|exact Hs]. by rewrite Hl, Hrow', length_insert.
Qed.

Lemma applyRowResult_shape hi r content tHeaders tCols s :
  wellShaped (data s) ->
  wellShaped (data (applyRowResult hi r content tHeaders tCols s)).
Proof.
  intros Hshape. unfold applyRowResult. cbv zeta.
  destruct r as [i|]; [|exact Hshape]. cbn [mbind option_bind].
  destruct (at_ (data s) i) as [cells|] eqn:Hrow; [|exact Hshape].
  cbn. unfold at_ in Hrow. destruct (i <? 0); [discriminate|].
  pose proof Hshape as (_ & header & Hh & _ & Hrows).
  rewrite Hh. cbn [default].
  assert (Hcells : length cells = length header /\ Forall is_Some cells).
  { rewrite Forall_forall in Hrows. apply Hrows.
    by eapply list_elem_of_lookup_2. }
  destruct (foldl_applyEntry_shape hi (length header) (Some i) tHeaders tCols
              (if is_plain_object content then entries content else [])
              {| a_row := cells; a_pending := pending s;
                 a_success := successCount s |}) as [Hl Hs].
  - cbn. lia.
  - exact (proj2 Hcells).
  - by apply (wellShaped_insert _ _ cells).
Qed.

Lemma handleEventData_shape cl run_map rid now obj s :
  wellShaped (data s) ->
  wellShaped (data (handleEventData cl run_map rid now obj s)).
Proof.
  intros Hshape. unfold handleEventData. cbv zeta.
  destruct (is_str _ "task_run.state" || is_str _ "task_run").
  - destruct (is_str _ "completed" && _).
    + destruct (outOf _); [|exact Hshape].
      destruct (lookupRun _ _); try exact Hshape;
        by apply applyRowResult_shape.
    + destruct (is_str _ "failed"); [|exact Hshape].
      by destruct (lookupRun _ _).
  - destruct (is_str _ "task_group_status"); [|exact Hshape].
    by destruct (is_false _).
Qed.

Lemma step_shape (s : State) (e : Event) :
  wellShaped (data s) -> wellShaped (data (step s e)).
Proof.
  intros Hshape. destruct e as [r|now|[i resp|i now obj|i|i| |]];
    cbn [step stepRun].
  - by destruct (busy s).
  - unfold enrich. destruct (range s); [|exact Hshape]. by destruct (busy s).
  - unfold enrichResume. destruct (runs s !! i); [|exact Hshape].
    destruct (bool_decide _); [|exact Hshape]. by destruct resp as [[g rm]|].
  - destruct (runs s !! i); [|exact Hshape].
    destruct (bool_decide _); [|exact Hshape]. by apply handleEventData_shape.
  - destruct (runs s !! i); [|exact Hshape]. by destruct (bool_decide _).
  - destruct (runs s !! i); [|exact Hshape]. by destruct (bool_decide _).
  - unfold cancelEnrichment. by destruct (cancellable s).
  - unfold cancelResume. destruct (cancelling s) as [|n]; [exact Hshape|].
    cbv zeta. change (esRef (setCancelling n s)) with (esRef s).
    by destruct (esRef s).
Qed.

Lemma addColumn_shape (s : State) :
  wellShaped (data s) -> wellShaped (data (Edit.addColumn s)).
Proof.
  intros Hshape. unfold Edit.addColumn. cbn.
  pose proof Hshape as (_ & header & Hh & _ & _).
  apply (wellShaped_map _ _ (length header + 1)); [exact Hshape|lia|].
  intros header' cells Hh' Hc Hs. rewrite Hh in Hh'. injection Hh' as <-.
  rewrite length_app. cbn. split; [lia|].
  apply Forall_app. split; [exact Hs|]. by repeat constructor.
Qed.

Lemma addRow_shape (s : State) :
  wellShaped (data s) -> wellShaped (data (Edit.addRow s)).
Proof.
  intros (Hlen & header & Hh & Hne & Hrows).
  change (data (Edit.addRow s))
    with (data s
          ++ [replicate
                (if (length (default [] (data s !! O)) =? 0)%nat then 5%nat
                 else length (default [] (data s !! O)))
                (Some Edit.emptyCell)]).
  rewrite Hh. cbn [default from_option id].
  assert (Hw : (length header =? 0)%nat = false).
  { apply Nat.eqb_neq. destruct header; [congruence|discriminate]. }
  rewrite Hw. split; [rewrite length_app; lia|].
  exists header. split; [by apply lookup_app_l_Some|]. split; [exact Hne|].
  apply Forall_app. split; [exact Hrows|].
  repeat constructor; [by rewrite length_replicate|].
  apply Forall_replicate. by eexists.
Qed.

Lemma deleteColumn_shape (s : State) :
  wellShaped (data s) -> wellShaped (data (Edit.deleteColumn s)).
Proof.
  intros Hshape. unfold Edit.deleteColumn.
  destruct (range s) as [r|]; [|exact Hshape].
  destruct (data s !! O) as [header|] eqn:Hh; [|exact Hshape].
  destruct (length header <=? 1)%nat eqn:Hw; [exact Hshape|].
  apply Nat.leb_gt in Hw. cbn.
  apply (wellShaped_map _ _
           (length header
            - if ((Z.of_nat 0 <=? column (start r))
                  && (column (start r) <? Z.of_nat (0 + length header)))%Z
              then 1 else 0)%nat); [exact Hshape| |].
  - destruct (_ && _); lia.
  - intros header' cells Hh' Hc Hs. rewrite Hh in Hh'. injection Hh' as <-.
    split.
    + by rewrite filterIndexed_column_length, Hc.
    + by apply filterIndexed_Forall.
Qed.

Lemma deleteRow_shape (s : State) :
  wellShaped (data s) -> wellShaped (data (Edit.deleteRow s)).
Proof.
  intros Hshape. unfold Edit.deleteRow.
  destruct (range s) as [r|]; [|exact Hshape].
  destruct (row (start r) =? 0) eqn:Hr0; [exact Hshape|].
  destruct (length (data s) <=? 2)%nat eqn:Hl; [exact Hshape|].
  apply Nat.leb_gt in Hl. cbn.
  destruct Hshape as (_ & header & Hh & Hne & Hrows).
  split.
  { pose proof (filterIndexed_row_length (row (start r)) (data s) 0). lia. }
  exists header. split; [|split; [exact Hne|]].
  - destruct (data s) as [|h rest]; [discriminate|]. cbn in Hh.
    injection Hh as ->. apply Z.eqb_neq in Hr0.
    cbn [Edit.filterIndexed].
    destruct (Z.eqb_spec (Z.of_nat 0) (row (start r))); [lia|reflexivity].
  - by apply filterIndexed_Forall.
Qed.

Lemma ui_shape (s : State) (e : Edit.UiEvent) :
  wellShaped (data s) -> wellShaped (data (Edit.ui s e)).
Proof.
  intros Hshape. destruct e as [mod_ eKey now| |]; cbn [Edit.ui].
  - unfold Edit.keydown. cbv zeta. destruct (busy s) eqn:Hb.
    { by destruct (String.eqb _ "escape"). }
    destruct (mod_ && String.eqb _ "k"); [by apply addColumn_shape|].
    destruct (mod_ && String.eqb _ "j"); [by apply addRow_shape|].
    destruct (mod_ && String.eqb _ "enter").
    { destruct (range s); [|exact Hshape].
      by apply (step_shape s (Enrich now)). }
    destruct (mod_ && String.eqb _ "backspace").
    { destruct (range s) as [r|] eqn:Hr; [|exact Hshape].
      destruct (data s !! O) eqn:Hh; [|exact Hshape].
      destruct (_ && _ && _); [by apply deleteColumn_shape|].
      destruct (_ && _ && _ && _); [by apply deleteRow_shape|exact Hshape]. }
    by destruct (String.eqb _ "escape").
  - destruct (busy s); [exact Hshape|by apply addColumn_shape].
  - destruct (busy s); [exact Hshape|by apply addRow_shape].
Qed.

End Shape.

(** Whatever the user and the stream do, in whatever order, a grid that
    starts with a header row that is not empty, a data row, rows of one
    width and no holes stays that way: no operation makes a ragged row or a
    hole, removes the header row, the last data row or the last column. *)
Theorem grid_keeps_its_shape :
  forall (d : Grid) (acts : list Edit.Action),
    wellShaped d -> wellShaped (data (foldl Edit.act (initial d) acts)).
Proof.
  intros d acts Hd.
  assert (Hall : forall acts s, wellShaped (data s) ->
                                wellShaped (data (foldl Edit.act s acts))).
  { clear. induction acts as [|a acts IH]; intros s Hs; [exact Hs|].
    cbn [foldl]. apply IH. destruct a as [e|e]; cbn [Edit.act].
    - by apply step_shape.
    - by apply ui_shape. }
  by apply Hall.
Qed.

(** Two columns are added, a run is started from the keyboard and answers,
    a row is added: the grid has its shape. *)
Lemma grid_keeps_its_shape_witness :
  wellShaped Sample.grid
  /\ wellShaped
       (data (foldl Edit.act (initial Sample.grid)
                [Edit.Ui Edit.ClickAddColumn;
                 Edit.Ui (Edit.KeyDown true "k" 0);
                 Edit.Page (Select Sample.block);
                 Edit.Ui (Edit.KeyDown true "Enter" 1);
                 Edit.Page (During (Response 0 (Some ("tgrp_1", Sample.table))));
                 Edit.Page (During (Message 0 5
                   (Sample.runEvent "completed" "trun_a"
                      [("output", JObj [("Stage", JStr "Seed")])])));
                 Edit.Page (During (Message 0 9 (Sample.groupStatus false)));
                 Edit.Ui Edit.ClickAddRow])).
Proof.
  assert (Hgrid : wellShaped Sample.grid).
  { split; [cbn; lia|]. eexists. split; [reflexivity|]. split; [discriminate|].
    repeat constructor; by eexists. }
  split; [exact Hgrid|]. by apply grid_keeps_its_shape.
Defined.

(** While a run is busy the user cannot change the grid or start another
    run: a key or a button leaves the state as it is, or at most clears the
    selection (Escape); selecting and the Enrich command do nothing. *)
Theorem busy_freezes_the_page :
  forall s : State,
    busy s = true ->
    (forall e, Edit.ui s e = s \/ Edit.ui s e = setRange None s)
    /\ (forall r, step s (Select r) = s)
    /\ (forall now, step s (Enrich now) = s).
Proof.
  intros s Hb. split; [|split].
  - intros [mod_ eKey now| |]; cbn [Edit.ui]; rewrite ?Hb; [|by left..].
    unfold Edit.keydown. cbv zeta. rewrite Hb.
    destruct (String.eqb _ "escape"); [by right|by left].
  - intros r. cbn. by rewrite Hb.
  - intros now. cbn. unfold enrich. rewrite Hb. by destruct (range s).
Qed.

(** With the sample run in flight, Cmd-K adds no column. *)
Lemma busy_freezes_witness :
  Edit.ui Sample.running (Edit.KeyDown true "k" 7) = Sample.running
  \/ Edit.ui Sample.running (Edit.KeyDown true "k" 7)
     = setRange None Sample.running.
Proof.
  exact (proj1 (busy_freezes_the_page Sample.running eq_refl)
           (Edit.KeyDown true "k" 7)).
Defined.

(* ===================================================================== *)
(** * The streaming transport: reads, frames and the consumer             *)
(* ===================================================================== *)

Section SplitFacts.

Variable sep : string.

Implicit Types (s x y cur : string) (k : nat).

Lemma append_nil_r s : s +:+ "" = s.
Proof.
  induction s as [|c s IH]; [reflexivity|].
  by rewrite append_cons, IH.
Qed.

Lemma append_assoc s x y : (s +:+ x) +:+ y = s +:+ (x +:+ y).
Proof.
  induction s as [|c s IH]; [reflexivity|].
  by rewrite !append_cons, IH.
Qed.

Lemma rev_app_append s : forall x,
  String.rev_app s x = String.rev_app s "" +:+ x.
Proof.
  induction s as [|c s IH]; intros x; simpl; [reflexivity|].
  rewrite IH, (IH (String c "")), append_assoc. reflexivity.
Qed.

Lemma rev_cons c s : String.rev (String c s) = String.rev s +:+ String c "".
Proof. unfold String.rev. simpl. apply rev_app_append. Qed.

Lemma prefix_length s : forall x,
  String.prefix s x = true -> (String.length s <= String.length x)%nat.
Proof.
  induction s as [|c s IH]; intros [|d x] H; simpl in *;
    [lia|lia|discriminate|].
  destruct (ascii_dec c d); [|discriminate]. apply IH in H. lia.
Qed.

Lemma prefix_append s : forall x y,
  String.prefix s x = true -> String.prefix s (x +:+ y) = true.
Proof.
  induction s as [|c s IH]; intros [|d x] y H;
    rewrite ?append_nil_l, ?append_cons; simpl in *;
    [by destruct y|reflexivity|discriminate|].
  destruct (ascii_dec c d); [|discriminate]. by apply IH.
Qed.

(** A separator that matches across the end of [x] is longer than [x]. *)
Lemma prefix_straddles s : forall x y,
  String.prefix s (x +:+ y) = true -> String.prefix s x = false ->
  (String.length x < String.length s)%nat.
Proof.
  induction s as [|c s IH]; intros [|d x] y H Hx;
    rewrite ?append_nil_l, ?append_cons in H; simpl in *;
    [discriminate|discriminate|lia|].
  destruct (ascii_dec c d); [|discriminate].
  specialize (IH x y H Hx). lia.
Qed.

Lemma split_go_nonempty s : forall k cur, split_go sep k cur s <> [].
Proof.
  induction s as [|c s IH]; intros k cur; [discriminate|].
  cbn [split_go]. destruct k; [|apply IH].
  destruct (String.prefix sep (String c s)); [discriminate|apply IH].
Qed.

(** The current piece is a prefix of the first piece still to come. *)
Lemma split_go_cur s : forall cur,
  split_go sep 0 cur s
  = match split_go sep 0 "" s with
    | p :: ps => (String.rev cur +:+ p) :: ps
    | [] => []
    end.
Proof.
  induction s as [|c s IH]; intros cur.
  - simpl. by rewrite append_nil_r.
  - cbn [split_go]. destruct (String.prefix sep (String c s)).
    + by rewrite append_nil_r.
    + rewrite (IH (String c cur)), (IH (String c "")).
      destruct (split_go sep 0 "" s) as [|p ps]; [reflexivity|].
      rewrite rev_cons, append_assoc. reflexivity.
Qed.

(** A string in which the separator does not occur is its only piece. *)
Lemma split_go_single s : forall cur p,
  split_go sep 0 cur s = [p] -> p = String.rev cur +:+ s.
Proof.
  induction s as [|c s IH]; intros cur p.
  - simpl. intros [= <-]. by rewrite append_nil_r.
  - cbn [split_go]. destruct (String.prefix sep (String c s)).
    + intros [= _ H]. by apply split_go_nonempty in H.
    + intros H. apply IH in H. rewrite H, rev_cons, append_assoc. reflexivity.
Qed.

Lemma split_go_short s : forall cur,
  (String.length s < String.length sep)%nat ->
  split_go sep 0 cur s = [String.rev cur +:+ s].
Proof.
  induction s as [|c s IH]; intros cur Hlen.
  - simpl. by rewrite append_nil_r.
  - cbn [split_go]. destruct (String.prefix sep (String c s)) eqn:Hp.
    + apply prefix_length in Hp. lia.
    + rewrite IH by (simpl in Hlen; lia).
      by rewrite rev_cons, append_assoc.
Qed.

(** Splitting a text that arrives in two parts: the pieces the first part
    completes, then the pieces of its last piece followed by the second
    part. *)
Lemma split_go_append x : forall k y,
  (k <= String.length x)%nat ->
  split_go sep k "" (x +:+ y)
  = removelast (split_go sep k "" x)
    ++ split sep (List.last (split_go sep k "" x) "" +:+ y).
Proof.
  induction x as [|c x IH]; intros k y Hk.
  - simpl in Hk. assert (k = O) as -> by lia. reflexivity.
  - rewrite append_cons. destruct k as [|k].
    + cbn [split_go]. destruct (String.prefix sep (String c x)) eqn:Hp.
      * pose proof (prefix_append _ _ y Hp) as Hp'.
        rewrite append_cons in Hp'. rewrite Hp'.
        pose proof (prefix_length _ _ Hp) as Hlen. simpl in Hlen.
        rewrite IH by lia.
        pose proof (split_go_nonempty x (String.length sep - 1) "") as Hne.
        destruct (split_go sep (String.length sep - 1) "" x) as [|p ps];
          [done|]. reflexivity.
      * rewrite (split_go_cur x).
        destruct (split_go sep 0 "" x) as [|p ps] eqn:Hx;
          [by apply split_go_nonempty in Hx|].
        destruct ps as [|q qs].
        -- apply split_go_single in Hx. rewrite append_nil_l in Hx. subst p.
           cbn [removelast List.last app]. unfold split.
           change (String.rev (String c "")) with (String c "").
           rewrite append_cons, append_nil_l, append_cons. reflexivity.
        -- destruct (String.prefix sep (String c (x +:+ y))) eqn:Hp'.
           { rewrite <- append_cons in Hp'.
             pose proof (prefix_straddles _ _ _ Hp' Hp) as Hlen.
             rewrite split_go_short in Hx by (simpl in Hlen; lia).
             discriminate. }
           rewrite (split_go_cur (x +:+ y)), (IH 0%nat y) by lia.
           rewrite Hx. reflexivity.
    + cbn [split_go]. simpl in Hk. apply IH. lia.
Qed.

Lemma split_append x y :
  split sep (x +:+ y)
  = removelast (split sep x) ++ split sep (List.last (split sep x) "" +:+ y).
Proof. apply split_go_append. lia. Qed.

Lemma split_nonempty s : split sep s <> [].
Proof. apply split_go_nonempty. Qed.

End SplitFacts.

Section StreamFacts.

Variable JSON_parse : string -> option JSON.
Variable JSON_stringify : JSON -> string.
Variable fetchRunResult : nat -> string -> JSON.
Variable alive : nat -> bool.

Local Abbreviation parseFrame := (Route.parseFrame JSON_parse).
Local Abbreviation processEvent :=
  (Route.processEvent JSON_parse JSON_stringify fetchRunResult alive).
Local Abbreviation processEvents :=
  (Route.processEvents JSON_parse JSON_stringify fetchRunResult alive).
Local Abbreviation pump :=
  (Route.pump JSON_parse JSON_stringify fetchRunResult alive).

Lemma processEvents_app (l1 l2 : list string) : forall t b,
  processEvents (l1 ++ l2) t b
  = match processEvents l1 t b with
    | Route.Next t' b' => processEvents l2 t' b'
    | Route.Return t' => Route.Return t'
    end.
Proof.
  induction l1 as [|e l1 IH]; intros t b; [reflexivity|].
  cbn [app Route.processEvents].
  destruct (processEvent e t b); [apply IH|reflexivity].
Qed.

Lemma enqueueOrReturn_flag chunk t b t' b' :
  Route.enqueueOrReturn alive chunk t b = Route.Next t' b' -> b' = b.
Proof.
  unfold Route.enqueueOrReturn. destruct (Route.safeEnqueue alive chunk t);
    [|discriminate]. by intros [= _ <-].
Qed.

(** [shouldExit] is raised by a group-inactive frame and by nothing else. *)
Lemma processEvent_flag (e : string) t b t' b' :
  processEvent e t b = Route.Next t' b' ->
  b' = b || nonblank e && Route.groupDone (parseFrame e).
Proof.
  unfold Route.processEvent, nonblank.
  destruct (String.eqb (trim e) "").
  - intros [= _ <-]. cbn. by rewrite orb_false_r.
  - cbn [negb andb]. cbv zeta.
    destruct (Route.needsResult (parseFrame e)) eqn:Hneeds.
    + assert (Hgd : Route.groupDone (parseFrame e) = false).
      { destruct (Route.groupDone (parseFrame e)) eqn:Hgd; [|reflexivity].
        apply groupDone_excludes_needsResult in Hgd. congruence. }
      rewrite Hgd, orb_false_r.
      destruct (get (Some (fetchRunResult _ _)) "output") as [output|];
        [destruct (truthy output)|]; apply enqueueOrReturn_flag.
    + destruct (Route.groupDone (parseFrame e)); intros H;
        apply enqueueOrReturn_flag in H; subst b';
        by rewrite ?orb_true_r, ?orb_false_r.
Qed.

Lemma processEvents_flag (events : list string) : forall t b t' b',
  processEvents events t b = Route.Next t' b' ->
  b' = b || existsb (fun e => nonblank e && Route.groupDone (parseFrame e))
                    events.
Proof.
  induction events as [|e events IH]; intros t b t' b'.
  - intros [= _ <-]. cbn. by rewrite orb_false_r.
  - cbn [Route.processEvents existsb].
    destruct (processEvent e t b) as [t1 b1|] eqn:He; [|discriminate].
    intros H. apply IH in H. apply processEvent_flag in He.
    rewrite H, He. by rewrite orb_assoc.
Qed.

(** A read whose frames hold no group-inactive status and the read after it
    can be taken as one. *)
Lemma pump_two_reads (buffer a b : string) (rest : list Route.Read)
    (t : Route.Trace) :
  (forall e, e ∈ completeFrames (buffer +:+ a) -> nonblank e = true ->
             Route.groupDone (parseFrame e) = false) ->
  pump (Route.Chunk a :: Route.Chunk b :: rest) buffer t
  = pump (Route.Chunk (a +:+ b) :: rest) buffer t.
Proof.
  intros Hgd. cbn [Route.pump]. cbv zeta.
  rewrite <- (append_assoc buffer a b), (split_append _ (buffer +:+ a) b).
  fold (completeFrames (buffer +:+ a)).
  rewrite removelast_app by apply split_nonempty.
  rewrite processEvents_app.
  destruct (processEvents (completeFrames (buffer +:+ a)) t false)
    as [t1 b1|t1] eqn:Hrun; [|reflexivity].
  apply processEvents_flag in Hrun. cbn [orb] in Hrun.
  assert (b1 = false) as ->.
  { rewrite Hrun. apply not_true_iff_false. intros Hex.
    apply existsb_exists in Hex as (e & He & Hb).
    apply andb_true_iff in Hb as [Hnb Hd].
    apply list_elem_of_In in He. rewrite (Hgd e He Hnb) in Hd. discriminate. }
  pose proof (split_nonempty (nl +:+ nl)
                (List.last (split (nl +:+ nl) (buffer +:+ a)) "" +:+ b)) as Hne.
  destruct (processEvents _ t1 false) as [t2 b2|t2]; [|reflexivity].
  destruct b2; [reflexivity|].
  f_equal.
  destruct (split (nl +:+ nl)
              (List.last (split (nl +:+ nl) (buffer +:+ a)) "" +:+ b))
    as [|p ps] eqn:Hs; [done|].
  rewrite (app_removelast_last "" (l := p :: ps)) at 2 by done.
  rewrite app_assoc. by rewrite List.last_last.
Qed.

End StreamFacts.

Lemma completeFrames_append (x y : string) :
  completeFrames (x +:+ y)
  = completeFrames x
    ++ completeFrames (List.last (split (nl +:+ nl) x) "" +:+ y).
Proof.
  unfold completeFrames. rewrite split_append.
  apply removelast_app, split_nonempty.
Qed.

Section ConsumerFacts.

Variable JSON_parse : string -> option JSON.
Variable JSON_stringify : JSON -> string.
Variable fetchRunResult : nat -> string -> JSON.
Variable alive : nat -> bool.

Local Abbreviation parseFrame := (Route.parseFrame JSON_parse).
Local Abbreviation processEvent :=
  (Route.processEvent JSON_parse JSON_stringify fetchRunResult alive).
Local Abbreviation processEvents :=
  (Route.processEvents JSON_parse JSON_stringify fetchRunResult alive).
Local Abbreviation pump :=
  (Route.pump JSON_parse JSON_stringify fetchRunResult alive).

(** Reads that complete no group-inactive frame can be taken as one read. *)
Lemma pump_one_read (texts : list string) : forall (a : string) t,
  (forall e, e ∈ completeFrames (a +:+ textOf texts) -> nonblank e = true ->
             Route.groupDone (parseFrame e) = false) ->
  pump (Route.Chunk a :: (Route.Chunk <$> texts)) "" t
  = pump [Route.Chunk (a +:+ textOf texts)] "" t.
Proof.
  induction texts as [|b texts IH]; intros a t Hgd.
  - cbn [textOf foldr fmap list_fmap]. by rewrite append_nil_r.
  - cbn [textOf foldr] in *. fold (textOf texts) in *.
    change (Route.Chunk <$> b :: texts)
      with (Route.Chunk b :: (Route.Chunk <$> texts)).
    rewrite pump_two_reads.
    + rewrite IH; [by rewrite append_assoc|].
      intros e He. apply Hgd. by rewrite <- append_assoc.
    + intros e He. apply Hgd. rewrite append_nil_l in He.
      rewrite completeFrames_append. apply elem_of_app. by left.
Qed.

(** With the consumer connected, frames that need no result are forwarded
    as they are and cost no fetch. *)
Lemma processEvents_verbatim (events : list string) :
  (forall n, alive n = true) ->
  (forall e, e ∈ events -> nonblank e = true ->
             Route.needsResult (parseFrame e) = false) ->
  forall t b,
    processEvents events t b
    = Route.Next
        {| Route.emitted :=
             Route.emitted t
             ++ ((fun e => e +:+ nl +:+ nl) <$> filter nonblank events);
           Route.fetched := Route.fetched t |}
        (b || existsb (fun e => nonblank e && Route.groupDone (parseFrame e))
                      events).
Proof.
  intros Halive. induction events as [|e events IH]; intros Hneeds t b.
  - cbn. rewrite app_nil_r, orb_false_r. by destruct t.
  - cbn [Route.processEvents existsb]. rewrite filter_cons.
    assert (Hrest : forall e', e' ∈ events -> nonblank e' = true ->
                               Route.needsResult (parseFrame e') = false).
    { intros e' He'. apply Hneeds. by apply list_elem_of_further. }
    specialize (Hneeds e (list_elem_of_here _ _)).
    unfold Route.processEvent.
    assert (Hb : String.eqb (trim e) "" = negb (nonblank e))
      by (unfold nonblank; by rewrite negb_involutive).
    rewrite Hb. clear Hb. destruct (nonblank e) eqn:Hnb.
    + cbn [negb andb]. cbv zeta. rewrite decide_True by exact I.
      rewrite (Hneeds eq_refl).
      destruct (Route.groupDone (parseFrame e));
        rewrite enqueue_alive by apply Halive; rewrite IH by exact Hrest;
        cbn [Route.emitted Route.fetched fmap list_fmap];
        rewrite <- app_assoc; cbn [app];
        by rewrite ?orb_true_r, ?orb_false_r, ?orb_true_l.
    + cbn [negb andb orb]. rewrite decide_False by (intros []).
      by apply IH.
Qed.

Lemma enqueueOrReturn_grows chunk t b :
  match Route.enqueueOrReturn alive chunk t b with
  | Route.Next t' _ | Route.Return t' =>
      Route.emitted t `prefix_of` Route.emitted t'
      /\ Route.fetched t `prefix_of` Route.fetched t'
  end.
Proof.
  unfold Route.enqueueOrReturn, Route.safeEnqueue.
  destruct (alive _); cbn; split; try reflexivity. by apply prefix_app_r.
Qed.

Lemma processEvent_grows e t b :
  match processEvent e t b with
  | Route.Next t' _ | Route.Return t' =>
      Route.emitted t `prefix_of` Route.emitted t'
      /\ Route.fetched t `prefix_of` Route.fetched t'
  end.
Proof.
  unfold Route.processEvent. destruct (String.eqb (trim e) ""); [done|].
  cbv zeta. destruct (Route.needsResult (parseFrame e)).
  - set (runId := match get _ "run_id" with Some v => toString v | None => "" end).
    assert (Hfetch : forall chunk,
      match Route.enqueueOrReturn alive chunk (Route.recordFetch runId t) b with
      | Route.Next t' _ | Route.Return t' =>
          Route.emitted t `prefix_of` Route.emitted t'
          /\ Route.fetched t `prefix_of` Route.fetched t'
      end).
    { intros chunk.
      pose proof (enqueueOrReturn_grows chunk (Route.recordFetch runId t) b) as H.
      destruct (Route.enqueueOrReturn _ _ _ _); cbn in H;
        (split; [apply H|]); (etrans; [|apply H]); by apply prefix_app_r. }
    destruct (get (Some (fetchRunResult _ _)) "output") as [output|];
      [destruct (truthy output)|]; apply Hfetch.
  - destruct (Route.groupDone (parseFrame e)); apply enqueueOrReturn_grows.
Qed.

Lemma processEvents_grows events : forall t b,
  match processEvents events t b with
  | Route.Next t' _ | Route.Return t' =>
      Route.emitted t `prefix_of` Route.emitted t'
      /\ Route.fetched t `prefix_of` Route.fetched t'
  end.
Proof.
  induction events as [|e events IH]; intros t b; [done|].
  cbn [Route.processEvents]. pose proof (processEvent_grows e t b) as He.
  destruct (processEvent e t b) as [t1 b1|t1]; [|exact He].
  specialize (IH t1 b1).
  destruct (processEvents events t1 b1); (split; etrans; [apply He|apply IH|apply He|apply IH]).
Qed.

Lemma pump_grows reads : forall buffer t,
  Route.emitted t `prefix_of` Route.emitted (pump reads buffer t).1
  /\ Route.fetched t `prefix_of` Route.fetched (pump reads buffer t).1.
Proof.
  induction reads as [|[text|] reads IH]; intros buffer t; [done| |done].
  cbn [Route.pump]. cbv zeta.
  pose proof (processEvents_grows
                (removelast (split (nl +:+ nl) (buffer +:+ text))) t false) as H.
  destruct (processEvents _ t false) as [t1 b1|t1]; [|exact H].
  destruct b1; [exact H|].
  specialize (IH (List.last (split (nl +:+ nl) (buffer +:+ text)) "") t1).
  split; (etrans; [apply H|apply IH]).
Qed.

(** Once an enqueue would fail nothing more is enqueued, and at most one
    result is fetched before the transport gives up. *)
Lemma processEvent_gone e t b :
  alive (length (Route.emitted t)) = false ->
  match processEvent e t b with
  | Route.Next t' b' => t' = t /\ b' = b
  | Route.Return t' =>
      Route.emitted t' = Route.emitted t
      /\ (Route.fetched t' = Route.fetched t
          \/ exists runId, Route.fetched t' = Route.fetched t ++ [runId])
  end.
Proof.
  intros Hgone. unfold Route.processEvent.
  destruct (String.eqb (trim e) ""); [done|]. cbv zeta.
  assert (Hreturn : forall chunk b0,
            Route.enqueueOrReturn alive chunk t b0 = Route.Return t).
  { intros chunk b0. unfold Route.enqueueOrReturn, Route.safeEnqueue.
    by rewrite Hgone. }
  destruct (Route.needsResult (parseFrame e)).
  - set (runId := match get _ "run_id" with Some v => toString v | None => "" end).
    assert (Hfetch : forall chunk,
              Route.enqueueOrReturn alive chunk (Route.recordFetch runId t) b
              = Route.Return (Route.recordFetch runId t)).
    { intros chunk. unfold Route.enqueueOrReturn, Route.safeEnqueue.
      cbn [Route.recordFetch Route.emitted]. by rewrite Hgone. }
    destruct (get (Some (fetchRunResult _ _)) "output") as [output|];
      [destruct (truthy output)|]; rewrite Hfetch; cbn;
      (split; [reflexivity|right; by exists runId]).
  - destruct (Route.groupDone (parseFrame e)); rewrite Hreturn; by split; [|left].
Qed.

Lemma processEvents_gone events : forall t b,
  alive (length (Route.emitted t)) = false ->
  match processEvents events t b with
  | Route.Next t' b' => t' = t /\ b' = b
  | Route.Return t' =>
      Route.emitted t' = Route.emitted t
      /\ (Route.fetched t' = Route.fetched t
          \/ exists runId, Route.fetched t' = Route.fetched t ++ [runId])
  end.
Proof.
  induction events as [|e events IH]; intros t b Hgone; [done|].
  cbn [Route.processEvents]. pose proof (processEvent_gone e t b Hgone) as He.
  destruct (processEvent e t b) as [t1 b1|t1]; [|exact He].
  destruct He as [-> ->]. by apply IH.
Qed.

End ConsumerFacts.

(** The boundaries of the upstream's reads are invisible.  As long as the
    upstream text completes no group-inactive status frame, [GET] answers a
    text that arrives in any number of reads as it answers the same text
    arriving in one: the same chunks reach the consumer, the same results
    are fetched and the stream ends the same way, whether the consumer stays
    connected or not and whatever the fetches bring. *)
Theorem read_boundaries_do_not_matter :
  forall (JSON_parse : string -> option JSON) (JSON_stringify : JSON -> string)
         (fetchRunResult : nat -> string -> JSON) (alive : nat -> bool)
         (apiKey : bool) (taskgroup_id : option string) (texts : list string),
    (forall e, e ∈ completeFrames (textOf texts) -> nonblank e = true ->
               Route.groupDone (Route.parseFrame JSON_parse e) = false) ->
    Route.GET JSON_parse JSON_stringify fetchRunResult alive
      apiKey taskgroup_id (Some (Route.Chunk <$> texts))
    = Route.GET JSON_parse JSON_stringify fetchRunResult alive
        apiKey taskgroup_id (Some [Route.Chunk (textOf texts)]).
Proof.
  intros JSON_parse JSON_stringify fetchRunResult alive apiKey taskgroup_id
         texts Hgd.
  unfold Route.GET. destruct apiKey; [|reflexivity]. cbn [negb].
  destruct taskgroup_id as [[|c id]|]; try reflexivity. cbv zeta.
  destruct texts as [|a texts]; [reflexivity|].
  change (Route.Chunk <$> a :: texts)
    with (Route.Chunk a :: (Route.Chunk <$> texts)).
  by rewrite pump_one_read.
Qed.

(** Two frames in two reads that cut the second frame in two: the consumer
    receives what it receives when they come in one read. *)
Lemma read_boundaries_witness :
  Route.GET Sample.parse Sample.stringify Sample.fetch Sample.connected
    true (Some "tgrp_1")
    (Some (Route.Chunk <$> [Sample.firstRead; Sample.secondRead]))
  = Route.GET Sample.parse Sample.stringify Sample.fetch Sample.connected
      true (Some "tgrp_1")
      (Some [Route.Chunk (textOf [Sample.firstRead; Sample.secondRead])]).
Proof.
  apply (read_boundaries_do_not_matter Sample.parse Sample.stringify
           Sample.fetch Sample.connected true (Some "tgrp_1")
           [Sample.firstRead; Sample.secondRead]).
  assert (Hframes : completeFrames (textOf [Sample.firstRead; Sample.secondRead])
                    = [Sample.failedFrame; Sample.completedFrame])
    by (vm_compute; reflexivity).
  rewrite Hframes. intros e He _.
  repeat (apply elem_of_cons in He as [->|He]);
    [vm_compute; reflexivity..|by apply elem_of_nil in He].
Defined.

(** What the consumer of the event stream receives when the upstream holds
    neither a completed run without output nor a group-inactive status: the
    keep-alive comment, then every complete frame of the upstream text that
    is not blank, as it is and in order, however the text was cut into
    reads.  No result is fetched, the text behind the last blank line is
    dropped, and the stream is closed when the upstream ends. *)
Theorem stream_is_forwarded_verbatim :
  forall (JSON_parse : string -> option JSON) (JSON_stringify : JSON -> string)
         (fetchRunResult : nat -> string -> JSON) (alive : nat -> bool)
         (taskgroup_id : string) (texts : list string),
    taskgroup_id <> "" ->
    (forall n, alive n = true) ->
    let frames := completeFrames (textOf texts) in
    (forall e, e ∈ frames -> nonblank e = true ->
               Route.needsResult (Route.parseFrame JSON_parse e) = false
               /\ Route.groupDone (Route.parseFrame JSON_parse e) = false) ->
    Route.GET JSON_parse JSON_stringify fetchRunResult alive
      true (Some taskgroup_id) (Some (Route.Chunk <$> texts))
    = Route.EventStream
        {| Route.emitted :=
             (": keep-alive" +:+ nl +:+ nl)
             :: ((fun e => e +:+ nl +:+ nl) <$> filter nonblank frames);
           Route.fetched := [] |}
        Route.Closed.
Proof.
  intros JSON_parse JSON_stringify fetchRunResult alive taskgroup_id texts
         Hid Halive frames Hframes.
  unfold Route.GET. cbn [negb]. destruct taskgroup_id as [|c id]; [done|].
  cbv zeta.
  assert (Hpump : forall t,
    Route.pump JSON_parse JSON_stringify fetchRunResult alive
      (Route.Chunk <$> texts) "" t
    = ({| Route.emitted :=
            Route.emitted t
            ++ ((fun e => e +:+ nl +:+ nl) <$> filter nonblank frames);
          Route.fetched := Route.fetched t |}, Route.Closed)).
  { intros t. destruct texts as [|a texts].
    - cbn. rewrite app_nil_r. by destruct t.
    - change (Route.Chunk <$> a :: texts)
        with (Route.Chunk a :: (Route.Chunk <$> texts)).
      rewrite pump_one_read by (intros e He Hnb; by apply Hframes).
      cbn [Route.pump]. cbv zeta. rewrite append_nil_l.
      change (a +:+ textOf texts) with (textOf (a :: texts)).
      fold (completeFrames (textOf (a :: texts))). fold frames.
      rewrite processEvents_verbatim;
        [|exact Halive|intros e He Hnb; by apply Hframes].
      assert (Hnone : existsb
                (fun e => nonblank e
                          && Route.groupDone (Route.parseFrame JSON_parse e))
                frames = false).
      { apply not_true_iff_false. intros Hex.
        apply existsb_exists in Hex as (e & He & Hb).
        apply andb_true_iff in Hb as [Hnb Hd]. apply list_elem_of_In in He.
        destruct (Hframes e He Hnb) as [_ Hgd]. congruence. }
      rewrite Hnone. reflexivity. }
  rewrite Hpump. reflexivity.
Qed.

(** The frame of a failed run, cut in two by the reads, reaches the
    consumer whole. *)
Lemma stream_is_forwarded_witness :
  Route.GET Sample.parse Sample.stringify Sample.noFetch Sample.connected
    true (Some "tgrp_1") (Some (Route.Chunk <$> Sample.cutFrame))
  = Route.EventStream
      {| Route.emitted :=
           (": keep-alive" +:+ nl +:+ nl)
           :: ((fun e => e +:+ nl +:+ nl)
                 <$> filter nonblank (completeFrames (textOf Sample.cutFrame)));
         Route.fetched := [] |}
      Route.Closed.
Proof.
  apply (stream_is_forwarded_verbatim Sample.parse Sample.stringify
           Sample.noFetch Sample.connected "tgrp_1" Sample.cutFrame).
  - discriminate.
  - reflexivity.
  - assert (Hframes : completeFrames (textOf Sample.cutFrame)
                      = [Sample.failedFrame]) by (vm_compute; reflexivity).
    rewrite Hframes. intros e He _. apply list_elem_of_singleton in He as ->.
    split; vm_compute; reflexivity.
Defined.

(** How [GET] answers: 500 without an API key, 400 without a task group id,
    and otherwise a stream whose first chunk is the keep-alive comment,
    whatever the upstream does. *)
Theorem GET_answers :
  forall (JSON_parse : string -> option JSON) (JSON_stringify : JSON -> string)
         (fetchRunResult : nat -> string -> JSON) (alive : nat -> bool)
         (apiKey : bool) (taskgroup_id : option string)
         (upstream : option (list Route.Read)),
    match Route.GET JSON_parse JSON_stringify fetchRunResult alive
            apiKey taskgroup_id upstream with
    | Route.Status code =>
        if apiKey
        then code = 400 /\ (taskgroup_id = None \/ taskgroup_id = Some "")
        else code = 500
    | Route.EventStream t e =>
        apiKey = true
        /\ (exists id, taskgroup_id = Some id /\ id <> "")
        /\ (exists rest, Route.emitted t = (": keep-alive" +:+ nl +:+ nl) :: rest)
        /\ (upstream = None -> e = Route.Errored)
    end.
Proof.
  intros JSON_parse JSON_stringify fetchRunResult alive apiKey taskgroup_id
         upstream.
  unfold Route.GET. destruct apiKey; [|done]. cbn [negb].
  destruct taskgroup_id as [[|c id]|]; [by split; [|right]| |by split; [|left]].
  cbv zeta. destruct upstream as [reads|].
  - pose proof (pump_grows JSON_parse JSON_stringify fetchRunResult alive reads
                  "" {| Route.emitted := [": keep-alive" +:+ nl +:+ nl];
                        Route.fetched := [] |}) as [[rest Hrest] _].
    destruct (Route.pump _ _ _ _ reads "" _) as [t e]. cbn in Hrest.
    split; [done|]. split; [by eexists|]. split; [by exists rest|done].
  - split; [done|]. split; [by eexists|]. split; [by exists []|done].
Qed.

(** Once the consumer has gone nothing more is enqueued.  The transport
    notices at the next frame that is not blank: it stops there, after the
    one result fetch that frame may have asked for. *)
Theorem consumer_gone_stops_the_transport :
  forall (JSON_parse : string -> option JSON) (JSON_stringify : JSON -> string)
         (fetchRunResult : nat -> string -> JSON) (alive : nat -> bool)
         (reads : list Route.Read) (buffer : string) (t : Route.Trace),
    alive (length (Route.emitted t)) = false ->
    let '(t', e) := Route.pump JSON_parse JSON_stringify fetchRunResult alive
                      reads buffer t in
    Route.emitted t' = Route.emitted t
    /\ (t' = t
        \/ (e = Route.Abandoned
            /\ (Route.fetched t' = Route.fetched t
                \/ exists runId, Route.fetched t' = Route.fetched t ++ [runId]))).
Proof.
  intros JSON_parse JSON_stringify fetchRunResult alive reads.
  induction reads as [|[text|] reads IH]; intros buffer t Hgone;
    [by split; [|left]| |by split; [|left]].
  cbn [Route.pump]. cbv zeta.
  pose proof (processEvents_gone JSON_parse JSON_stringify fetchRunResult alive
                (removelast (split (nl +:+ nl) (buffer +:+ text))) t false
                Hgone) as H.
  destruct (Route.processEvents _ _ _ _ _ t false) as [t1 b1|t1].
  - destruct H as [-> ->]. by apply IH.
  - destruct H as [Hem Hf]. split; [exact Hem|]. right. by split.
Qed.

(** The consumer leaves after the keep-alive comment: the frame of the
    completed run costs its fetch and nothing is sent. *)
Lemma consumer_gone_witness :
  let '(t', e) :=
    Route.pump Sample.parse Sample.stringify Sample.fetch Sample.gone
      [Route.Chunk (Sample.completedFrame +:+ nl +:+ nl);
       Route.Chunk Sample.lastRead] ""
      {| Route.emitted := [": keep-alive" +:+ nl +:+ nl];
         Route.fetched := [] |} in
  Route.emitted t' = [": keep-alive" +:+ nl +:+ nl]
  /\ (t' = {| Route.emitted := [": keep-alive" +:+ nl +:+ nl];
              Route.fetched := [] |}
      \/ (e = Route.Abandoned
          /\ (Route.fetched t' = []
              \/ exists runId, Route.fetched t' = [] ++ [runId]))).
Proof.
  apply (consumer_gone_stops_the_transport Sample.parse Sample.stringify
           Sample.fetch Sample.gone
           [Route.Chunk (Sample.completedFrame +:+ nl +:+ nl);
            Route.Chunk Sample.lastRead] ""
           {| Route.emitted := [": keep-alive" +:+ nl +:+ nl];
              Route.fetched := [] |}).
  reflexivity.
Defined.

Section LineFacts.

Implicit Types (s t cur : string) (c : ascii).

Lemma prefix_nl c s : String.prefix nl (String c s) = negb (notNl c).
Proof.
  unfold nl, notNl. cbn [String.prefix].
  destruct (ascii_dec (ascii_of_nat 10) c) as [<-|Hne].
  - by destruct s.
  - symmetry. apply negb_false_iff, negb_true_iff, Ascii.eqb_neq. congruence.
Qed.

Lemma split_go_line s : forall cur t,
  allChars notNl s = true ->
  split_go nl 0 cur (s +:+ t) = split_go nl 0 (String.rev_app s cur) t.
Proof.
  induction s as [|c s IH]; intros cur t Hs; [reflexivity|].
  rewrite append_cons. cbn [split_go]. simpl in Hs.
  apply andb_true_iff in Hs as [Hc Hs].
  rewrite prefix_nl, Hc. cbn [negb]. by rewrite IH.
Qed.

Lemma split_line s t :
  allChars notNl s = true -> split nl (s +:+ nl +:+ t) = s :: split nl t.
Proof.
  intros Hs. unfold split. rewrite split_go_line by exact Hs.
  change (nl +:+ t) with (String (ascii_of_nat 10) t). cbn [split_go].
  rewrite prefix_nl.
  change (negb (notNl (ascii_of_nat 10))) with true.
  change (String.length nl - 1)%nat with 0%nat. cbv iota.
  change (String.rev_app s "") with (String.rev s). by rewrite rev_rev.
Qed.

Lemma split_last_line s : allChars notNl s = true -> split nl s = [s].
Proof.
  intros Hs. unfold split. rewrite <- (append_nil_r s) at 1.
  rewrite split_go_line by exact Hs. cbn [split_go].
  change (String.rev_app s "") with (String.rev s). by rewrite rev_rev.
Qed.

Lemma split_go_notNl s : forall cur,
  allChars notNl cur = true ->
  Forall (fun p => allChars notNl p = true) (split_go nl 0 cur s).
Proof.
  induction s as [|c s IH]; intros cur Hcur.
  - cbn. constructor; [|constructor]. by rewrite allChars_rev.
  - cbn [split_go]. rewrite prefix_nl. destruct (notNl c) eqn:Hc; cbn [negb].
    + apply IH. simpl. by rewrite Hc.
    + constructor; [by rewrite allChars_rev|]. by apply IH.
Qed.

Lemma allChars_slice (p : ascii -> bool) (n : nat) : forall s,
  allChars p s = true -> allChars p (slice n s) = true.
Proof.
  induction n as [|n IH]; intros [|c s] Hs; try done.
  simpl in *. apply andb_true_iff in Hs as [_ Hs]. by apply IH.
Qed.

Lemma prefix_self s t : String.prefix s (s +:+ t) = true.
Proof.
  induction s as [|c s IH]; [by destruct t|].
  rewrite append_cons. cbn [String.prefix].
  by destruct (ascii_dec c c).
Qed.

End LineFacts.

Section FrameFacts.

Variable JSON_parse : string -> option JSON.

Local Abbreviation parseLine := (Route.parseLine JSON_parse).
Local Abbreviation parseFrame := (Route.parseFrame JSON_parse).

Lemma parseLine_event (f : Route.Frame) (name : string) :
  parseLine f ("event: " +:+ name)
  = {| Route.eventType := name; Route.eventId := Route.eventId f;
       Route.eventData := Route.eventData f |}.
Proof.
  unfold Route.parseLine, startsWith. by rewrite prefix_self.
Qed.

Lemma parseLine_id (f : Route.Frame) (id : string) :
  parseLine f ("id: " +:+ id)
  = {| Route.eventType := Route.eventType f; Route.eventId := id;
       Route.eventData := Route.eventData f |}.
Proof.
  unfold Route.parseLine, startsWith.
  change (String.prefix "event: " ("id: " +:+ id)) with false.
  by rewrite prefix_self.
Qed.

Lemma parseLine_data (f : Route.Frame) (payload : string) (v : JSON) :
  JSON_parse payload = Some v ->
  parseLine f ("data: " +:+ payload)
  = {| Route.eventType := Route.eventType f; Route.eventId := Route.eventId f;
       Route.eventData := v |}.
Proof.
  intros Hv. unfold Route.parseLine, startsWith.
  change (String.prefix "event: " ("data: " +:+ payload)) with false.
  change (String.prefix "id: " ("data: " +:+ payload)) with false.
  rewrite prefix_self. cbv iota.
  change (slice 6 ("data: " +:+ payload)) with payload. by rewrite Hv.
Qed.

(** The event name and the id of a frame hold no line break. *)
Lemma parseFrame_notNl (eventStr : string) :
  allChars notNl (Route.eventType (parseFrame eventStr)) = true
  /\ allChars notNl (Route.eventId (parseFrame eventStr)) = true.
Proof.
  unfold Route.parseFrame.
  pose proof (split_go_notNl eventStr "" eq_refl) as Hlines.
  fold (split nl eventStr) in Hlines.
  assert (Hinit : allChars notNl (Route.eventType
                    {| Route.eventType := ""; Route.eventId := "";
                       Route.eventData := JNull |}) = true
                  /\ allChars notNl (Route.eventId
                    {| Route.eventType := ""; Route.eventId := "";
                       Route.eventData := JNull |}) = true) by done.
  revert Hinit. generalize {| Route.eventType := ""; Route.eventId := "";
                              Route.eventData := JNull |}.
  induction Hlines as [|line lines Hline _ IH]; intros f Hf; [exact Hf|].
  cbn [foldl]. apply IH. unfold Route.parseLine.
  destruct (startsWith line "event: ");
    [cbn [Route.eventType Route.eventId];
     split; [by apply allChars_slice|apply Hf]|].
  destruct (startsWith line "id: ");
    [cbn [Route.eventType Route.eventId];
     split; [apply Hf|by apply allChars_slice]|].
  destruct (startsWith line "data: ");
    [cbn [Route.eventType Route.eventId]|]; exact Hf.
Qed.

End FrameFacts.

(** The augmented frame is a frame.  When the serialised payload holds no
    line break and parses back to the payload, the chunk sent in place of a
    completed run is a frame text followed by a blank line; read by the
    transport's own parser that text gives the event name and the id of the
    original frame and the payload with the fetched output, and with an
    output that is truthy it does not ask for a result again. *)
Theorem augmented_frame_reads_back :
  forall (JSON_parse : string -> option JSON) (JSON_stringify : JSON -> string)
         (eventStr : string) (output : JSON),
    let f := Route.parseFrame JSON_parse eventStr in
    let enriched := Route.withOutput (Route.eventData f) output in
    allChars notNl (JSON_stringify enriched) = true ->
    JSON_parse (JSON_stringify enriched) = Some enriched ->
    exists text,
      Route.enrichedEvent JSON_stringify f output = text +:+ nl +:+ nl
      /\ Route.parseFrame JSON_parse text
         = {| Route.eventType := Route.eventType f;
              Route.eventId := Route.eventId f;
              Route.eventData := enriched |}
      /\ (truthy output = true ->
          Route.needsResult (Route.parseFrame JSON_parse text) = false).
Proof.
  intros JSON_parse JSON_stringify eventStr output f enriched Hflat Hback.
  destruct (parseFrame_notNl JSON_parse eventStr) as [Hty Hid].
  fold f in Hty, Hid.
  set (payload := JSON_stringify enriched) in *.
  set (idLine := if String.eqb (Route.eventId f) "" then ""
                 else "id: " +:+ Route.eventId f +:+ nl).
  exists ("event: " +:+ Route.eventType f +:+ nl
          +:+ idLine +:+ "data: " +:+ payload).
  assert (Hparse : Route.parseFrame JSON_parse
                     ("event: " +:+ Route.eventType f +:+ nl
                      +:+ idLine +:+ "data: " +:+ payload)
                   = {| Route.eventType := Route.eventType f;
                        Route.eventId := Route.eventId f;
                        Route.eventData := enriched |}).
  { unfold Route.parseFrame.
    rewrite <- (append_assoc "event: " (Route.eventType f)).
    rewrite split_line by (rewrite allChars_app; by rewrite Hty).
    assert (Hdata : allChars notNl ("data: " +:+ payload) = true)
      by (rewrite allChars_app; by rewrite Hflat).
    cbn [foldl]. rewrite parseLine_event. cbn [Route.eventId Route.eventData].
    subst idLine. destruct (String.eqb (Route.eventId f) "") eqn:Hempty.
    - apply String.eqb_eq in Hempty. rewrite append_nil_l.
      rewrite split_last_line by exact Hdata. cbn [foldl].
      rewrite (parseLine_data _ _ _ _ Hback).
      cbn [Route.eventType Route.eventId]. by rewrite Hempty.
    - rewrite !append_assoc, <- (append_assoc "id: " (Route.eventId f)).
      rewrite split_line by (rewrite allChars_app; by rewrite Hid).
      rewrite split_last_line by exact Hdata. cbn [foldl].
      rewrite parseLine_id, (parseLine_data _ _ _ _ Hback). reflexivity. }
  split; [|split].
  - unfold Route.enrichedEvent. fold f enriched payload idLine.
    by rewrite !append_assoc.
  - exact Hparse.
  - intros Houtput. rewrite Hparse. unfold Route.needsResult. cbv zeta.
    cbn [Route.eventData Route.eventType]. subst enriched.
    unfold Route.withOutput. cbn [get]. rewrite assoc_set_field.
    cbn [truthy_opt]. rewrite Houtput. cbn [negb]. by rewrite !andb_false_r.
Qed.

(** The completed event of [trun_a] with its fetched output. *)
Lemma augmented_frame_witness :
  exists text,
    Route.enrichedEvent Sample.stringify
      (Route.parseFrame Sample.parseBack Sample.completedFrame) Sample.output
    = text +:+ nl +:+ nl
    /\ Route.parseFrame Sample.parseBack text
       = {| Route.eventType := "task_run.state";
            Route.eventId := "";
            Route.eventData :=
              Sample.runEvent "completed" "trun_a"
                [("output", Sample.output)] |}
    /\ (truthy Sample.output = true ->
        Route.needsResult (Route.parseFrame Sample.parseBack text) = false).
Proof.
  apply (augmented_frame_reads_back Sample.parseBack Sample.stringify
           Sample.completedFrame Sample.output);
    vm_compute; reflexivity.
Defined.

(* ===================================================================== *)
(** * The correlation table, both ways                                    *)
(* ===================================================================== *)

(** The table the client receives holds nothing of its own making: every
    entry stands under an id the remote service returned, not empty, at a
    position that has a row, and carries the coordinates of that row.
    Conversely an id that is not empty, has a row at its position, is not
    returned again later and is not the string "undefined" is a key of the
    table and holds the coordinates of its row. *)
Theorem run_map_sent_correlates :
  forall (run_ids : list (option string)) (rows : list Route.Row),
    (forall id entry,
        Route.run_map_sent run_ids rows !! id = Some entry ->
        exists i r,
          run_ids !! i = Some (Some id) /\ id <> "" /\ rows !! i = Some r
          /\ entry = {| entry_row := Route.row r;
                        targetCols := Route.targetCols r;
                        targetHeaders := Route.targetHeaders r |})
    /\ (forall i id r,
          run_ids !! i = Some (Some id) -> id <> "" -> rows !! i = Some r ->
          (forall j, (i < j)%nat -> run_ids !! j <> Some (Some id)) ->
          id <> "undefined" ->
          Route.run_map_sent run_ids rows !! id
          = Some {| entry_row := Route.row r;
                    targetCols := Route.targetCols r;
                    targetHeaders := Route.targetHeaders r |}).
Proof.
  intros run_ids rows. split; [|intros i id r; apply run_map_sent_usable].
  intros id entry. unfold Route.run_map_sent.
  rewrite lookup_omap, run_map_entries.
  destruct (fromEntries _ !! id) as [v|] eqn:Hv; [|discriminate].
  cbn. intros ->.
  apply fromEntries_imap_Some in Hv as (i & rid & Hi & Hkey & Hval & _).
  unfold Route.entryFor in Hkey, Hval.
  destruct rid as [id'|]; [|discriminate].
  destruct (rows !! i) as [r|] eqn:Hr; [|discriminate].
  destruct (String.eqb id' "") eqn:Hempty; [discriminate|].
  cbn in Hkey, Hval. subst id'. injection Hval as <-.
  exists i, r. repeat split; try done. by apply String.eqb_neq.
Qed.

(** Two ids for two rows: each is a key and holds its row. *)
Lemma run_map_sent_witness :
  (forall id entry,
      Route.run_map_sent [Some "trun_a"; Some "trun_b"]
        [Sample.serverRow 1; Sample.serverRow 2] !! id = Some entry ->
      exists i r,
        [Some "trun_a"; Some "trun_b"] !! i = Some (Some id) /\ id <> ""
        /\ [Sample.serverRow 1; Sample.serverRow 2] !! i = Some r
        /\ entry = {| entry_row := Route.row r;
                      targetCols := Route.targetCols r;
                      targetHeaders := Route.targetHeaders r |})
  /\ Route.run_map_sent [Some "trun_a"; Some "trun_b"]
       [Sample.serverRow 1; Sample.serverRow 2] !! "trun_b"
     = Some {| entry_row := 2; targetCols := [1; 2];
               targetHeaders := ["Stage"; "Employee Count"] |}.
Proof.
  pose proof (run_map_sent_correlates [Some "trun_a"; Some "trun_b"]
                [Sample.serverRow 1; Sample.serverRow 2]) as [Hsound Hcomplete].
  split; [exact Hsound|].
  apply (Hcomplete 1%nat "trun_b" (Sample.serverRow 2)); try done.
  intros [|[|[|j]]] Hj; try lia; discriminate.
Defined.

(* ===================================================================== *)
(** * Client and server together                                          *)
(* ===================================================================== *)

Section FailedJobs.

Variables (cl : Run) (table : gmap string RunMapEntry) (rid : nat) (now : Z).

Local Abbreviation streaming := (streaming rid cl table).

Lemma failedEvent_step (id : string) (meta : RunMapEntry) (s : State) :
  streaming s -> table !! id = Some meta -> id <> "" ->
  let s' := step s (During (Message rid now (failedEvent id))) in
  streaming s'
  /\ pending s' = pending s ∖ list_to_set (targetKeys meta)
  /\ errorCount s' = errorCount s + 1
  /\ busy s' = busy s /\ data s' = data s.
Proof.
  intros (Hcl & Hos & Hrm) Hmeta Hid. cbn [step stepRun].
  rewrite Hcl, bool_decide_eq_true_2 by exact Hos. rewrite Hrm.
  cbn [default from_option Datatypes.id].
  unfold handleEventData. cbv zeta.
  change (is_str (get (Some (failedEvent id)) "type") "task_run.state")
    with true.
  change (is_str (get (get (Some (failedEvent id)) "run") "status") "completed")
    with false.
  change (is_str (get (get (Some (failedEvent id)) "run") "status") "failed")
    with true.
  change (get (get (Some (failedEvent id)) "run") "run_id")
    with (Some (JStr id)).
  cbn [orb andb]. unfold lookupRun. cbn [truthy toString].
  rewrite (proj2 (String.eqb_neq id "") Hid). cbn [negb]. rewrite Hmeta.
  cbn. repeat split; try done.
  rewrite clearPending_difference, foldl_snoc_map. cbn [app].
  unfold targetKeys. by rewrite <- list_fmap_compose.
Qed.

Lemma failedEvents_exec (ids : list string) : forall s : State,
  streaming s ->
  (forall id, id ∈ ids -> id <> "" /\ is_Some (table !! id)) ->
  let s' := exec s ((fun id => During (Message rid now (failedEvent id)))
                      <$> ids) in
  (forall k, k ∈ pending s'
             <-> k ∈ pending s
                 /\ forall id meta, id ∈ ids -> table !! id = Some meta ->
                                    k ∉ targetKeys meta)
  /\ errorCount s' = errorCount s + Z.of_nat (length ids)
  /\ busy s' = busy s /\ data s' = data s.
Proof.
  induction ids as [|id ids IH]; intros s Hs Hids.
  - cbn. split; [|by rewrite Z.add_0_r].
    intros k. split; [intros Hk; split; [exact Hk|]|by intros [Hk _]].
    intros id meta Hin. by apply elem_of_nil in Hin.
  - destruct (Hids id (list_elem_of_here _ _)) as [Hne [meta Hmeta]].
    destruct (failedEvent_step id meta s Hs Hmeta Hne)
      as (Hs1 & Hp1 & He1 & Hb1 & Hd1).
    assert (Hrest : forall id', id' ∈ ids ->
                                id' <> "" /\ is_Some (table !! id')).
    { intros id' Hin. apply Hids. by apply list_elem_of_further. }
    destruct (IH _ Hs1 Hrest) as (Hp & He & Hb & Hd).
    unfold exec in *. cbn [fmap list_fmap foldl]. split; [|split; [|split]].
    + intros k. rewrite Hp, Hp1, elem_of_difference. split.
      * intros [[Hk Hnot] Hall]. split; [exact Hk|].
        intros id' meta' Hin Hmeta'.
        apply elem_of_cons in Hin as [->|Hin].
        -- rewrite Hmeta in Hmeta'. injection Hmeta' as <-.
           intros Hin. apply Hnot, elem_of_list_to_set, Hin.
        -- by apply (Hall id' meta').
      * intros [Hk Hall]. split; [split; [exact Hk|]|].
        -- rewrite elem_of_list_to_set.
           apply (Hall id meta); [apply list_elem_of_here|exact Hmeta].
        -- intros id' meta' Hin. apply Hall. by apply list_elem_of_further.
    + rewrite He, He1. rewrite length_cons. lia.
    + by rewrite Hb, Hb1.
    + by rewrite Hd, Hd1.
Qed.

End FailedJobs.

(** Client and server together.  The page starts a run; the server builds
    the table from the request and from ids the remote service returned, one
    per job, distinct, not empty and not the string "undefined".  Then a
    failed event for every job releases every cell of the selection: the
    pending set is empty before any group status arrives, each failure is
    counted once, no cell value changes, and the run is still busy. *)
Theorem failed_jobs_release_every_cell :
  forall (wire : JobSpec -> Route.Row) (s0 : State) (r : Range) (now : Z)
         (taskgroup_id : string) (ids : list string),
    busy s0 = false -> pending s0 = ∅ -> range s0 = Some r ->
    (forall j, Route.row (wire j) = job_row j
               /\ Route.targetCols (wire j) = job_targetCols j) ->
    NoDup ids ->
    (forall id, id ∈ ids -> id <> "" /\ id <> "undefined") ->
    length ids = length (rowsPayloadOf (data s0) r) ->
    let rid := length (runs s0) in
    let table := Route.run_map_sent (Some <$> ids)
                   (wire <$> rowsPayloadOf (data s0) r) in
    let started :=
      exec s0 [Enrich now;
               During (Response rid (Some (taskgroup_id, table)))] in
    let s := exec started
               ((fun id => During (Message rid now (failedEvent id))) <$> ids) in
    pending started = list_to_set (cellKey <$> selectedCellsOf r)
    /\ pending s = ∅
    /\ errorCount s = Z.of_nat (length ids)
    /\ busy s = true
    /\ data s = data s0.
Proof.
  intros wire s0 r now taskgroup_id ids Hbusy Hpending Hrange Hwire Hnodup
         Hids Hlen rid table started s.
  set (cl := {| selectedCells := selectedCellsOf r;
                rowsPayload := rowsPayloadOf (data s0) r;
                startTime := now;
                run_headerIndex := headerIndex (headers (data s0)) |}).
  (* the state when the stream opens *)
  assert (Hstarted :
    streaming rid cl table started
    /\ pending started = list_to_set (cellKey <$> selectedCellsOf r)
    /\ errorCount started = 0 /\ busy started = true
    /\ data started = data s0).
  { subst started. unfold streaming. cbn [exec foldl step stepRun].
    unfold enrich.
    rewrite Hrange, Hbusy. cbv zeta. unfold enrichResume.
    cbn [runs awaiting setBusy pushRun setEnv setErrorCount setSuccessCount
         setInitialPendingCount setPending setRange].
    fold rid. fold cl.
    assert (Hlookup : (runs s0 ++ [cl]) !! rid = Some cl)
      by (subst rid; apply list_lookup_middle; reflexivity).
    rewrite Hlookup. rewrite bool_decide_eq_true_2 by set_solver.
    cbn. rewrite Hlookup, lookup_insert_eq, addPending_union, Hpending.
    repeat split; try done; set_solver. }
  destruct Hstarted as (Hstream & Hp0 & He0 & Hb0 & Hd0).
  split; [exact Hp0|].
  (* every id is a key of the table, and holds its row *)
  assert (Htable : forall (n : nat) (id : string) (j : JobSpec),
            ids !! n = Some id -> rowsPayloadOf (data s0) r !! n = Some j ->
            table !! id
            = Some {| entry_row := job_row j;
                      targetCols := job_targetCols j;
                      targetHeaders := Route.targetHeaders (wire j) |}).
  { intros n id j Hn Hj. subst table.
    destruct (Hids id (list_elem_of_lookup_2 _ _ _ Hn)) as [Hne Hundef].
    destruct (Hwire j) as [<- <-].
    apply (run_map_sent_usable (Some <$> ids) (wire <$> _) n id (wire j)).
    - by rewrite list_lookup_fmap, Hn.
    - exact Hne.
    - by rewrite list_lookup_fmap, Hj.
    - intros m Hm. rewrite list_lookup_fmap.
      destruct (ids !! m) as [id'|] eqn:Hm'; [|discriminate].
      cbn. intros [= ->].
      pose proof (NoDup_lookup _ _ _ _ Hnodup Hn Hm'). lia.
    - exact Hundef. }
  assert (Hkeys : forall id, id ∈ ids -> id <> "" /\ is_Some (table !! id)).
  { intros id Hin. split; [by apply Hids|].
    apply list_elem_of_lookup_1 in Hin as [n Hn].
    destruct (lookup_lt_is_Some_2 (rowsPayloadOf (data s0) r) n) as [j Hj].
    { rewrite <- Hlen. by apply lookup_lt_Some in Hn. }
    rewrite (Htable n id j Hn Hj). by eexists. }
  destruct (failedEvents_exec cl table rid now ids started Hstream Hkeys)
    as (Hp & He & Hb & Hd).
  fold s in Hp, He, Hb, Hd.
  split; [|split; [by rewrite He, He0|split; [by rewrite Hb|by rewrite Hd]]].
  apply set_eq. intros k. split; [|intros Hk; by apply elem_of_empty in Hk].
  rewrite Hp, Hp0, elem_of_list_to_set, list_elem_of_fmap.
  intros [(p & -> & Hcell) Hall]. exfalso.
  rewrite selectedCellsOf_rows in Hcell.
  apply list_elem_of_join in Hcell as (cells & Hcell & Hrow).
  apply list_elem_of_fmap in Hrow as (i & -> & Hi).
  apply list_elem_of_fmap in Hcell as (c & -> & Hc).
  apply list_elem_of_lookup_1 in Hi as [n Hn].
  assert (Hj : rowsPayloadOf (data s0) r !! n
               = Some (jobSpecOf (data s0) r i))
    by (by rewrite rowsPayloadOf_rows, list_lookup_fmap, Hn).
  destruct (lookup_lt_is_Some_2 ids n) as [id Hid].
  { rewrite Hlen. by apply lookup_lt_Some in Hj. }
  apply (Hall id _ (list_elem_of_lookup_2 _ _ _ Hid) (Htable n id _ Hid Hj)).
  unfold targetKeys. cbn [entry_row targetCols jobSpecOf job_row job_targetCols].
  apply list_elem_of_fmap. exists c. split; [reflexivity|].
  by rewrite tColsOf_seqZ.
Qed.

(** Rows 1 to 3 of the sample grid, three ids, three failures. *)
Lemma failed_jobs_witness :
  let s0 := step (initial Sample.grid) (Select Sample.block) in
  let ids := ["trun_a"; "trun_b"; "trun_c"] in
  let table := Route.run_map_sent (Some <$> ids)
                 (Sample.wire <$> rowsPayloadOf Sample.grid Sample.block) in
  let started :=
    exec s0 [Enrich 0; During (Response 0 (Some ("tgrp_1", table)))] in
  let s := exec started
             ((fun id => During (Message 0 0 (failedEvent id))) <$> ids) in
  pending started = list_to_set (cellKey <$> selectedCellsOf Sample.block)
  /\ pending s = ∅
  /\ errorCount s = 3
  /\ busy s = true
  /\ data s = Sample.grid.
Proof.
  apply (failed_jobs_release_every_cell Sample.wire
           (step (initial Sample.grid) (Select Sample.block)) Sample.block 0
           "tgrp_1" ["trun_a"; "trun_b"; "trun_c"]).
  - reflexivity.
  - reflexivity.
  - reflexivity.
  - intros j. split; reflexivity.
  - repeat (apply NoDup_cons; split; [set_solver|]). apply NoDup_nil_2.
  - intros id Hin. repeat (apply elem_of_cons in Hin as [->|Hin]);
      [split; discriminate..|by apply elem_of_nil in Hin].
  - vm_compute. reflexivity.
Defined.

Section CompletedJobs.

Variables (hs : list string) (tHeaders : list string) (tCols : list Z).

Local Abbreviation hit := (hitOf (headerIndex hs) (length hs) tHeaders tCols).





End CompletedJobs.



(* ===================================================================== *)
(** * The selection badge and the run                                     *)
(* ===================================================================== *)

(** The badge "cells selected" counts the cells of the selection; the run
    counts the cells it marks pending.  For a normalized selection the two
    agree when the selection lies below the header row.  A selection that
    begins in the header row and reaches a data row loses one row of cells
    in the run.  A selection inside the header row gives the same number,
    but of other cells: the run marks the cells of row 1, none of which is
    selected. *)
Theorem selection_badge_and_run :
  forall (s0 : State) (r : Range) (now : Z),
    busy s0 = false -> range s0 = Some r -> normalized r ->
    exists st : View.Stats,
      View.selectionStats (range s0) = Some st
      /\ View.cells st = View.rows st * View.cols st
      /\ (1 <= row (start r) ->
          initialPendingCount (enrich now s0) = View.cells st)
      /\ (row (start r) = 0 -> 1 <= row (end_ r) ->
          initialPendingCount (enrich now s0) = View.cells st - View.cols st)
      /\ (row (end_ r) = 0 ->
          initialPendingCount (enrich now s0) = View.cells st
          /\ forall p, p ∈ selectedCellsOf r -> row p = 1).
Proof.
  intros s0 r now Hbusy Hrange ((Hr0 & Hr1) & (Hc0 & Hc1)).
  rewrite Hrange. eexists. split; [reflexivity|]. cbn [View.cells View.rows View.cols].
  assert (Hcount : initialPendingCount (enrich now s0)
                   = (endRowOf r - startRowOf r + 1)
                     * (column (end_ r) - column (start r) + 1)).
  { unfold enrich. rewrite Hrange, Hbusy. cbn.
    rewrite selectedCellsOf_length, Nat2Z.inj_mul.
    unfold endRowOf, startRowOf. rewrite !Z2Nat.id by lia. reflexivity. }
  rewrite Hcount. unfold endRowOf, startRowOf.
  split; [reflexivity|]. split; [|split].
  - intros H1. f_equal. lia.
  - intros H0 H1. rewrite H0. replace (Z.max 1 0) with 1 by lia.
    replace (Z.max 1 (row (end_ r))) with (row (end_ r)) by lia. lia.
  - intros H0. assert (row (start r) = 0) as Hs by lia. rewrite H0, Hs.
    split; [reflexivity|].
    intros p Hp. rewrite selectedCellsOf_rows in Hp.
    apply list_elem_of_join in Hp as (cells & Hp & Hrow).
    apply list_elem_of_fmap in Hrow as (i & -> & Hi).
    apply list_elem_of_fmap in Hp as (c & -> & _). cbn [row].
    apply elem_of_seqZ in Hi. unfold endRowOf, startRowOf in Hi.
    rewrite H0, Hs in Hi. lia.
Qed.

(** A header cell is selected: the badge says one cell, the run marks one
    cell, the one below it. *)
Lemma selection_badge_witness :
  exists st : View.Stats,
    View.selectionStats
      (range (step (initial Sample.grid) (Select Sample.headerCell))) = Some st
    /\ View.cells st = View.rows st * View.cols st
    /\ (1 <= row (start Sample.headerCell) ->
        initialPendingCount
          (enrich 0 (step (initial Sample.grid) (Select Sample.headerCell)))
        = View.cells st)
    /\ (row (start Sample.headerCell) = 0 -> 1 <= row (end_ Sample.headerCell) ->
        initialPendingCount
          (enrich 0 (step (initial Sample.grid) (Select Sample.headerCell)))
        = View.cells st - View.cols st)
    /\ (row (end_ Sample.headerCell) = 0 ->
        initialPendingCount
          (enrich 0 (step (initial Sample.grid) (Select Sample.headerCell)))
        = View.cells st
        /\ forall p, p ∈ selectedCellsOf Sample.headerCell -> row p = 1).
Proof.
  apply (selection_badge_and_run
           (step (initial Sample.grid) (Select Sample.headerCell))
           Sample.headerCell 0).
  - reflexivity.
  - reflexivity.
  - unfold normalized. cbn. lia.
Defined.

(** No handler of a run touches [initialPendingCount]. *)
Lemma stepRun_total (s : State) (e : RunEvent) :
  initialPendingCount (stepRun s e) = initialPendingCount s.
Proof.
  destruct e as [rid resp|rid now obj|rid|rid| |]; cbn [stepRun].
  - unfold enrichResume. destruct (runs s !! rid) as [cl|]; [|reflexivity].
    destruct (bool_decide _); [|reflexivity].
    by destruct resp as [[g rm]|].
  - destruct (runs s !! rid) as [cl|]; [|reflexivity].
    destruct (bool_decide _); [|reflexivity].
    unfold handleEventData. cbv zeta.
    assert (Happly : forall hi r content ths cols,
              initialPendingCount (applyRowResult hi r content ths cols s)
              = initialPendingCount s).
    { intros hi r content ths cols. unfold applyRowResult. cbv zeta.
      destruct r as [i|]; [destruct (Some i ≫= at_ (data s))|]; reflexivity. }
    destruct (_ || _).
    + destruct (_ && _).
      * destruct (outOf _); [|reflexivity].
        destruct (lookupRun _ _); [apply Happly|apply Happly|reflexivity].
      * destruct (is_str _ "failed"); [|reflexivity].
        by destruct (lookupRun _ _).
    + destruct (is_str _ "task_group_status"); [|reflexivity].
      by destruct (is_false _).
  - destruct (runs s !! rid) as [cl|]; [|reflexivity].
    by destruct (bool_decide _).
  - destruct (runs s !! rid) as [cl|]; [|reflexivity].
    by destruct (bool_decide _).
  - unfold cancelEnrichment. by destruct (cancellable s).
  - unfold cancelResume. destruct (cancelling s); [reflexivity|].
    cbv zeta. change (esRef (setCancelling n s)) with (esRef s).
    by destruct (esRef s).
Qed.

(** The View.progress badge of a run, "n of N cells".  From the start of a run
    on an idle page and through any events of runs (answers, stream
    messages, stream errors, timeouts, cancellations), N stays what the run
    set it to, and n starts at 0, never becomes negative, never exceeds N and
    never goes back. *)
Theorem progress_badge_is_monotone :
  forall (s0 : State) (r : Range) (now : Z) (evs : list RunEvent),
    busy s0 = false -> pending s0 = ∅ -> range s0 = Some r ->
    let s1 := enrich now s0 in
    View.progress s1 = 0
    /\ forall k : nat,
         let before := foldl stepRun s1 (take k evs) in
         let after := foldl stepRun s1 (take (S k) evs) in
         initialPendingCount after = initialPendingCount s1
         /\ 0 <= View.progress before <= View.progress after
         /\ View.progress after <= initialPendingCount s1.
Proof.
  intros s0 r now evs Hbusy Hpend Hrange s1.
  assert (Hstart : initialPendingCount s1 = Z.of_nat (size (pending s1))).
  { subst s1. unfold enrich. rewrite Hrange, Hbusy. cbn.
    rewrite Hpend, addPending_union, (right_id_L ∅ (∪)).
    rewrite size_list_to_set
      by (apply NoDup_fmap_2; [apply _|apply selectedCellsOf_NoDup]).
    by rewrite length_fmap. }
  split; [unfold View.progress; lia|].
  assert (Hinv : forall es : list RunEvent,
            initialPendingCount (foldl stepRun s1 es) = initialPendingCount s1
            /\ 0 <= View.progress (foldl stepRun s1 es)).
  { induction es as [|e es IH] using rev_ind.
    - cbn. unfold View.progress. lia.
    - rewrite foldl_app. cbn [foldl]. destruct IH as [IHn IHp].
      rewrite stepRun_total. split; [exact IHn|].
      unfold View.progress in *. rewrite stepRun_total.
      pose proof (subseteq_size _ _
                    (stepRun_pending_subseteq (foldl stepRun s1 es) e)).
      lia. }
  intros k before after. subst before after.
  destruct (Hinv (take k evs)) as [Hn Hp].
  destruct (Hinv (take (S k) evs)) as [Hn' Hp'].
  split; [exact Hn'|].
  assert (Hstep : View.progress (foldl stepRun s1 (take k evs))
                  <= View.progress (foldl stepRun s1 (take (S k) evs))).
  { destruct (evs !! k) as [e|] eqn:He.
    - rewrite (take_S_r _ _ _ He), foldl_app. cbn [foldl].
      unfold View.progress. rewrite stepRun_total.
      pose proof (subseteq_size _ _
                    (stepRun_pending_subseteq (foldl stepRun s1 (take k evs)) e)).
      lia.
    - apply lookup_ge_None in He.
      rewrite !take_ge by lia. lia. }
  split; [lia|]. unfold View.progress in *. lia.
Qed.

(** The sample run: its answer, a failure, the end of the group. *)
Lemma progress_badge_witness :
  let s1 := enrich 0 (step (initial Sample.grid) (Select Sample.block)) in
  let evs := [Response 0 (Some ("tgrp_1", Sample.table));
              Message 0 5 (failedEvent "trun_b");
              Message 0 9 (Sample.groupStatus false)] in
  View.progress s1 = 0
  /\ forall k : nat,
       let before := foldl stepRun s1 (take k evs) in
       let after := foldl stepRun s1 (take (S k) evs) in
       initialPendingCount after = initialPendingCount s1
       /\ 0 <= View.progress before <= View.progress after
       /\ View.progress after <= initialPendingCount s1.
Proof.
  apply (progress_badge_is_monotone
           (step (initial Sample.grid) (Select Sample.block)) Sample.block 0
           [Response 0 (Some ("tgrp_1", Sample.table));
            Message 0 5 (failedEvent "trun_b");
            Message 0 9 (Sample.groupStatus false)]);
    reflexivity.
Defined.
